(** * QueueCTL: a shallow embedding of the job-lifecycle engine

    The development follows the source files of the repository:
    - [Util]   : src/util.js    (clock arithmetic and backoff),
    - [Job], [Dlq], [WorkerRow], [DB] : src/schema.sql (the four tables),
    - [Config] : src/config.js  (typed key/value settings),
    - [Queue]  : src/queue.js   (enqueue, status, dlqRetry),
    - [Worker] : src/worker.js  (heartbeat, refreshLock, claimJob, processJob),
    followed by a transition system whose steps are the calls the worker loop
    and the operator CLI make on the shared database.

    Representation choices.
    - A clock reading is the time value of [Date.now()], in milliseconds.
      The source stores [Date.prototype.toISOString()] renderings and SQLite
      compares them as text, byte by byte.  The columns [run_at] and
      [lock_until], which the claim compares with the rendered clock and
      which hold a text of the caller ([run_at]) or the rendering of a
      computed instant, are texts here too, and [Util.toISOString] is the
      rendering.  The columns that only ever hold a rendered clock reading
      ([created_at], [updated_at], [dead_at], [heartbeat_at], [started_at])
      are kept as that reading: on readings with a four-digit year the order
      of the renderings is the order of the readings ([toISOString_leb]).
      [toISOString] throws on a time value beyond 8.64e15 ms; the one
      instant that depends on data, the retry time, is checked
      ([Util.valid_time]); a clock reading plus 60 s is taken to be valid.
    - A Number is an integer or NaN.  The integer is exact when its
      magnitude is at most 2^53; statements about larger ones say so.
    - Where SQL leaves the choice among rows that tie in an ORDER BY to the
      engine, the choice is a parameter of the function.
    - A text is a Rocq [string], one [ascii] per character: exact for the
      ASCII texts the queue handles (ids, commands, config values, error
      messages); [slice] and [parseInt] are modelled on that alphabet.
    - A table is the list of its rows in rowid (insertion) order.  PRIMARY KEY
      uniqueness is enforced by the INSERT statements, which fail on a key
      that is already present.
    - A thrown exception is the [Throw] result.  Every writing path of the
      source is one SQL statement or one [db.transaction], so a [Throw]
      leaves the database exactly as it was. *)

From Stdlib Require Import ZArith Lia String Ascii List Bool DecimalString.
From Stdlib Require DecimalPos.
From stdpp Require Import base option list gmap strings.

Local Open Scope Z_scope.

(** ** Results of fallible calls *)

Inductive Result (A : Type) : Type :=
| Ok (a : A)
| Throw (msg : string).
Arguments Ok {A} a.
Arguments Throw {A} msg.

(** The database a caller sees after a call: the new one on success, the old
    one when the call threw (rollback). *)
Definition after {A : Type} (old : A) (r : Result A) : A :=
  match r with Ok new => new | Throw _ => old end.

(** ** JavaScript helpers *)

(** The Number returned by [parseInt]: NaN, or the Number for an integer
    [z].  Up to a magnitude of 2^53 that Number is [z] itself; for a larger
    [z] it is a double near [z], or an infinity, of magnitude at least 2^53,
    and [Num z] stands for it without giving its value.  Negative zero is
    identified with zero: both are falsy. *)
Inductive JsNumber : Type :=
| NaN
| Num (z : Z).

(** [x || d] on a Number: NaN and 0 are falsy. *)
Definition num_or (x : JsNumber) (d : Z) : Z :=
  match x with
  | NaN => d
  | Num z => if z =? 0 then d else z
  end.

(** White space skipped by [parseInt] (the ASCII part of StrWhiteSpaceChar):
    TAB, LF, VT, FF, CR and SPACE. *)
Definition is_space (c : ascii) : bool :=
  let n := nat_of_ascii c in
  ((9 <=? n)%nat && (n <=? 13)%nat) || (n =? 32)%nat.

Definition digit_value (c : ascii) : option Z :=
  let n := nat_of_ascii c in
  if ((48 <=? n)%nat && (n <=? 57)%nat) then Some (Z.of_nat n - 48) else None.

Fixpoint skip_spaces (s : string) : string :=
  match s with
  | String c rest => if is_space c then skip_spaces rest else s
  | EmptyString => s
  end.

(** The longest prefix of decimal digits, read left to right; [acc] is the
    value of the digits consumed so far ([None]: no digit yet). *)
Fixpoint read_digits (s : string) (acc : option Z) : option Z :=
  match s with
  | String c rest =>
      match digit_value c with
      | Some d => read_digits rest (Some (10 * default 0 acc + d))
      | None => acc
      end
  | EmptyString => acc
  end.

(** [parseInt(s, 10)]: skip leading white space, take an optional sign, read
    the longest run of decimal digits; NaN when that run is empty.  The
    result is the integer read when its magnitude is at most 2^53; see
    [JsNumber] for a larger one. *)
Definition parseInt (s : string) : JsNumber :=
  let trimmed := skip_spaces s in
  let '(sign, body) :=
    match trimmed with
    | String "-" rest => (-1, rest)
    | String "+" rest => (1, rest)
    | _ => (1, trimmed)
    end in
  match read_digits body None with
  | Some n => Num (sign * n)
  | None => NaN
  end.

(** [`${n}`] for an integer Number [n] of magnitude at most 2^53 (a safe
    integer): its decimal numeral.  From 1e21 on JavaScript writes an
    exponent; no statement below uses the function there. *)
Definition string_of_Z (n : Z) : string := NilZero.string_of_int (Z.to_int n).

(** ** src/util.js *)

Module Util.

(** An instant: the time value of a [Date], in milliseconds since the
    epoch. *)
Definition Timestamp : Type := Z.

(** A [Date] holds a time value of magnitude at most 8.64e15 ms (TimeClip);
    [toISOString] throws a RangeError on any other. *)
Definition valid_time (t : Z) : bool := Z.abs t <=? 8640000000000000.

(** The character of a decimal digit. *)
Definition digit (d : Z) : ascii := ascii_of_nat (48 + Z.to_nat d).

(** The [width] decimal digits of [n], most significant first. *)
Fixpoint pad (width : nat) (n : Z) : string :=
  match width with
  | O => EmptyString
  | S w => String (digit (n / 10 ^ Z.of_nat w)) (pad w (n mod 10 ^ Z.of_nat w))
  end.

(** Year (counted from a 1 March), month and day of the day [doe] of a
    400-year era that starts on a 1 March. *)
Definition civil_of_era_day (doe : Z) : Z * Z * Z :=
  let yoe := (doe - doe / 1460 + doe / 36524 - doe / 146096) / 365 in
  let doy := doe - (365 * yoe + yoe / 4 - yoe / 100) in
  let mp := (5 * doy + 2) / 153 in
  let d := doy - (153 * mp + 2) / 5 + 1 in
  let m := if mp <? 10 then mp + 3 else mp - 9 in
  (yoe + (if m <=? 2 then 1 else 0), m, d).

(** Year, month and day (proleptic Gregorian, UTC) of the day that is
    [days] days after 1970-01-01. *)
Definition civil_from_days (days : Z) : Z * Z * Z :=
  let z := days + 719468 in
  let '(y, m, d) := civil_of_era_day (z mod 146097) in
  (y + z / 146097 * 400, m, d).

(** The year of an ISO rendering: four digits for the years 0 to 9999, a
    sign and six digits otherwise. *)
Definition year_text (y : Z) : string :=
  if (0 <=? y) && (y <=? 9999) then pad 4 y
  else if y <? 0 then String "-" (pad 6 (- y))
  else String "+" (pad 6 y).

(** [new Date(t).toISOString()] for a valid time value [t]:
    [YYYY-MM-DDTHH:mm:ss.sssZ]. *)
Definition toISOString (t : Z) : string :=
  let '(y, m, d) := civil_from_days (t / 86400000) in
  let ms := t mod 86400000 in
  year_text y +:+ "-" +:+ pad 2 m +:+ "-" +:+ pad 2 d +:+ "T" +:+
  pad 2 (ms / 3600000) +:+ ":" +:+ pad 2 (ms / 60000 mod 60) +:+ ":" +:+
  pad 2 (ms / 1000 mod 60) +:+ "." +:+ pad 3 (ms mod 1000) +:+ "Z".

(** [addSeconds(iso, seconds)]: the time value
    [new Date(iso).getTime() + seconds*1000] of the Date that the function
    renders with [toISOString], for an [iso] written by [nowISO()].  The
    rendering throws when the sum is no valid time value; a sum 60 s after
    a reading of the clock is valid, and [processJob] checks the instant of
    a retry, which depends on the configuration. *)
Definition addSeconds (iso : Timestamp) (seconds : Z) : Timestamp :=
  iso + seconds * 1000.

(** [backoff(base, attempts)]: [Math.pow(base, attempts)], on an integer
    base and a non-negative integer exponent. *)
Definition backoff (base attempts : Z) : Z := base ^ attempts.

(** [isDue(iso)], read at clock [now]. *)
Definition isDue (now : Timestamp) (iso : option Timestamp) : bool :=
  match iso with
  | None => true
  | Some t => t <=? now
  end.

(** [stored <= ?] in SQL, on a TEXT column and the rendering of the clock
    reading [now]: texts are compared byte by byte. *)
Definition text_le (stored : string) (now : Timestamp) : bool :=
  String.leb stored (toISOString now).

End Util.

Abbreviation Timestamp := Util.Timestamp.

(** ** src/schema.sql *)

(** [CHECK (state IN ('pending','processing','completed','failed','dead'))] *)
Inductive JobState : Type :=
| pending
| processing
| completed
| failed
| dead.

#[global] Instance JobState_eq_dec : EqDecision JobState.
Proof. solve_decision. Defined.

(** A row of [jobs].  [created_at] and [updated_at] only ever hold a
    reading of the clock and are kept as that instant; [run_at] and
    [lock_until] hold the stored text, which is a rendering of an instant
    that may lie outside the four-digit years or, for [run_at], the text the
    caller of [enqueue] has given. *)
Module Job.
Record row : Type := {
  id : string;
  command : string;
  state : JobState;
  attempts : Z;
  max_retries : Z;
  created_at : Timestamp;
  updated_at : Timestamp;
  run_at : option string;
  last_error : option string;
  priority : Z;
  locked_by : option string;
  lock_until : option string
}.
End Job.

(** The object serialized into [dlq.payload] by [JSON.stringify] and read
    back by [JSON.parse]; a field that is [null] or missing in the JSON text
    is [None]. *)
Record Payload : Type := {
  p_id : string;
  p_command : string;
  p_max_retries : option Z;
  p_priority : option Z
}.

Module Dlq.
Record row : Type := {
  id : string;
  job_id : string;
  payload : Payload;
  dead_at : Timestamp
}.
End Dlq.

Module WorkerRow.
Record row : Type := {
  id : string;
  pid : Z;
  started_at : Timestamp;
  heartbeat_at : Timestamp
}.
End WorkerRow.

Record DB : Type := {
  jobs : list Job.row;
  dlq : list Dlq.row;
  config : gmap string string;
  workers : list WorkerRow.row
}.

Definition empty_db : DB :=
  {| jobs := []; dlq := []; config := ∅; workers := [] |}.

(** ** SQL statements used by the source *)

(** [SELECT <ordering column> ... ORDER BY <order> LIMIT 1]: a row that no
    other row precedes in the requested order; [before a b] says that [a]
    sorts strictly before [b].  Rows that tie agree on the ordering column,
    so it does not matter which of them this is; the first in table order
    is taken. *)
Fixpoint order_by_limit_1 {A : Type} (before : A → A → bool) (rows : list A)
  : option A :=
  match rows with
  | [] => None
  | r :: rest =>
      match order_by_limit_1 before rest with
      | Some b => if before b r then Some b else Some r
      | None => Some r
      end
  end.

(** The rows that no row precedes in the requested order. *)
Definition first_rows {A : Type} (before : A → A → bool) (rows : list A)
  : list A :=
  List.filter (λ r, forallb (λ y, negb (before y r)) rows) rows.

(** [SELECT * ... ORDER BY <order> LIMIT 1]: one of the rows that no row
    precedes in the requested order.  SQL leaves open which of several such
    rows is returned; [tie] stands for the choice the engine makes. *)
Definition order_by_limit_1_tie {A : Type} (before : A → A → bool)
    (tie : nat) (rows : list A) : option A :=
  let firsts := first_rows before rows in
  firsts !! (tie mod length firsts)%nat.

(** [UPDATE jobs SET <set> WHERE <where>]: the new table and the number of
    rows the statement changed. *)
Definition sql_update (where_ : Job.row → bool) (set_ : Job.row → Job.row)
    (rows : list Job.row) : list Job.row * nat :=
  (map (λ r, if where_ r then set_ r else r) rows,
   length (List.filter where_ rows)).

(** [INSERT INTO jobs ...]: [id] is the PRIMARY KEY. *)
Definition insert_job (r : Job.row) (rows : list Job.row)
  : Result (list Job.row) :=
  if existsb (λ x, bool_decide (Job.id x = Job.id r)) rows
  then Throw "UNIQUE constraint failed: jobs.id"
  else Ok (rows ++ [r]).

(** [INSERT INTO dlq ...]: [id] is the PRIMARY KEY. *)
Definition insert_dlq (d : Dlq.row) (rows : list Dlq.row)
  : Result (list Dlq.row) :=
  if existsb (λ x, bool_decide (Dlq.id x = Dlq.id d)) rows
  then Throw "UNIQUE constraint failed: dlq.id"
  else Ok (rows ++ [d]).

(** ** src/config.js *)

Module Config.

(** What [get] can return: a string, [null], or a member inherited from
    [Object.prototype] (a function or the prototype object itself). *)
Inductive value : Type :=
| Str (s : string)
| Null
| Inherited.

(** The own property names of [Object.prototype]: [DEFAULTS[key]] finds
    them through the prototype chain of the object literal. *)
Definition object_prototype_keys : list string :=
  [ "constructor"; "__defineGetter__"; "__defineSetter__"; "hasOwnProperty";
    "__lookupGetter__"; "__lookupSetter__"; "isPrototypeOf";
    "propertyIsEnumerable"; "toString"; "valueOf"; "__proto__";
    "toLocaleString" ]%string.

(** [DEFAULTS[key] ?? null] *)
Definition DEFAULTS (key : string) : value :=
  if bool_decide (key = "max_retries"%string) then Str "3"
  else if bool_decide (key = "backoff_base"%string) then Str "2"
  else if bool_decide (key ∈ object_prototype_keys) then Inherited
  else Null.

(** [get(key)]: the stored value, else the default, else null. *)
Definition get (db : DB) (key : string) : value :=
  match config db !! key with
  | Some v => Str v
  | None => DEFAULTS key
  end.

(** [set(key, value)]: INSERT OR REPLACE by key. *)
Definition set (db : DB) (key val : string) : DB :=
  {| jobs := jobs db; dlq := dlq db;
     config := <[key := val]> (config db);
     workers := workers db |}.

(** [getInt(key)]: [parseInt(val ?? '0', 10)].  An inherited member is
    converted to its source text (["function ..."] or
    ["[object Object]"]), which has no leading digits. *)
Definition getInt (db : DB) (key : string) : JsNumber :=
  match get db key with
  | Str s => parseInt s
  | Null => parseInt "0"
  | Inherited => NaN
  end.

End Config.

(** ** src/queue.js *)

Module Queue.

(** The [run_at] property of the object passed to [enqueue]: one of the
    falsy JavaScript values (a missing property, [null], the empty string,
    a zero, [false], [NaN]) or a text, which [enqueue] stores as it is. *)
Inductive run_at_arg : Type :=
| Missing
| IsNull
| EmptyText
| Zero
| IsFalse
| IsNaN
| At (text : string).

(** The job object handed to [enqueue]; [None] is a missing or [null]
    property. *)
Record job_arg : Type := {
  id : option string;
  command : option string;
  max_retries : option Z;
  priority : option Z;
  run_at : run_at_arg
}.

(** [job.run_at || null] *)
Definition run_at_or_null (a : run_at_arg) : option string :=
  match a with
  | At text => if bool_decide (text = ""%string) then None else Some text
  | Missing | IsNull | EmptyText | Zero | IsFalse | IsNaN => None
  end.

(** [job.id || `job_${nanoid(8)}`]; the empty string is falsy. *)
Definition id_or_generated (a : option string) (nanoid : string) : string :=
  match a with
  | Some s => if bool_decide (s = ""%string) then "job_" +:+ nanoid else s
  | None => "job_" +:+ nanoid
  end.

(** [enqueue(job)]; [nanoid] is the random suffix drawn by [nanoid(8)] and
    [now] the reading of [nowISO()].  A job without a command cannot be
    bound to the NOT NULL column. *)
Definition enqueue (db : DB) (job : job_arg) (nanoid : string) (now : Timestamp)
  : Result (DB * string) :=
  let id := id_or_generated (id job) nanoid in
  let created := now in
  let maxRetries := default 3 (max_retries job) in
  let priority := default 0 (priority job) in
  match command job with
  | None => Throw "NOT NULL constraint failed: jobs.command"
  | Some cmd =>
      match
        insert_job
          {| Job.id := id; Job.command := cmd; Job.state := pending;
             Job.attempts := 0; Job.max_retries := maxRetries;
             Job.created_at := created; Job.updated_at := created;
             Job.run_at := run_at_or_null (run_at job);
             Job.last_error := None; Job.priority := priority;
             Job.locked_by := None; Job.lock_until := None |}
          (jobs db)
      with
      | Ok jobs' =>
          Ok ({| jobs := jobs'; dlq := dlq db; config := config db;
                 workers := workers db |}, id)
      | Throw msg => Throw msg
      end
  end.

(** The object [map] of [status]: one counter per state name. *)
Record counters : Type := {
  pending_ : nat;
  processing_ : nat;
  completed_ : nat;
  failed_ : nat;
  dead_ : nat
}.

(** [{ ...map, active_workers, oldest_pending }] *)
Record status_result : Type := {
  counts : counters;
  active_workers : nat;
  oldest_pending : option Timestamp
}.

(** [map[state] = cnt] *)
Definition put (s : JobState) (cnt : nat) (m : counters) : counters :=
  match s with
  | pending =>
      {| pending_ := cnt; processing_ := processing_ m;
         completed_ := completed_ m; failed_ := failed_ m; dead_ := dead_ m |}
  | processing =>
      {| pending_ := pending_ m; processing_ := cnt;
         completed_ := completed_ m; failed_ := failed_ m; dead_ := dead_ m |}
  | completed =>
      {| pending_ := pending_ m; processing_ := processing_ m;
         completed_ := cnt; failed_ := failed_ m; dead_ := dead_ m |}
  | failed =>
      {| pending_ := pending_ m; processing_ := processing_ m;
         completed_ := completed_ m; failed_ := cnt; dead_ := dead_ m |}
  | dead =>
      {| pending_ := pending_ m; processing_ := processing_ m;
         completed_ := completed_ m; failed_ := failed_ m; dead_ := cnt |}
  end.

(** [map[name]] *)
Definition get_count (s : JobState) (m : counters) : nat :=
  match s with
  | pending => pending_ m
  | processing => processing_ m
  | completed => completed_ m
  | failed => failed_ m
  | dead => dead_ m
  end.

(** [SELECT state, COUNT( * ) as cnt FROM jobs GROUP BY state]: one row per
    state that occurs in the table, in the order of the state names. *)
Definition group_by_state (rows : list Job.row) : list (JobState * nat) :=
  List.filter (λ g, negb (Nat.eqb (snd g) 0))
    (map (λ s,
            (s, length (List.filter (λ r, bool_decide (Job.state r = s)) rows)))
         [completed; dead; failed; pending; processing]).

(** [status()], read at clock [now]. *)
Definition status (db : DB) (now : Timestamp) : status_result :=
  let counts := group_by_state (jobs db) in
  let map0 :=
    {| pending_ := 0; processing_ := 0; completed_ := 0; failed_ := 0;
       dead_ := 0 |}%nat in
  let map := fold_left (λ m r, put (fst r) (snd r) m) counts map0 in
  let tenSecondsAgo := now - 10000 in
  let allWorkers := List.map WorkerRow.heartbeat_at (workers db) in
  let activeWorkersCount :=
    length (List.filter (λ h, tenSecondsAgo <=? h) allWorkers) in
  let oldestPending :=
    order_by_limit_1
      (λ a b, Job.created_at a <? Job.created_at b)
      (List.filter (λ r, bool_decide (Job.state r = pending)) (jobs db)) in
  {| counts := map;
     active_workers := activeWorkersCount;
     oldest_pending := Job.created_at <$> oldestPending |}.

(** [dlqRetry(id)], with [now] the reading of [nowISO()].  The DELETE and
    the INSERT run in one transaction: when the INSERT fails nothing is
    deleted. *)
Definition dlqRetry (db : DB) (id : string) (now : Timestamp)
  : Result (DB * string) :=
  match List.find (λ d, bool_decide (Dlq.id d = id)) (dlq db) with
  | None => Throw ("DLQ item not found: " +:+ id)
  | Some row =>
      let payload := Dlq.payload row in
      let dlq' :=
        List.filter (λ d, negb (bool_decide (Dlq.id d = id))) (dlq db) in
      match
        insert_job
          {| Job.id := p_id payload; Job.command := p_command payload;
             Job.state := pending; Job.attempts := 0;
             Job.max_retries := default 3 (p_max_retries payload);
             Job.created_at := now; Job.updated_at := now;
             Job.run_at := None; Job.last_error := None;
             Job.priority := default 0 (p_priority payload);
             Job.locked_by := None; Job.lock_until := None |}
          (jobs db)
      with
      | Ok jobs' =>
          Ok ({| jobs := jobs'; dlq := dlq'; config := config db;
                 workers := workers db |}, p_id payload)
      | Throw msg => Throw msg
      end
  end.

End Queue.

(** ** src/worker.js *)

Module Worker.

(** [err.code] of a rejected [exec]: an exit status or an error name. *)
Inductive js_code : Type :=
| CodeNum (n : Z)
| CodeStr (s : string).

(** How the promise of [execAsync(command, { timeout: 30000 })] settles. *)
Inductive exec_outcome : Type :=
| Resolved (stdout stderr : string)
| Rejected (message : string) (stderr : option string) (code : option js_code).

(** The object returned by [executeCommand]. *)
Inductive exec_result : Type :=
| Succeeded (stdout stderr : string)
| Failed (error stderr : string) (code : js_code).

(** [err.code || 1]: a missing code, [0] and the empty string are falsy. *)
Definition code_or_1 (c : option js_code) : js_code :=
  match c with
  | Some (CodeNum n) => if n =? 0 then CodeNum 1 else CodeNum n
  | Some (CodeStr s) => if bool_decide (s = ""%string) then CodeNum 1 else CodeStr s
  | None => CodeNum 1
  end.

(** [executeCommand(command)], given how the child process ended. *)
Definition executeCommand (o : exec_outcome) : exec_result :=
  match o with
  | Resolved stdout stderr => Succeeded stdout stderr
  | Rejected message stderr code =>
      Failed message (default ""%string stderr) (code_or_1 code)
  end.

Definition code_text (c : js_code) : string :=
  match c with
  | CodeNum n => string_of_Z n
  | CodeStr s => s
  end.

(** [`exit=${res.code}: ${(res.error || res.stderr || '').slice(0,200)}`] *)
Definition failure_text (error stderr : string) (code : js_code) : string :=
  "exit=" +:+ code_text code +:+ ": " +:+
  substring 0 200 (if bool_decide (error = ""%string) then stderr else error).

(** [heartbeat(db)]: INSERT OR REPLACE keyed by the worker id, keeping the
    [started_at] of an existing row. *)
Definition heartbeat (db : DB) (WORKER_ID : string) (pid : Z) (now : Timestamp)
  : DB :=
  let started :=
    match
      List.find (λ w, bool_decide (WorkerRow.id w = WORKER_ID)) (workers db)
    with
    | Some w => WorkerRow.started_at w
    | None => now
    end in
  {| jobs := jobs db; dlq := dlq db; config := config db;
     workers :=
       List.filter (λ w, negb (bool_decide (WorkerRow.id w = WORKER_ID)))
         (workers db)
       ++ [ {| WorkerRow.id := WORKER_ID; WorkerRow.pid := pid;
               WorkerRow.started_at := started;
               WorkerRow.heartbeat_at := now |} ] |}.

(** [SET lock_until = ?], bound to the rendering of [extend]. *)
Definition set_lock_until (extend : Timestamp) (r : Job.row) : Job.row :=
  {| Job.id := Job.id r; Job.command := Job.command r;
     Job.state := Job.state r; Job.attempts := Job.attempts r;
     Job.max_retries := Job.max_retries r;
     Job.created_at := Job.created_at r; Job.updated_at := Job.updated_at r;
     Job.run_at := Job.run_at r; Job.last_error := Job.last_error r;
     Job.priority := Job.priority r; Job.locked_by := Job.locked_by r;
     Job.lock_until := Some (Util.toISOString extend) |}.

(** [refreshLock(db)]: [currentJob] is the job being processed, if any.
    [UPDATE jobs SET lock_until = ? WHERE id = ? AND locked_by = ?] *)
Definition refreshLock (db : DB) (WORKER_ID : string)
    (currentJob : option Job.row) (now : Timestamp) : DB :=
  match currentJob with
  | None => db
  | Some job =>
      let extend := Util.addSeconds now 60 in
      {| jobs :=
           fst (sql_update
                  (λ r, bool_decide (Job.id r = Job.id job)
                        && bool_decide (Job.locked_by r = Some WORKER_ID))
                  (set_lock_until extend) (jobs db));
         dlq := dlq db; config := config db; workers := workers db |}
  end.

(** [state IN ('pending','failed') AND (run_at IS NULL OR run_at <= ?)
     AND (lock_until IS NULL OR lock_until <= ?)], both parameters bound to
    the rendering of [now]. *)
Definition claimable (now : Timestamp) (r : Job.row) : bool :=
  (bool_decide (Job.state r = pending) || bool_decide (Job.state r = failed))
  && match Job.run_at r with None => true | Some t => Util.text_le t now end
  && match Job.lock_until r with
     | None => true
     | Some t => Util.text_le t now
     end.

(** [ORDER BY priority DESC, created_at ASC] *)
Definition claim_order (a b : Job.row) : bool :=
  (Job.priority b <? Job.priority a)
  || ((Job.priority a =? Job.priority b)
      && (Job.created_at a <? Job.created_at b)).

(** The scalar subquery of the claim:
    [SELECT id FROM jobs WHERE ... ORDER BY ... LIMIT 1]. *)
Definition select_claimable (rows : list Job.row) (now : Timestamp)
    (tie : nat) : option Job.row :=
  order_by_limit_1_tie claim_order tie (List.filter (claimable now) rows).

(** [SET state = 'processing', locked_by = ?, lock_until = ?,
     attempts = attempts + 1, updated_at = ?]; [lock_until] is bound to the
    rendering of [lockUntil]. *)
Definition set_claimed (WORKER_ID : string) (lockUntil now : Timestamp)
    (r : Job.row) : Job.row :=
  {| Job.id := Job.id r; Job.command := Job.command r;
     Job.state := processing; Job.attempts := Job.attempts r + 1;
     Job.max_retries := Job.max_retries r;
     Job.created_at := Job.created_at r; Job.updated_at := now;
     Job.run_at := Job.run_at r; Job.last_error := Job.last_error r;
     Job.priority := Job.priority r; Job.locked_by := Some WORKER_ID;
     Job.lock_until := Some (Util.toISOString lockUntil) |}.

(** [SELECT * FROM jobs WHERE locked_by = ? AND state = 'processing'
     ORDER BY updated_at DESC LIMIT 1] *)
Definition reread (rows : list Job.row) (WORKER_ID : string) (tie : nat)
  : option Job.row :=
  order_by_limit_1_tie
    (λ a b, Job.updated_at b <? Job.updated_at a) tie
    (List.filter
       (λ r, bool_decide (Job.locked_by r = Some WORKER_ID)
             && bool_decide (Job.state r = processing))
       rows).

(** [claimJob(db)], with [now] the reading of [nowISO()]: the new database
    and the returned job (or [null]).  When the subquery finds no row its
    value is NULL and [id = NULL] selects nothing.  [tie] and [tie'] are the
    choices of the engine in the two [LIMIT 1] queries. *)
Definition claimJob (db : DB) (WORKER_ID : string) (now : Timestamp)
    (tie tie' : nat) : DB * option Job.row :=
  let lockUntil := Util.addSeconds now 60 in
  let target := Job.id <$> select_claimable (jobs db) now tie in
  let upd :=
    sql_update
      (λ r, match target with
            | Some i => bool_decide (Job.id r = i)
            | None => false
            end)
      (set_claimed WORKER_ID lockUntil now) (jobs db) in
  let db' :=
    {| jobs := fst upd; dlq := dlq db; config := config db;
       workers := workers db |} in
  if Nat.eqb (snd upd) 0 then (db', None)
  else (db', reread (jobs db') WORKER_ID tie').

(** [SET state = 'completed', updated_at = ?, locked_by = NULL,
     lock_until = NULL, last_error = NULL] *)
Definition set_completed (now : Timestamp) (r : Job.row) : Job.row :=
  {| Job.id := Job.id r; Job.command := Job.command r;
     Job.state := completed; Job.attempts := Job.attempts r;
     Job.max_retries := Job.max_retries r;
     Job.created_at := Job.created_at r; Job.updated_at := now;
     Job.run_at := Job.run_at r; Job.last_error := None;
     Job.priority := Job.priority r; Job.locked_by := None;
     Job.lock_until := None |}.

(** [SET state = 'failed', attempts = ?, run_at = ?, updated_at = ?,
     last_error = ?, locked_by = NULL, lock_until = ?]; [run_at] and
    [lock_until] are bound to the rendering of [runAt]. *)
Definition set_failed (attemptsNow : Z) (runAt now : Timestamp)
    (err : string) (r : Job.row) : Job.row :=
  {| Job.id := Job.id r; Job.command := Job.command r;
     Job.state := failed; Job.attempts := attemptsNow;
     Job.max_retries := Job.max_retries r;
     Job.created_at := Job.created_at r; Job.updated_at := now;
     Job.run_at := Some (Util.toISOString runAt);
     Job.last_error := Some err;
     Job.priority := Job.priority r; Job.locked_by := None;
     Job.lock_until := Some (Util.toISOString runAt) |}.

(** [SET state = 'dead', updated_at = ?, locked_by = NULL,
     lock_until = NULL, last_error = ?] *)
Definition set_dead (deadAt : Timestamp) (err : string) (r : Job.row)
  : Job.row :=
  {| Job.id := Job.id r; Job.command := Job.command r;
     Job.state := dead; Job.attempts := Job.attempts r;
     Job.max_retries := Job.max_retries r;
     Job.created_at := Job.created_at r; Job.updated_at := deadAt;
     Job.run_at := Job.run_at r; Job.last_error := Some err;
     Job.priority := Job.priority r; Job.locked_by := None;
     Job.lock_until := None |}.

(** [UPDATE jobs SET ... WHERE id = ?] *)
Definition update_by_id (id : string) (set_ : Job.row → Job.row)
    (rows : list Job.row) : list Job.row :=
  fst (sql_update (λ r, bool_decide (Job.id r = id)) set_ rows).

(** [JSON.stringify({ id, command, max_retries, priority })] of a job row;
    the columns are NOT NULL. *)
Definition snapshot (job : Job.row) : Payload :=
  {| p_id := Job.id job; p_command := Job.command job;
     p_max_retries := Some (Job.max_retries job);
     p_priority := Some (Job.priority job) |}.

(** [processJob(db, job)] up to the start of the command:
    [const base = await getInt('backoff_base') || 2]. *)
Definition read_base (db : DB) : Z :=
  num_or (Config.getInt db "backoff_base") 2.

(** [processJob(db, job)] from the point where the command has ended with
    [res]: [base] is the value read before the command was started, [db] the
    database as it is now, [now] and [deadAt] the two readings of
    [nowISO()].  [job] is the row object returned by [claimJob], whose
    [max_retries] is never [null], so [job.max_retries ?? 3] is the column
    value.  When the instant of the retry is no valid time value,
    [addSeconds] throws a RangeError before any statement has run. *)
Definition processJob (db : DB) (job : Job.row) (base : Z) (res : exec_result)
    (now deadAt : Timestamp) : Result DB :=
  let maxRetries := Job.max_retries job in
  let attemptsNow := if Job.attempts job =? 0 then 1 else Job.attempts job in
  match res with
  | Succeeded _ _ =>
      Ok {| jobs := update_by_id (Job.id job) (set_completed now) (jobs db);
            dlq := dlq db; config := config db; workers := workers db |}
  | Failed error stderr code =>
      if attemptsNow <? maxRetries then
        let delay := Util.backoff base attemptsNow in
        let runAt := Util.addSeconds now delay in
        if Util.valid_time runAt then
          Ok {| jobs :=
                  update_by_id (Job.id job)
                    (set_failed attemptsNow runAt now
                       (failure_text error stderr code))
                    (jobs db);
                dlq := dlq db; config := config db; workers := workers db |}
        else Throw "Invalid time value"
      else
        let payload := snapshot job in
        match
          insert_dlq
            {| Dlq.id := "dlq_" +:+ Job.id job; Dlq.job_id := Job.id job;
               Dlq.payload := payload; Dlq.dead_at := deadAt |}
            (dlq db)
        with
        | Ok dlq' =>
            Ok {| jobs :=
                    update_by_id (Job.id job)
                      (set_dead deadAt (failure_text error stderr code))
                      (jobs db);
                  dlq := dlq'; config := config db; workers := workers db |}
        | Throw msg => Throw msg
        end
  end.

End Worker.

(** ** The queue as a transition system

    The shared database; for every worker process that is inside
    [processJob] (keyed by its [WORKER_ID]) its [currentJob] and the [base]
    it has read; and a ghost set: the ids of the job rows that a claim has
    updated since the row was inserted. *)

Record System : Type := {
  db_of : DB;
  currentJob : gmap string (Job.row * Z);
  claimed : gset string
}.

Definition initial : System :=
  {| db_of := empty_db; currentJob := ∅; claimed := ∅ |}.

(** The calls that act on the system. *)
Inductive call : Type :=
| Enqueue (job : Queue.job_arg) (nanoid : string) (now : Timestamp)
| Claim (worker : string) (now : Timestamp) (tie tie' : nat)
| RefreshLock (worker : string) (now : Timestamp)
| Resolve (worker : string) (o : Worker.exec_outcome) (now deadAt : Timestamp)
| Crash (worker : string)
| DlqRetry (id : string) (now : Timestamp)
| Heartbeat (worker : string) (pid : Z) (now : Timestamp)
| ConfigSet (key val : string).

(** One call.
    - [Enqueue], [DlqRetry]: the call of the Queue API; a thrown error
      leaves the database as it was.
    - [Claim]: the worker loop calls [claimJob] only between two jobs, with
      the engine's choices [tie] and [tie'] among rows that tie; with
      the returned row it enters [processJob], which sets [currentJob] and
      reads [base].  A [config set] that falls between the claim and that
      read has the same effect as one that precedes the claim, which does
      not read the config table; so [base] is read here.
    - [RefreshLock]: a tick of the refresher timer.
    - [Resolve]: the part of [processJob] after the command has ended; the
      [finally] block resets [currentJob] whether or not a statement threw.
    - [Crash]: the worker stops (or [processJob] throws) before it writes an
      outcome.
    - [Heartbeat], [ConfigSet]: the liveness write and [config set]. *)
Definition exec (s : System) (c : call) : System :=
  match c with
  | Enqueue job nanoid now =>
      {| db_of :=
           after (db_of s)
             (match Queue.enqueue (db_of s) job nanoid now with
              | Ok (db', _) => Ok db'
              | Throw msg => Throw msg
              end);
         currentJob := currentJob s; claimed := claimed s |}
  | Claim w now tie tie' =>
      match currentJob s !! w with
      | Some _ => s
      | None =>
          let r := Worker.claimJob (db_of s) w now tie tie' in
          {| db_of := fst r;
             currentJob :=
               match snd r with
               | Some job =>
                   <[w := (job, Worker.read_base (fst r))]> (currentJob s)
               | None => currentJob s
               end;
             claimed :=
               match Worker.select_claimable (jobs (db_of s)) now tie with
               | Some picked => {[Job.id picked]} ∪ claimed s
               | None => claimed s
               end |}
      end
  | RefreshLock w now =>
      {| db_of :=
           Worker.refreshLock (db_of s) w (fst <$> currentJob s !! w) now;
         currentJob := currentJob s; claimed := claimed s |}
  | Resolve w o now deadAt =>
      match currentJob s !! w with
      | None => s
      | Some (job, base) =>
          {| db_of :=
               after (db_of s)
                 (Worker.processJob (db_of s) job base
                    (Worker.executeCommand o) now deadAt);
             currentJob := delete w (currentJob s);
             claimed := claimed s |}
      end
  | Crash w =>
      {| db_of := db_of s; currentJob := delete w (currentJob s);
         claimed := claimed s |}
  | DlqRetry id now =>
      match Queue.dlqRetry (db_of s) id now with
      | Ok (db', job_id) =>
          {| db_of := db'; currentJob := currentJob s;
             claimed := claimed s ∖ {[job_id]} |}
      | Throw _ => s
      end
  | Heartbeat w pid now =>
      {| db_of := Worker.heartbeat (db_of s) w pid now;
         currentJob := currentJob s; claimed := claimed s |}
  | ConfigSet key val =>
      {| db_of := Config.set (db_of s) key val;
         currentJob := currentJob s; claimed := claimed s |}
  end.

(** The states the system can be in. *)
Inductive reachable : System → Prop :=
| reachable_initial : reachable initial
| reachable_exec s c : reachable s → reachable (exec s c).

(** The state after a sequence of calls. *)
Definition run (calls : list call) : System := fold_left exec calls initial.

(** The columns no UPDATE of the source assigns. *)
Definition fixed_columns (r : Job.row)
  : string * string * Z * Z * Timestamp :=
  (Job.id r, Job.command r, Job.priority r, Job.max_retries r,
   Job.created_at r).

(** ** Declarative notions used in the statements *)


(** Decimal numerals: the character of a digit, the text of a digit
    sequence and its value; the optional sign of a numeral. *)
Definition digit_char (d : Z) : ascii := ascii_of_nat (48 + Z.to_nat d).

Definition digits_text (ds : list Z) : string :=
  string_of_list_ascii (List.map digit_char ds).


Inductive sign : Type :=
| NoSign
| Plus
| Minus.

Definition sign_text (sg : sign) : string :=
  match sg with NoSign => "" | Plus => "+" | Minus => "-" end.



(** The selection predicate of the claim: state is 'pending' or 'failed',
    [run_at] is null or [<= now], [lock_until] is null or [<= now]; [<=] is
    the comparison SQLite makes between the stored text and the rendering
    of the clock reading. *)
Definition selection_predicate (now : Timestamp) (r : Job.row) : Prop :=
  (Job.state r = pending ∨ Job.state r = failed)
  ∧ (∀ t, Job.run_at r = Some t →
          String.leb t (Util.toISOString now) = true)
  ∧ (∀ t, Job.lock_until r = Some t →
          String.leb t (Util.toISOString now) = true).

(** An integer that a Number holds exactly and that is written and read
    back as its decimal numeral. *)
Definition safe_integer (n : Z) : Prop := Z.abs n ≤ 2 ^ 53.





(** ** The order of rendered instants *)

(** The instants that [toISOString] renders with a four-digit year:
    0000-01-01T00:00:00.000Z to 9999-12-31T23:59:59.999Z. *)
Definition four_digit_year (t : Z) : Prop :=
  -62167219200000 ≤ t ≤ 253402300799999.

(** Lexicographic order on lists of integers of one length. *)
Fixpoint lex_lt (k l : list Z) : Prop :=
  match k, l with
  | x :: k', y :: l' => x < y ∨ (x = y ∧ lex_lt k' l')
  | _, _ => False
  end.

(** The year of the day [doe] of a 400-year era, as [civil_of_era_day]
    computes it, and the first day of a year of the era. *)
Definition year_of_era (doe : Z) : Z :=
  (doe - doe / 1460 + doe / 36524 - doe / 146096) / 365.

Definition year_start (y : Z) : Z := 365 * y + y / 4 - y / 100.

(** The falsy values of [job.run_at]. *)
Definition falsy (a : Queue.run_at_arg) : bool :=
  match a with
  | Queue.At _ => false
  | _ => true
  end.

(** The job object with its [run_at] property removed. *)
Definition without_run_at (job : Queue.job_arg) : Queue.job_arg :=
  {| Queue.id := Queue.id job; Queue.command := Queue.command job;
     Queue.max_retries := Queue.max_retries job;
     Queue.priority := Queue.priority job; Queue.run_at := Queue.Missing |}.

(** The number of job rows in state [s]. *)
Definition rows_in_state (s : JobState) (rows : list Job.row) : nat :=
  length (List.filter (λ r, bool_decide (Job.state r = s)) rows).

(** The lease columns as the spec states them (§3): a [processing] row has
    both, every other row has neither. *)
Definition lease_as_specified (r : Job.row) : Prop :=
  (Job.state r = processing →
   Job.locked_by r ≠ None ∧ Job.lock_until r ≠ None)
  ∧ (Job.state r ≠ processing →
     Job.locked_by r = None ∧ Job.lock_until r = None).

(** ** Invariants of the reachable states *)

(** The lease columns as the code keeps them: a [failed] row has no owner
    but carries [lock_until = run_at], the instant of its retry. *)
Definition lease_ok (r : Job.row) : Prop :=
  match Job.state r with
  | processing => Job.locked_by r ≠ None ∧ Job.lock_until r ≠ None
  | failed =>
      Job.locked_by r = None ∧ Job.lock_until r ≠ None
      ∧ Job.lock_until r = Job.run_at r
  | pending | completed | dead =>
      Job.locked_by r = None ∧ Job.lock_until r = None
  end.

(** What the attempts counter of a row says, given the ids claimed so far. *)
Definition attempts_ok (claimed_ids : gset string) (r : Job.row) : Prop :=
  (Job.id r ∉ claimed_ids → Job.state r = pending ∧ Job.attempts r = 0)
  ∧ (Job.id r ∈ claimed_ids → Job.state r ≠ pending ∧ 1 ≤ Job.attempts r)
  ∧ (Job.state r = failed → Job.attempts r < Job.max_retries r)
  ∧ (0 ≤ Job.max_retries r → Job.attempts r ≤ Job.max_retries r + 1).

(** The job object [j] that worker [w] is processing mirrors a row of the
    table: that row is [processing], locked by [w], and agrees with [j] on
    every column the outcome resolution reads. *)
Definition holds_in (rows : list Job.row) (w : string) (j : Job.row) : Prop :=
  ∃ r, r ∈ rows
       ∧ Job.state r = processing ∧ Job.locked_by r = Some w
       ∧ Job.attempts r = Job.attempts j
       ∧ fixed_columns r = fixed_columns j.

(** A DLQ row is named after its job, carries the job's snapshot, and the
    job row is still in the table, in state [dead]. *)
Definition dlq_ok_in (rows : list Job.row) (d : Dlq.row) : Prop :=
  Dlq.id d = ("dlq_" +:+ Dlq.job_id d)%string
  ∧ ∃ r, r ∈ rows ∧ Job.state r = dead ∧ Job.id r = Dlq.job_id d
         ∧ Dlq.payload d = Worker.snapshot r.

Record invariant (s : System) : Prop := {
  inv_ids : NoDup (Job.id <$> jobs (db_of s));
  inv_claimed : ∀ i, i ∈ claimed s → i ∈ (Job.id <$> jobs (db_of s));
  inv_rows : ∀ r, r ∈ jobs (db_of s) → lease_ok r ∧ attempts_ok (claimed s) r;
  inv_current : ∀ w j b, currentJob s !! w = Some (j, b) →
                         holds_in (jobs (db_of s)) w j;
  inv_dlq : ∀ d, d ∈ dlq (db_of s) → dlq_ok_in (jobs (db_of s)) d
}.

(** The four clauses of [attempts_ok] on a row whose columns are known. *)
Ltac solve_attempts :=
  unfold attempts_ok; simpl; split_and!; try done;
  intros; try split; try discriminate; try lia.

(** ** Databases and runs used in examples *)


(** [enqueue({ id: 'j1', command: 'echo ok', run_at: '' })]. *)
Definition job_empty_run_at : Queue.job_arg :=
  {| Queue.id := Some "j1"%string; Queue.command := Some "echo ok"%string;
     Queue.max_retries := None; Queue.priority := None;
     Queue.run_at := Queue.EmptyText |}.

(** One worker whose last heartbeat was written at instant 0. *)
Definition db_one_worker : DB :=
  {| jobs := []; dlq := []; config := ∅;
     workers := [ {| WorkerRow.id := "worker_a"; WorkerRow.pid := 4242;
                     WorkerRow.started_at := 0;
                     WorkerRow.heartbeat_at := 0 |} ] |}.

(** A job row with the given id, state, lock owner and [updated_at]; the
    other columns as [enqueue] sets them at instant 500. *)
Definition sample_row (id : string) (s : JobState) (n : Z)
    (owner : option string) (lock : option Timestamp) (updated : Timestamp)
  : Job.row :=
  {| Job.id := id; Job.command := "echo ok"; Job.state := s;
     Job.attempts := n; Job.max_retries := 3; Job.created_at := 500;
     Job.updated_at := updated; Job.run_at := None; Job.last_error := None;
     Job.priority := 0; Job.locked_by := owner;
     Job.lock_until := Util.toISOString <$> lock |}.

(** Worker [worker_a] still owns the [processing] row [a], last updated at
    instant 30000; row [b] is [pending]. *)
Definition db_stale_lock : DB :=
  {| jobs := [ sample_row "a" processing 1 (Some "worker_a"%string)
                 (Some 90000) 30000;
               sample_row "b" pending 0 None None 500 ];
     dlq := []; config := ∅; workers := [] |}.

(** [enqueue({ id: 't2', command: 'exit 1', max_retries: n })]. *)
Definition job_t2 (n : Z) : Queue.job_arg :=
  {| Queue.id := Some "t2"%string; Queue.command := Some "exit 1"%string;
     Queue.max_retries := Some n; Queue.priority := None;
     Queue.run_at := Queue.Missing |}.

(** The command ended with exit status 1 and an empty stderr. *)
Definition exit_1 : Worker.exec_outcome :=
  Worker.Rejected "Command failed: exit 1" (Some ""%string)
    (Some (Worker.CodeNum 1)).

(** Job [t2] with two attempts allowed has been claimed by [worker_a]. *)
Definition run_claimed : list call :=
  [ Enqueue (job_t2 2) "V1StGXR8" 1000; Claim "worker_a" 2000 0 0 ].

(** ... and its first attempt has failed. *)
Definition run_retry : list call :=
  run_claimed ++ [ Resolve "worker_a" exit_1 3000 3001 ].

(** Job [t2] with one attempt allowed: its first failure is dead-lettered. *)
Definition run_dead : list call :=
  [ Enqueue (job_t2 1) "V1StGXR8" 1000; Claim "worker_a" 2000 0 0;
    Resolve "worker_a" exit_1 3000 3001 ].


(** [config set backoff_base 1000000000000]; job [t2] with two attempts
    allowed is enqueued, claimed by [worker_a] and fails. *)
Definition run_far_retry : list call :=
  [ ConfigSet "backoff_base" "1000000000000";
    Enqueue (job_t2 2) "V1StGXR8" 1000; Claim "worker_a" 2000 0 0;
    Resolve "worker_a" exit_1 3000 3001 ].

(** [enqueue({ id: 'neg', command: 'true', max_retries: -5 })]: [enqueue]
    stores whatever number it is given. *)
Definition run_negative_budget : list call :=
  [ Enqueue {| Queue.id := Some "neg"%string;
               Queue.command := Some "true"%string;
               Queue.max_retries := Some (-5); Queue.priority := None;
               Queue.run_at := Queue.Missing |} "V1StGXR8" 1000 ].

(** ** src/queue.js: the listings *)

(** [ORDER BY <order>]: the rows sorted; [before a b] says that [a] sorts
    strictly before [b].  Rows that tie are listed in table order here; SQL
    leaves their order to the engine, and the statements about listings
    below do not depend on it. *)
Fixpoint insert_ordered {A : Type} (before : A → A → bool) (x : A)
    (sorted : list A) : list A :=
  match sorted with
  | [] => [x]
  | y :: rest =>
      if before y x then y :: insert_ordered before x rest else x :: sorted
  end.

Definition order_by {A : Type} (before : A → A → bool) (rows : list A)
  : list A :=
  foldr (insert_ordered before) [] rows.

(** The text stored in the [state] column. *)
Definition state_name (s : JobState) : string :=
  match s with
  | pending => "pending"
  | processing => "processing"
  | completed => "completed"
  | failed => "failed"
  | dead => "dead"
  end.

(** [dlqList()]: [SELECT * FROM dlq ORDER BY dead_at DESC]. *)
Definition dlqList (db : DB) : list Dlq.row :=
  order_by (λ a b, Dlq.dead_at b <? Dlq.dead_at a) (dlq db).

(** What [listByState] returns: rows of the dlq table for ['dead'], rows of
    the jobs table otherwise. *)
Inductive listing : Type :=
| DlqRows (rows : list Dlq.row)
| JobRows (rows : list Job.row).

(** [listByState(state)]: for ['dead'] the DLQ listing, otherwise
    [SELECT * FROM jobs WHERE state = ? ORDER BY created_at ASC]. *)
Definition listByState (db : DB) (state : string) : listing :=
  if bool_decide (state = "dead"%string) then
    DlqRows (order_by (λ a b, Dlq.dead_at b <? Dlq.dead_at a) (dlq db))
  else
    JobRows
      (order_by (λ a b, Job.created_at a <? Job.created_at b)
         (List.filter (λ r, bool_decide (state_name (Job.state r) = state))
            (jobs db))).

(** ** src/cli.js: config keys *)




(** ** src/worker-manager.js: the PID file

    The file [.workers.pid] is its text, or [None] when it does not exist.
    File-system errors, which the source swallows, are left out. *)

Module WorkerManager.

(** [data.split('\n')] *)
Fixpoint split_lines (data : string) : list string :=
  match data with
  | EmptyString => [EmptyString]
  | String c rest =>
      if bool_decide (c = "010"%char) then EmptyString :: split_lines rest
      else
        match split_lines rest with
        | line :: lines => String c line :: lines
        | [] => [String c EmptyString]
        end
  end.

(** [pid.trim()] is the empty string, which is falsy. *)
Fixpoint blank (line : string) : bool :=
  match line with
  | String c rest => is_space c && blank rest
  | EmptyString => true
  end.

(** [.filter(n => !Number.isNaN(n))] *)
Definition numbers (l : list JsNumber) : list Z :=
  flat_map (λ n, match n with Num z => [z] | NaN => [] end) l.

(** [loadWorkerPIDs()] *)
Definition loadWorkerPIDs (file : option string) : list Z :=
  match file with
  | None => []
  | Some data =>
      numbers
        (List.map parseInt
           (List.filter (λ pid, negb (blank pid)) (split_lines data)))
  end.

(** [pids.join('\n')] *)
Fixpoint join_lines (lines : list string) : string :=
  match lines with
  | [] => EmptyString
  | [line] => line
  | line :: rest => line +:+ String "010"%char (join_lines rest)
  end.

(** [saveWorkerPIDs(pids)]: the file after the call. *)
Definition saveWorkerPIDs (pids : list Z) (file : option string)
  : option string :=
  match pids with
  | [] => None
  | _ =>
      Some (join_lines (List.map string_of_Z pids)
            +:+ String "010"%char EmptyString)
  end.

(** [addWorkerPID(pid)] *)
Definition addWorkerPID (pid : Z) (file : option string) : option string :=
  let pids := loadWorkerPIDs file in
  if existsb (Z.eqb pid) pids then file
  else saveWorkerPIDs (pids ++ [pid]) file.

(** [removeWorkerPID(pid)] *)
Definition removeWorkerPID (pid : Z) (file : option string) : option string :=
  let pids :=
    List.filter (λ p, negb (Z.eqb p pid)) (loadWorkerPIDs file) in
  saveWorkerPIDs pids file.

(** [listWorkers()]: the returned PIDs and the file after the call;
    [alive pid] says that [process.kill(pid, 0)] does not throw. *)
Definition listWorkers (alive : Z → bool) (file : option string)
  : list Z * option string :=
  fold_left
    (λ acc pid,
       if alive pid then (fst acc ++ [pid], snd acc)
       else (fst acc, removeWorkerPID pid (snd acc)))
    (loadWorkerPIDs file) ([], file).

End WorkerManager.

(** ** The life of a job row *)

(** The five ways an UPDATE of the source rewrites a row, each with the
    DLQ rows inserted in the same transaction:
    - a claim takes a row that satisfies the claim predicate;
    - a lock refresh extends the lease of a [processing] row of its owner;
    - the three outcomes rewrite a [processing] row whose attempts count is
      at least 1: [completed]; [failed] when [attempts < max_retries];
      [dead], with its DLQ row, when [attempts >= max_retries].  The retry
      instant of a [failed] row is one that [toISOString] renders. *)
Inductive row_change : Job.row → Job.row → list Dlq.row → Prop :=
| change_claimed (r : Job.row) (w : string) (now : Timestamp) :
    Worker.claimable now r = true →
    row_change r (Worker.set_claimed w (Util.addSeconds now 60) now r) []
| change_refreshed (r : Job.row) (w : string) (extend : Timestamp) :
    Job.state r = processing → Job.locked_by r = Some w →
    row_change r (Worker.set_lock_until extend r) []
| change_completed (r : Job.row) (now : Timestamp) :
    Job.state r = processing → 1 ≤ Job.attempts r →
    row_change r (Worker.set_completed now r) []
| change_failed (r : Job.row) (runAt now : Timestamp) (err : string) :
    Job.state r = processing → 1 ≤ Job.attempts r →
    Job.attempts r < Job.max_retries r →
    Util.valid_time runAt = true →
    row_change r (Worker.set_failed (Job.attempts r) runAt now err r) []
| change_dead (r : Job.row) (deadAt : Timestamp) (err : string) :
    Job.state r = processing → 1 ≤ Job.attempts r →
    Job.max_retries r ≤ Job.attempts r →
    row_change r (Worker.set_dead deadAt err r)
      [ {| Dlq.id := "dlq_" +:+ Job.id r; Dlq.job_id := Job.id r;
           Dlq.payload := Worker.snapshot r; Dlq.dead_at := deadAt |} ].

(** What one call does to the jobs and dlq tables: nothing, or it appends
    one fresh [pending] row, or it rewrites one row in place. *)
Inductive tables_change (db db' : DB) : Prop :=
| tables_kept :
    jobs db' = jobs db → dlq db' = dlq db → tables_change db db'
| tables_enqueued (r : Job.row) :
    jobs db' = jobs db ++ [r] → dlq db' = dlq db →
    Job.id r ∉ (Job.id <$> jobs db) →
    Job.state r = pending → Job.attempts r = 0 →
    Job.last_error r = None →
    Job.locked_by r = None → Job.lock_until r = None →
    tables_change db db'
| tables_rewritten (l1 : list Job.row) (r r' : Job.row) (l2 : list Job.row)
    (d : list Dlq.row) :
    jobs db = l1 ++ r :: l2 → jobs db' = l1 ++ r' :: l2 →
    dlq db' = dlq db ++ d →
    row_change r r' d →
    tables_change db db'.

(** The attempts a row may show in each state, [max_retries] being what it
    is (also zero or negative). *)
Definition attempts_within_budget (r : Job.row) : Prop :=
  match Job.state r with
  | pending => Job.attempts r = 0
  | processing | completed =>
      1 ≤ Job.attempts r ≤ Z.max 1 (Job.max_retries r)
  | failed => 1 ≤ Job.attempts r < Job.max_retries r
  | dead => Job.attempts r = Z.max 1 (Job.max_retries r)
  end.

(** A listing is ordered when no row sorts strictly before a row listed
    ahead of it. *)
Fixpoint ordered {A : Type} (before : A → A → bool) (l : list A) : Prop :=
  match l with
  | [] => True
  | x :: rest => (∀ y, y ∈ rest → before y x = false) ∧ ordered before rest
  end.

(** The DLQ row that [processJob] writes for a dead job, read back from the
    job's row. *)
Definition dlq_row_of (r : Job.row) : Dlq.row :=
  {| Dlq.id := "dlq_" +:+ Job.id r; Dlq.job_id := Job.id r;
     Dlq.payload := Worker.snapshot r; Dlq.dead_at := Job.updated_at r |}.

(** * Theorems *)

(** ** Numbers read from text *)

Example parseInt_digits : parseInt "42" = Num 42.
Proof. reflexivity. Qed.

Example parseInt_prefix : parseInt "  -7 retries" = Num (-7).
Proof. reflexivity. Qed.

Example parseInt_no_digits : parseInt "two" = NaN.
Proof. reflexivity. Qed.

Example parseInt_empty : parseInt "" = NaN.
Proof. reflexivity. Qed.

Lemma digit_value_facts (c : ascii) (d : Z) :
  digit_value c = Some d →
  is_space c = false ∧ c ≠ "-"%char ∧ c ≠ "+"%char.
Proof.
  destruct c as [[] [] [] [] [] [] [] []]; vm_compute; intros H;
    try discriminate H; repeat split; discriminate.
Qed.

Lemma read_digits_started (s : string) (a : Z) :
  ∃ n, read_digits s (Some a) = Some n.
Proof.
  revert a. induction s as [|c rest IH]; intros a; simpl.
  - eauto.
  - destruct (digit_value c); eauto.
Qed.

Lemma read_digits_None (s : string) :
  read_digits s None = None ↔
  match s with
  | String c _ => digit_value c = None
  | EmptyString => True
  end.
Proof.
  destruct s as [|c rest]; cbn [read_digits]; [tauto|].
  destruct (digit_value c) as [d|] eqn:E; [|tauto].
  destruct (read_digits_started rest (10 * default 0 None + d)) as [n Hn].
  rewrite Hn. split; discriminate.
Qed.

Lemma String_app (c : ascii) (a b : string) :
  (String c a +:+ b)%string = String c (a +:+ b).
Proof. reflexivity. Qed.



Lemma parseInt_cases (s : string) :
  parseInt s =
  match skip_spaces s with
  | String c rest =>
      if bool_decide (c = "-"%char) then
        match read_digits rest None with Some n => Num (-1 * n) | None => NaN end
      else if bool_decide (c = "+"%char) then
        match read_digits rest None with Some n => Num (1 * n) | None => NaN end
      else
        match read_digits (String c rest) None with
        | Some n => Num (1 * n)
        | None => NaN
        end
  | EmptyString => NaN
  end.
Proof.
  unfold parseInt. destruct (skip_spaces s) as [|c rest]; [reflexivity|].
  destruct c as [[] [] [] [] [] [] [] []]; reflexivity.
Qed.

Lemma skip_spaces_digit (c : ascii) (rest : string) :
  is_space c = false → skip_spaces (String c rest) = String c rest.
Proof. intros H. simpl. by rewrite H. Qed.









Example parseInt_numeral_example :
  parseInt (" " +:+ sign_text Minus +:+ digits_text [1; 2; 0] +:+ "s")
  = Num (-120).
Proof. reflexivity. Qed.

(** ** Config: [getInt] *)





(** ** Tables: membership, filters and primary keys *)

Lemma elem_of_filter_bool {A : Type} (p : A → bool) (l : list A) (x : A) :
  x ∈ List.filter p l ↔ x ∈ l ∧ p x = true.
Proof. rewrite !list_elem_of_In. apply filter_In. Qed.

Lemma elem_of_replace (l1 l2 : list Job.row) (c y : Job.row) :
  y ∈ l1 ++ c :: l2 ↔ y = c ∨ y ∈ l1 ++ l2.
Proof. rewrite !elem_of_app, elem_of_cons. tauto. Qed.

Lemma existsb_id_false (i : string) (rows : list Job.row) :
  existsb (λ x, bool_decide (Job.id x = i)) rows = false ↔
  i ∉ (Job.id <$> rows).
Proof.
  induction rows as [|r rows IH]; simpl.
  - split; [intros _; apply not_elem_of_nil | done].
  - rewrite orb_false_iff, IH, not_elem_of_cons, bool_decide_eq_false.
    split; intros [? ?]; split; auto.
Qed.

Lemma insert_job_Ok (r : Job.row) (rows : list Job.row) :
  Job.id r ∉ (Job.id <$> rows) → insert_job r rows = Ok (rows ++ [r]).
Proof.
  intros H. unfold insert_job.
  by rewrite (proj2 (existsb_id_false (Job.id r) rows) H).
Qed.

Lemma insert_job_Throw (r : Job.row) (rows : list Job.row) :
  Job.id r ∈ (Job.id <$> rows) →
  insert_job r rows = Throw "UNIQUE constraint failed: jobs.id".
Proof.
  intros H. unfold insert_job.
  destruct (existsb _ rows) eqn:E; [reflexivity|].
  by apply existsb_id_false in E.
Qed.

Lemma insert_job_inv (r : Job.row) (rows rows' : list Job.row) :
  insert_job r rows = Ok rows' →
  rows' = rows ++ [r] ∧ Job.id r ∉ (Job.id <$> rows).
Proof.
  unfold insert_job. destruct (existsb _ rows) eqn:E; [discriminate|].
  intros [= <-]. split; [reflexivity | by apply existsb_id_false].
Qed.

(** ** Queue API: [enqueue] *)

Lemma enqueue_Ok_inv (db db' : DB) (job : Queue.job_arg) (nanoid : string)
    (now : Timestamp) (i : string) :
  Queue.enqueue db job nanoid now = Ok (db', i) →
  ∃ r, jobs db' = jobs db ++ [r] ∧ dlq db' = dlq db
       ∧ (Job.id r ∉ (Job.id <$> jobs db))
       ∧ Job.id r = i
       ∧ Job.state r = pending ∧ Job.attempts r = 0
       ∧ Job.run_at r = Queue.run_at_or_null (Queue.run_at job)
       ∧ Job.locked_by r = None ∧ Job.lock_until r = None.
Proof.
  unfold Queue.enqueue. destruct (Queue.command job) as [cmd|]; [|discriminate].
  destruct (insert_job _ (jobs db)) as [rows'|] eqn:E; [|discriminate].
  intros [= <- <-]. apply insert_job_inv in E as [-> Hfresh].
  eexists. split_and!; try reflexivity. exact Hfresh.
Qed.

(** C10: when [job.run_at] is missing or falsy (for instance the empty
    string), [enqueue] behaves exactly as for a job without [run_at]: the
    value is neither rejected nor kept as a schedule.  Every successful call
    appends one [pending] row whose [run_at] is NULL and which satisfies the
    claim predicate at every clock reading; and the call is successful
    whenever the job has a command and its id is not taken. *)
Theorem enqueue_falsy_run_at (db : DB) (job : Queue.job_arg)
    (nanoid : string) (now : Timestamp) :
  falsy (Queue.run_at job) = true →
  Queue.enqueue db job nanoid now
    = Queue.enqueue db (without_run_at job) nanoid now
  ∧ (∀ db' id, Queue.enqueue db job nanoid now = Ok (db', id) →
       ∃ r : Job.row,
         jobs db' = jobs db ++ [r]
         ∧ Job.id r = id
         ∧ Job.state r = pending
         ∧ Job.run_at r = None
         ∧ ∀ t : Timestamp, Worker.claimable t r = true)
  ∧ (∀ cmd, Queue.command job = Some cmd →
       Queue.id_or_generated (Queue.id job) nanoid ∉ (Job.id <$> jobs db) →
       ∃ db', Queue.enqueue db job nanoid now
              = Ok (db', Queue.id_or_generated (Queue.id job) nanoid)).
Proof.
  intros Hfalsy.
  assert (Hnull : Queue.run_at_or_null (Queue.run_at job) = None).
  { destruct (Queue.run_at job); [reflexivity.. | discriminate]. }
  split_and!.
  - unfold Queue.enqueue. simpl. by rewrite Hnull.
  - intros db' id Hok.
    apply enqueue_Ok_inv in Hok
      as (r & Hjobs & _ & _ & Hid & Hst & _ & Hrun & Hlb & Hlu).
    rewrite Hnull in Hrun. exists r. split_and!; try done.
    intros t. unfold Worker.claimable. by rewrite Hst, Hrun, Hlu.
  - intros cmd Hcmd Hfresh. unfold Queue.enqueue. rewrite Hcmd.
    rewrite insert_job_Ok by exact Hfresh. eauto.
Qed.

(** [enqueue({ id: 'j1', command: 'echo ok', run_at: '' })] on an empty
    database. *)
Lemma enqueue_falsy_run_at_witness :
  ∃ db' r,
    Queue.enqueue empty_db job_empty_run_at "V1StGXR8" 1000 = Ok (db', "j1"%string)
    ∧ jobs db' = [r]
    ∧ Job.run_at r = None
    ∧ ∀ t : Timestamp, Worker.claimable t r = true.
Proof.
  destruct (enqueue_falsy_run_at empty_db job_empty_run_at "V1StGXR8" 1000
              eq_refl) as (_ & Hright & Hok).
  destruct (Hok "echo ok"%string eq_refl) as [db' Hdb'].
  { simpl. apply not_elem_of_nil. }
  destruct (Hright db' _ Hdb') as (r & Hjobs & _ & _ & Hrun & Hclaim).
  exists db', r. split_and!; [exact Hdb' | exact Hjobs | exact Hrun | exact Hclaim].
Defined.

(** ** [ORDER BY ... LIMIT 1] *)

Section OrderByLimit1.
Context {A : Type} (before : A → A → bool).

Lemma order_by_limit_1_None (rows : list A) :
  order_by_limit_1 before rows = None ↔ rows = [].
Proof.
  destruct rows as [|r rest]; simpl; [done|].
  destruct (order_by_limit_1 before rest) as [b|];
    [destruct (before b r)|]; split; discriminate.
Qed.

Lemma order_by_limit_1_elem (rows : list A) (x : A) :
  order_by_limit_1 before rows = Some x → x ∈ rows.
Proof.
  revert x. induction rows as [|r rest IH]; simpl; intros x; [discriminate|].
  destruct (order_by_limit_1 before rest) as [b|].
  - destruct (before b r); intros [= <-].
    + right. by apply IH.
    + left.
  - intros [= <-]. left.
Qed.

(** A row that sorts strictly before every earlier row, and that no later
    row sorts strictly before, is the one selected. *)
Lemma order_by_limit_1_intro (l1 l2 : list A) (x : A) :
  (∀ y, y ∈ l1 → before x y = true) →
  (∀ y, y ∈ l2 → before y x = false) →
  order_by_limit_1 before (l1 ++ x :: l2) = Some x.
Proof.
  intros H1 H2. induction l1 as [|a l1 IH]; simpl.
  - destruct (order_by_limit_1 before l2) as [b|] eqn:E; [|reflexivity].
    rewrite (H2 b); [reflexivity | by eapply order_by_limit_1_elem].
  - rewrite IH by (intros y Hy; apply H1; by right).
    rewrite (H1 a) by left. reflexivity.
Qed.

Hypothesis before_trans :
  ∀ x y z, before x y = true → before y z = true → before x z = true.
Hypothesis before_cotrans :
  ∀ x y z, before x z = true → before x y = true ∨ before y z = true.

(** The selected row splits the table: it sorts strictly before every
    earlier row and no later row sorts strictly before it. *)
Lemma order_by_limit_1_Some (rows : list A) (x : A) :
  order_by_limit_1 before rows = Some x →
  ∃ l1 l2, rows = l1 ++ x :: l2
           ∧ (∀ y, y ∈ l1 → before x y = true)
           ∧ (∀ y, y ∈ l2 → before y x = false).
Proof.
  revert x. induction rows as [|r rest IH]; simpl; intros x; [discriminate|].
  destruct (order_by_limit_1 before rest) as [b|] eqn:E.
  - destruct (IH b eq_refl) as (m1 & m2 & -> & Hm1 & Hm2).
    destruct (before b r) eqn:Hbr; intros [= <-].
    + exists (r :: m1), m2. split_and!; [reflexivity | | exact Hm2].
      intros y [->|Hy]%elem_of_cons; auto.
    + exists [], (m1 ++ b :: m2). split_and!; [reflexivity | | ].
      * intros y Hy. by apply elem_of_nil in Hy.
      * intros y Hy. destruct (before y r) eqn:Hyr; [|reflexivity].
        apply elem_of_app in Hy as [Hy | [-> | Hy]%elem_of_cons].
        -- rewrite <- Hbr. symmetry. eapply before_trans; [|exact Hyr]. auto.
        -- congruence.
        -- destruct (before_cotrans _ b _ Hyr) as [Hyb | Hb]; [|congruence].
           rewrite (Hm2 y Hy) in Hyb. discriminate.
  - intros [= <-]. apply order_by_limit_1_None in E as ->.
    exists [], []. split_and!; [reflexivity | |];
      intros y Hy; by apply elem_of_nil in Hy.
Qed.

End OrderByLimit1.

Lemma filter_split {A : Type} (p : A → bool) (l f1 f2 : list A) (x : A) :
  List.filter p l = f1 ++ x :: f2 →
  ∃ l1 l2, l = l1 ++ x :: l2
           ∧ List.filter p l1 = f1 ∧ List.filter p l2 = f2 ∧ p x = true.
Proof.
  revert f1. induction l as [|a l IH]; simpl; intros f1 H.
  - by destruct f1.
  - destruct (p a) eqn:Hp.
    + destruct f1 as [|b f1]; simpl in H; injection H as Hb H; subst.
      * exists [], l. by split_and!.
      * destruct (IH f1 H) as (l1 & l2 & -> & <- & <- & Hx).
        exists (b :: l1), l2. simpl. rewrite Hp. by split_and!.
    + destruct (IH f1 H) as (l1 & l2 & -> & <- & <- & Hx).
      exists (a :: l1), l2. simpl. rewrite Hp. by split_and!.
Qed.

(** ** Frame of the UPDATE statements *)

Lemma sql_update_fixed_columns (where_ : Job.row → bool)
    (set_ : Job.row → Job.row) (rows : list Job.row) :
  (∀ r, fixed_columns (set_ r) = fixed_columns r) →
  fixed_columns <$> fst (sql_update where_ set_ rows) = fixed_columns <$> rows.
Proof.
  intros Hset. unfold sql_update. simpl.
  induction rows as [|r rows IH]; [reflexivity|].
  cbn [map fmap list_fmap]. f_equal; [|exact IH].
  destruct (where_ r); [apply Hset | reflexivity].
Qed.

Lemma updates_fixed_columns_claim (db : DB) (worker : string)
    (now : Timestamp) (tie tie' : nat) :
  fixed_columns <$> jobs (fst (Worker.claimJob db worker now tie tie'))
  = fixed_columns <$> jobs db
  ∧ dlq (fst (Worker.claimJob db worker now tie tie')) = dlq db.
Proof.
  unfold Worker.claimJob. destruct (Nat.eqb _ 0); cbn [fst jobs dlq];
    (split; [by apply sql_update_fixed_columns | reflexivity]).
Qed.

Lemma updates_fixed_columns_refresh (db : DB) (worker : string)
    (currentJob : option Job.row) (now : Timestamp) :
  fixed_columns <$> jobs (Worker.refreshLock db worker currentJob now)
  = fixed_columns <$> jobs db.
Proof.
  unfold Worker.refreshLock. destruct currentJob; [|reflexivity].
  cbn [jobs]. by apply sql_update_fixed_columns.
Qed.

Lemma updates_fixed_columns_resolve (db : DB) (job : Job.row) (base : Z)
    (res : Worker.exec_result) (now deadAt : Timestamp) :
  fixed_columns
    <$> jobs (after db (Worker.processJob db job base res now deadAt))
  = fixed_columns <$> jobs db.
Proof.
  unfold Worker.processJob, Worker.update_by_id.
  destruct res as [|error stderr code]; cbn [after jobs].
  - by apply sql_update_fixed_columns.
  - destruct (_ <? _); cbn [after jobs].
    + destruct (Util.valid_time _); cbn [after jobs]; [|reflexivity].
      by apply sql_update_fixed_columns.
    + destruct (insert_dlq _ _); cbn [after jobs]; [|reflexivity].
      by apply sql_update_fixed_columns.
Qed.

(** C9: the claim update, the lock refresher and the three outcome updates
    leave the table with the same rows in the same order as far as [id],
    [command], [priority], [max_retries] and [created_at] are concerned;
    only the other seven columns can differ. *)
Theorem updates_preserve_fixed_columns (db : DB) (worker : string)
    (currentJob : option Job.row) (job : Job.row) (base : Z)
    (res : Worker.exec_result) (now deadAt : Timestamp) (tie tie' : nat) :
  fixed_columns <$> jobs (fst (Worker.claimJob db worker now tie tie'))
    = fixed_columns <$> jobs db
  ∧ fixed_columns <$> jobs (Worker.refreshLock db worker currentJob now)
    = fixed_columns <$> jobs db
  ∧ fixed_columns
      <$> jobs (after db (Worker.processJob db job base res now deadAt))
    = fixed_columns <$> jobs db.
Proof.
  split_and!.
  - apply updates_fixed_columns_claim.
  - apply updates_fixed_columns_refresh.
  - apply updates_fixed_columns_resolve.
Qed.

(** ** Queue API: [status] *)

Lemma length_filter_map {A B : Type} (f : A → B) (p : B → bool) (l : list A) :
  length (List.filter p (List.map f l)) = length (List.filter (λ x, p (f x)) l).
Proof.
  induction l as [|a l IH]; simpl; [reflexivity|].
  destruct (p (f a)); simpl; by rewrite IH.
Qed.

Lemma status_counts (db : DB) (now : Timestamp) (s : JobState) :
  Queue.get_count s (Queue.counts (Queue.status db now))
  = rows_in_state s (jobs db).
Proof.
  unfold Queue.status, Queue.group_by_state, rows_in_state.
  cbn [Queue.counts map].
  destruct s;
    generalize (length (List.filter (λ r, bool_decide (Job.state r = completed)) (jobs db)));
    generalize (length (List.filter (λ r, bool_decide (Job.state r = dead)) (jobs db)));
    generalize (length (List.filter (λ r, bool_decide (Job.state r = failed)) (jobs db)));
    generalize (length (List.filter (λ r, bool_decide (Job.state r = pending)) (jobs db)));
    generalize (length (List.filter (λ r, bool_decide (Job.state r = processing)) (jobs db)));
    intros [|?] [|?] [|?] [|?] [|?]; reflexivity.
Qed.

Lemma status_oldest_pending (db : DB) (now : Timestamp) :
  match Queue.oldest_pending (Queue.status db now) with
  | Some t =>
      (∃ r, r ∈ jobs db ∧ Job.state r = pending ∧ Job.created_at r = t)
      ∧ (∀ r, r ∈ jobs db → Job.state r = pending → t ≤ Job.created_at r)
  | None => ∀ r, r ∈ jobs db → Job.state r ≠ pending
  end.
Proof.
  unfold Queue.status. cbn [Queue.oldest_pending].
  set (before := λ a b : Job.row, Job.created_at a <? Job.created_at b).
  set (pend := List.filter (λ r, bool_decide (Job.state r = pending)) (jobs db)).
  assert (Hpend : ∀ r, r ∈ pend ↔ r ∈ jobs db ∧ Job.state r = pending).
  { intros r. unfold pend. rewrite elem_of_filter_bool, bool_decide_eq_true.
    reflexivity. }
  destruct (order_by_limit_1 before pend) as [x|] eqn:E; cbn [fmap option_fmap option_map].
  - apply order_by_limit_1_Some in E as (l1 & l2 & Hsplit & H1 & H2).
    + assert (Hx : x ∈ pend).
      { rewrite Hsplit, elem_of_app, elem_of_cons. auto. }
      split.
      * exists x. apply Hpend in Hx as [? ?]. auto.
      * intros r Hr Hs.
        assert (Hin : r ∈ pend) by (apply Hpend; auto).
        rewrite Hsplit, elem_of_app, elem_of_cons in Hin.
        destruct Hin as [Hin | [-> | Hin]].
        -- specialize (H1 r Hin). unfold before in H1. lia.
        -- lia.
        -- specialize (H2 r Hin). unfold before in H2. lia.
    + unfold before. intros x0 y z. lia.
    + unfold before. intros x0 y z. lia.
  - apply order_by_limit_1_None in E. intros r Hr Hs.
    assert (Hin : r ∈ pend) by (apply Hpend; auto).
    rewrite E in Hin. by apply elem_of_nil in Hin.
Qed.

(** C6: [status()] returns, for each of the five states, the number of job
    rows in that state (0 when there is none); [active_workers] is the
    number of worker rows whose [heartbeat_at] is not older than 10 seconds
    at the current time (when no heartbeat is later than the clock, those
    in the window from [now - 10 s] to [now]); [oldest_pending] is the least
    [created_at] among the [pending] rows, or null when there is none. *)
Theorem status_spec (db : DB) (now : Timestamp) :
  (∀ s : JobState,
     Queue.get_count s (Queue.counts (Queue.status db now))
     = rows_in_state s (jobs db))
  ∧ Queue.active_workers (Queue.status db now)
    = length (List.filter (λ w, now - 10000 <=? WorkerRow.heartbeat_at w)
                (workers db))
  ∧ ((∀ w, w ∈ workers db → WorkerRow.heartbeat_at w ≤ now) →
     Queue.active_workers (Queue.status db now)
     = length (List.filter
                 (λ w, (now - 10000 <=? WorkerRow.heartbeat_at w)
                       && (WorkerRow.heartbeat_at w <=? now))
                 (workers db)))
  ∧ match Queue.oldest_pending (Queue.status db now) with
    | Some t =>
        (∃ r, r ∈ jobs db ∧ Job.state r = pending ∧ Job.created_at r = t)
        ∧ (∀ r, r ∈ jobs db → Job.state r = pending → t ≤ Job.created_at r)
    | None => ∀ r, r ∈ jobs db → Job.state r ≠ pending
    end.
Proof.
  split_and!.
  - intros s. apply status_counts.
  - unfold Queue.status. cbn [Queue.active_workers]. apply length_filter_map.
  - intros Hpast. unfold Queue.status. cbn [Queue.active_workers].
    rewrite length_filter_map. f_equal. apply filter_ext_in.
    intros w Hw%list_elem_of_In. specialize (Hpast w Hw).
    destruct (now - 10000 <=? WorkerRow.heartbeat_at w); [|reflexivity].
    symmetry. apply andb_true_intro. split; [reflexivity | lia].
  - apply status_oldest_pending.
Qed.

(** [status()] on [db_one_worker] five seconds after the heartbeat. *)
Lemma status_spec_witness :
  Queue.get_count pending (Queue.counts (Queue.status db_one_worker 5000)) = 0%nat
  ∧ Queue.active_workers (Queue.status db_one_worker 5000) = 1%nat
  ∧ Queue.oldest_pending (Queue.status db_one_worker 5000) = None.
Proof.
  destruct (status_spec db_one_worker 5000) as (H1 & _ & H3 & _).
  split_and!.
  - rewrite H1. reflexivity.
  - rewrite H3; [reflexivity|].
    intros w Hw. apply list_elem_of_In in Hw. simpl in Hw.
    destruct Hw as [<- | []]. simpl. lia.
  - reflexivity.
Defined.

(** C8, as stated, fails: [status()] reads the clock, so two calls on an
    unchanged database can differ in [active_workers].  With one worker
    whose heartbeat was written at instant 0, a call 5 s later reports one
    active worker and a call 20 s later reports none. *)
Lemma status_not_stable_in_time :
  ¬ (∀ (db : DB) (now1 now2 : Timestamp),
       now1 ≤ now2 → Queue.status db now1 = Queue.status db now2).
Proof.
  intros H. specialize (H db_one_worker 5000 20000 ltac:(lia)).
  apply (f_equal Queue.active_workers) in H. vm_compute in H. discriminate.
Qed.

(** C8 (amended): two [status()] calls on the same database return the same
    five counts and the same [oldest_pending] whatever the clock reads; the
    whole results are identical when no heartbeat lies between the two
    ten-second cut-offs, in particular when both calls read the same clock
    value. *)
Theorem status_stable (db : DB) (now1 now2 : Timestamp) :
  Queue.counts (Queue.status db now1) = Queue.counts (Queue.status db now2)
  ∧ Queue.oldest_pending (Queue.status db now1)
    = Queue.oldest_pending (Queue.status db now2)
  ∧ ((∀ w, w ∈ workers db →
           (now1 - 10000 <=? WorkerRow.heartbeat_at w)
           = (now2 - 10000 <=? WorkerRow.heartbeat_at w)) →
     Queue.status db now1 = Queue.status db now2).
Proof.
  split_and!; [reflexivity | reflexivity |].
  intros Hsame. unfold Queue.status. f_equal.
  rewrite !length_filter_map. f_equal. apply filter_ext_in.
  intros w Hw%list_elem_of_In. by apply Hsame.
Qed.

(** Two [status()] calls on [db_one_worker], 5 s and 8 s after the
    heartbeat. *)
Lemma status_stable_witness :
  Queue.status db_one_worker 5000 = Queue.status db_one_worker 8000.
Proof.
  apply (status_stable db_one_worker 5000 8000).
  intros w Hw. apply list_elem_of_In in Hw. simpl in Hw.
  destruct Hw as [<- | []]. reflexivity.
Defined.

(** ** Worker: [claimJob] *)

Lemma claim_order_true (a b : Job.row) :
  Worker.claim_order a b = true ↔
  Job.priority b < Job.priority a
  ∨ (Job.priority a = Job.priority b ∧ Job.created_at a < Job.created_at b).
Proof. unfold Worker.claim_order. lia. Qed.

Lemma claim_order_false (a b : Job.row) :
  Worker.claim_order a b = false ↔
  Job.priority a < Job.priority b
  ∨ (Job.priority a = Job.priority b ∧ Job.created_at b ≤ Job.created_at a).
Proof. unfold Worker.claim_order. lia. Qed.

Lemma claim_order_trans (x y z : Job.row) :
  Worker.claim_order x y = true → Worker.claim_order y z = true →
  Worker.claim_order x z = true.
Proof. rewrite !claim_order_true. lia. Qed.

Lemma claim_order_cotrans (x y z : Job.row) :
  Worker.claim_order x z = true →
  Worker.claim_order x y = true ∨ Worker.claim_order y z = true.
Proof. rewrite !claim_order_true. lia. Qed.

Section OrderByLimit1Tie.
Context {A : Type} (before : A → A → bool).

Lemma first_rows_elem (rows : list A) (x : A) :
  x ∈ first_rows before rows ↔
  x ∈ rows ∧ ∀ y, y ∈ rows → before y x = false.
Proof.
  unfold first_rows. rewrite elem_of_filter_bool, forallb_forall.
  split; intros [Hx H]; (split; [exact Hx|]); intros y Hy.
  - apply negb_true_iff, H. by apply list_elem_of_In.
  - apply negb_true_iff, H. by apply list_elem_of_In.
Qed.

(** The row returned is one that no row precedes, whatever the choice. *)
Lemma order_by_limit_1_tie_Some (tie : nat) (rows : list A) (x : A) :
  order_by_limit_1_tie before tie rows = Some x →
  x ∈ rows ∧ ∀ y, y ∈ rows → before y x = false.
Proof.
  unfold order_by_limit_1_tie. intros H.
  apply first_rows_elem. by eapply list_elem_of_lookup_2.
Qed.

(** A row that precedes every other row is returned, whatever the choice. *)
Lemma order_by_limit_1_tie_only (tie : nat) (rows : list A) (x : A) :
  x ∈ first_rows before rows →
  (∀ y, y ∈ first_rows before rows → y = x) →
  order_by_limit_1_tie before tie rows = Some x.
Proof.
  intros Hx Honly. unfold order_by_limit_1_tie.
  set (firsts := first_rows before rows) in *.
  assert (Hlen : (0 < length firsts)%nat).
  { destruct firsts; [by apply elem_of_nil in Hx | simpl; lia]. }
  destruct (lookup_lt_is_Some_2 firsts (tie mod length firsts)%nat)
    as [y Hy]; [apply Nat.mod_upper_bound; lia|].
  rewrite Hy. f_equal. apply Honly. by eapply list_elem_of_lookup_2.
Qed.

Hypothesis before_irrefl : ∀ x, before x x = false.
Hypothesis before_trans :
  ∀ x y z, before x y = true → before y z = true → before x z = true.
Hypothesis before_cotrans :
  ∀ x y z, before x z = true → before x y = true ∨ before y z = true.

(** Nothing is returned only from an empty table. *)
Lemma order_by_limit_1_tie_None (tie : nat) (rows : list A) :
  order_by_limit_1_tie before tie rows = None ↔ rows = [].
Proof.
  split; [|by intros ->].
  intros H. destruct (order_by_limit_1 before rows) as [x|] eqn:E;
    [|by apply order_by_limit_1_None in E].
  exfalso.
  apply order_by_limit_1_Some in E as (l1 & l2 & -> & H1 & H2);
    [| exact before_trans | exact before_cotrans].
  assert (Hx : x ∈ first_rows before (l1 ++ x :: l2)).
  { apply first_rows_elem. split; [rewrite elem_of_app, elem_of_cons; auto|].
    intros y Hy. apply elem_of_app in Hy as [Hy | [-> | Hy]%elem_of_cons].
    - destruct (before y x) eqn:Hyx; [|reflexivity].
      rewrite <- (before_irrefl x). symmetry.
      eapply before_trans; [apply H1|]; eauto.
    - apply before_irrefl.
    - by apply H2. }
  unfold order_by_limit_1_tie in H.
  set (firsts := first_rows before (l1 ++ x :: l2)) in *.
  assert (Hlen : (0 < length firsts)%nat).
  { destruct firsts; [by apply elem_of_nil in Hx | simpl; lia]. }
  destruct (lookup_lt_is_Some_2 firsts (tie mod length firsts)%nat)
    as [y Hy]; [apply Nat.mod_upper_bound; lia|].
  congruence.
Qed.

End OrderByLimit1Tie.

Lemma claim_order_irrefl (x : Job.row) : Worker.claim_order x x = false.
Proof. apply claim_order_false. lia. Qed.

(** [Worker.claimable] is the selection predicate. *)
Lemma claimable_selection (now : Timestamp) (r : Job.row) :
  Worker.claimable now r = true ↔ selection_predicate now r.
Proof.
  unfold Worker.claimable, selection_predicate, Util.text_le.
  rewrite !andb_true_iff, orb_true_iff, !bool_decide_eq_true.
  destruct (Job.run_at r) as [t|], (Job.lock_until r) as [u|];
    split; intros [[Hs Hr] Hl] || intros (Hs & Hr & Hl);
    split_and!; try done; try (intros ? [= <-]; done); eauto.
Qed.

Lemma select_claimable_None (rows : list Job.row) (now : Timestamp)
    (tie : nat) :
  Worker.select_claimable rows now tie = None ↔
  ∀ r, r ∈ rows → Worker.claimable now r = false.
Proof.
  unfold Worker.select_claimable.
  rewrite (order_by_limit_1_tie_None _ claim_order_irrefl claim_order_trans
             claim_order_cotrans).
  split.
  - intros H r Hr. destruct (Worker.claimable now r) eqn:E; [|reflexivity].
    assert (Hin : r ∈ List.filter (Worker.claimable now) rows)
      by (apply elem_of_filter_bool; auto).
    rewrite H in Hin. by apply elem_of_nil in Hin.
  - intros H. destruct (List.filter _ rows) as [|x l] eqn:E; [reflexivity|].
    assert (Hin : x ∈ List.filter (Worker.claimable now) rows)
      by (rewrite E; left).
    apply elem_of_filter_bool in Hin as [Hx Hc]. rewrite (H x Hx) in Hc.
    discriminate.
Qed.

(** The selected row satisfies the predicate, and no row that satisfies it
    precedes the selected row in the order of the claim. *)
Lemma select_claimable_Some (rows : list Job.row) (now : Timestamp)
    (tie : nat) (r : Job.row) :
  Worker.select_claimable rows now tie = Some r →
  ∃ l1 l2, rows = l1 ++ r :: l2
    ∧ Worker.claimable now r = true
    ∧ (∀ y, y ∈ rows → Worker.claimable now y = true →
            Worker.claim_order y r = false).
Proof.
  unfold Worker.select_claimable. intros H.
  apply order_by_limit_1_tie_Some in H as [Hr Hfirst].
  apply elem_of_filter_bool in Hr as [Hr Hc].
  destruct (list_elem_of_split _ _ Hr) as (l1 & l2 & Hsplit).
  exists l1, l2. split_and!; [exact Hsplit | exact Hc |].
  intros y Hy Hcy. apply Hfirst. apply elem_of_filter_bool. auto.
Qed.

(** With unique ids, [UPDATE ... WHERE id = ?] rewrites the one row that
    carries the id and reports one change. *)
Lemma sql_update_unique (set_ : Job.row → Job.row) (l1 l2 : list Job.row)
    (r : Job.row) :
  NoDup (Job.id <$> (l1 ++ r :: l2)) →
  sql_update (λ x, bool_decide (Job.id x = Job.id r)) set_ (l1 ++ r :: l2)
  = (l1 ++ set_ r :: l2, 1%nat).
Proof.
  intros Hnd.
  assert (Hother : ∀ l, (∀ y, y ∈ l → Job.id y ≠ Job.id r) →
            sql_update (λ x, bool_decide (Job.id x = Job.id r)) set_ l
            = (l, 0%nat)).
  { induction l as [|a l IH]; intros Hl; [reflexivity|].
    unfold sql_update in *. simpl.
    rewrite bool_decide_eq_false_2 by (apply Hl; left).
    specialize (IH (λ y Hy, Hl y (list_elem_of_further _ _ _ Hy))).
    injection IH as IH1 IH2. by rewrite IH1, IH2. }
  rewrite fmap_app, fmap_cons in Hnd.
  apply NoDup_app in Hnd as (_ & Hdisj & Hnd2).
  apply NoDup_cons in Hnd2 as [Hr2 _].
  assert (H1 : ∀ y, y ∈ l1 → Job.id y ≠ Job.id r).
  { intros y Hy Heq. apply (Hdisj (Job.id y)).
    - by apply list_elem_of_fmap_2.
    - rewrite Heq. left. }
  assert (H2 : ∀ y, y ∈ l2 → Job.id y ≠ Job.id r).
  { intros y Hy Heq. apply Hr2. rewrite <- Heq. by apply list_elem_of_fmap_2. }
  specialize (Hother l1 H1) as Ho1. specialize (Hother l2 H2) as Ho2.
  unfold sql_update in *. injection Ho1 as Ho1 Hn1. injection Ho2 as Ho2 Hn2.
  rewrite map_app, List.filter_app, length_app. simpl.
  rewrite bool_decide_eq_true_2 by reflexivity. simpl.
  rewrite Ho1, Ho2, Hn1, Hn2. reflexivity.
Qed.

Lemma sql_update_nothing (set_ : Job.row → Job.row) (rows : list Job.row) :
  sql_update (λ _, false) set_ rows = (rows, 0%nat).
Proof.
  unfold sql_update. induction rows as [|r rows IH]; [reflexivity|].
  simpl. injection IH as IH1 IH2. by rewrite IH1, IH2.
Qed.

Lemma claimJob_idle (db : DB) (worker : string) (now : Timestamp)
    (tie tie' : nat) :
  Worker.select_claimable (jobs db) now tie = None →
  Worker.claimJob db worker now tie tie' = (db, None).
Proof.
  intros H. unfold Worker.claimJob. rewrite H. cbn [fmap option_fmap option_map].
  rewrite sql_update_nothing. cbn [fst snd Nat.eqb]. by destruct db.
Qed.

Lemma claimJob_picked (db : DB) (worker : string) (now : Timestamp)
    (tie tie' : nat) (r : Job.row) (l1 l2 : list Job.row) :
  NoDup (Job.id <$> jobs db) →
  Worker.select_claimable (jobs db) now tie = Some r →
  jobs db = l1 ++ r :: l2 →
  let rows' :=
    l1 ++ Worker.set_claimed worker (Util.addSeconds now 60) now r :: l2 in
  Worker.claimJob db worker now tie tie'
  = ({| jobs := rows'; dlq := dlq db; config := config db;
        workers := workers db |},
     Worker.reread rows' worker tie').
Proof.
  intros Hnd Hsel Hsplit rows'. unfold Worker.claimJob.
  rewrite Hsel. cbn [fmap option_fmap option_map].
  rewrite Hsplit in Hnd |- *. rewrite sql_update_unique by exact Hnd.
  reflexivity.
Qed.

Lemma reread_Some (rows : list Job.row) (worker : string) (tie : nat)
    (j : Job.row) :
  Worker.reread rows worker tie = Some j →
  j ∈ rows ∧ Job.locked_by j = Some worker ∧ Job.state j = processing
  ∧ ∀ y, y ∈ rows → Job.locked_by y = Some worker →
         Job.state y = processing → Job.updated_at y ≤ Job.updated_at j.
Proof.
  unfold Worker.reread. intros H.
  set (mine := λ r : Job.row,
         bool_decide (Job.locked_by r = Some worker)
         && bool_decide (Job.state r = processing)) in *.
  assert (Hmine : ∀ y, mine y = true ↔
            Job.locked_by y = Some worker ∧ Job.state y = processing).
  { intros y. unfold mine.
    by rewrite andb_true_iff, !bool_decide_eq_true. }
  apply order_by_limit_1_tie_Some in H as [Hj Hfirst].
  apply elem_of_filter_bool in Hj as [Hj Hm]. apply Hmine in Hm as [Hl Hs].
  split_and!; [done.. |].
  intros y Hy Hyl Hys.
  assert (Hin : y ∈ List.filter mine rows).
  { apply elem_of_filter_bool. split; [done | by apply Hmine]. }
  specialize (Hfirst y Hin). simpl in Hfirst. lia.
Qed.

Lemma reread_Some_ex (rows : list Job.row) (worker : string) (tie : nat)
    (c : Job.row) :
  c ∈ rows → Job.locked_by c = Some worker → Job.state c = processing →
  ∃ j, Worker.reread rows worker tie = Some j.
Proof.
  intros Hc Hl Hs. destruct (Worker.reread rows worker tie) as [j|] eqn:E;
    [eauto|]. exfalso. unfold Worker.reread in E.
  apply order_by_limit_1_tie_None in E;
    [| intros x; lia | intros x y z; lia | intros x y z; lia].
  assert (Hin : c ∈ List.filter
            (λ r, bool_decide (Job.locked_by r = Some worker)
                  && bool_decide (Job.state r = processing)) rows).
  { apply elem_of_filter_bool. split; [done|].
    by rewrite !bool_decide_eq_true_2. }
  rewrite E in Hin. by apply elem_of_nil in Hin.
Qed.

(** The row just claimed is the one re-read when the other [processing]
    rows of the worker are older, whatever the choice of the engine. *)
Lemma reread_newest (l1 l2 : list Job.row) (c : Job.row) (worker : string)
    (tie : nat) :
  Job.locked_by c = Some worker → Job.state c = processing →
  (∀ y, y ∈ l1 ++ l2 → Job.locked_by y = Some worker →
        Job.state y = processing → Job.updated_at y < Job.updated_at c) →
  Worker.reread (l1 ++ c :: l2) worker tie = Some c.
Proof.
  intros Hl Hs Hold. unfold Worker.reread.
  set (mine := λ r : Job.row,
         bool_decide (Job.locked_by r = Some worker)
         && bool_decide (Job.state r = processing)).
  assert (Hmine : ∀ y, y ∈ List.filter mine (l1 ++ c :: l2) →
            y = c ∨ Job.updated_at y < Job.updated_at c).
  { intros y [Hy Hm]%elem_of_filter_bool.
    apply andb_true_iff in Hm
      as [Hm1%bool_decide_eq_true Hm2%bool_decide_eq_true].
    apply elem_of_replace in Hy as [-> | Hy]; auto. }
  assert (Hc : c ∈ List.filter mine (l1 ++ c :: l2)).
  { apply elem_of_filter_bool. split; [apply elem_of_replace; auto|].
    unfold mine. by rewrite !bool_decide_eq_true_2. }
  apply order_by_limit_1_tie_only.
  - apply first_rows_elem. split; [exact Hc|].
    intros y Hy. destruct (Hmine y Hy) as [-> | Hlt]; lia.
  - intros y [Hy Hfirst]%first_rows_elem.
    destruct (Hmine y Hy) as [-> | Hlt]; [reflexivity|].
    specialize (Hfirst c Hc). simpl in Hfirst. lia.
Qed.

(** C1: on a table with unique ids (the PRIMARY KEY), at a clock reading
    [now] for which [now + 60 s] is a valid time value, [claimJob] is one
    UPDATE.  When no row satisfies the selection predicate nothing changes
    and the result is null.  Otherwise exactly one row [r] changes: it
    satisfies the predicate, and every row that satisfies it has a lower
    priority, or the same priority and a [created_at] that is not earlier
    (which of several rows that tie is taken is the choice of the engine);
    the row gets [state = processing], [locked_by = worker],
    [lock_until = now + 60 s], [attempts + 1] and [updated_at = now], its
    other columns are kept.  The value returned is the re-read row, a
    [processing] row locked by the worker with the greatest [updated_at]:
    it is the claimed row when the clock reading [now] is later than the
    [updated_at] of every [processing] row the worker already holds, as it
    is when the clock has not run backwards since those rows were
    written. *)
Theorem claimJob_spec (db : DB) (worker : string) (now : Timestamp)
    (tie tie' : nat) :
  NoDup (Job.id <$> jobs db) →
  Z.abs (now + 60000) ≤ 8640000000000000 →
  ((∀ r, r ∈ jobs db → ¬ selection_predicate now r) →
   Worker.claimJob db worker now tie tie' = (db, None))
  ∧
  ((∃ r, r ∈ jobs db ∧ selection_predicate now r) →
   ∃ (l1 : list Job.row) (r : Job.row) (l2 : list Job.row),
     jobs db = l1 ++ r :: l2
     ∧ selection_predicate now r
     ∧ (∀ y, y ∈ jobs db → selection_predicate now y →
          Job.priority y < Job.priority r
          ∨ (Job.priority y = Job.priority r
             ∧ Job.created_at r ≤ Job.created_at y))
     ∧ let c :=
         {| Job.id := Job.id r; Job.command := Job.command r;
            Job.state := processing; Job.attempts := Job.attempts r + 1;
            Job.max_retries := Job.max_retries r;
            Job.created_at := Job.created_at r; Job.updated_at := now;
            Job.run_at := Job.run_at r; Job.last_error := Job.last_error r;
            Job.priority := Job.priority r; Job.locked_by := Some worker;
            Job.lock_until := Some (Util.toISOString (now + 60000)) |} in
       fst (Worker.claimJob db worker now tie tie')
       = {| jobs := l1 ++ c :: l2; dlq := dlq db; config := config db;
            workers := workers db |}
       ∧ (∃ j, snd (Worker.claimJob db worker now tie tie') = Some j
               ∧ j ∈ l1 ++ c :: l2
               ∧ Job.locked_by j = Some worker
               ∧ Job.state j = processing
               ∧ ∀ y, y ∈ l1 ++ c :: l2 → Job.locked_by y = Some worker →
                      Job.state y = processing →
                      Job.updated_at y ≤ Job.updated_at j)
       ∧ ((∀ y, y ∈ jobs db → Job.locked_by y = Some worker →
                Job.state y = processing → Job.updated_at y < now) →
          snd (Worker.claimJob db worker now tie tie') = Some c)).
Proof.
  intros Hnd _. split.
  - intros Hnone. apply claimJob_idle. apply select_claimable_None.
    intros r Hr. apply not_true_is_false. rewrite claimable_selection.
    by apply Hnone.
  - intros (r0 & Hr0 & Hc0). apply claimable_selection in Hc0.
    destruct (Worker.select_claimable (jobs db) now tie) as [r|] eqn:Hsel.
    2:{ rewrite (proj1 (select_claimable_None _ _ _) Hsel r0 Hr0) in Hc0.
        discriminate. }
    destruct (select_claimable_Some _ _ _ _ Hsel)
      as (l1 & l2 & Hsplit & Hr & Hfirst).
    exists l1, r, l2.
    rewrite (claimJob_picked db worker now tie tie' r l1 l2 Hnd Hsel Hsplit).
    cbn [fst snd].
    change (Worker.set_claimed worker (Util.addSeconds now 60) now r)
      with {| Job.id := Job.id r; Job.command := Job.command r;
              Job.state := processing; Job.attempts := Job.attempts r + 1;
              Job.max_retries := Job.max_retries r;
              Job.created_at := Job.created_at r; Job.updated_at := now;
              Job.run_at := Job.run_at r; Job.last_error := Job.last_error r;
              Job.priority := Job.priority r; Job.locked_by := Some worker;
              Job.lock_until := Some (Util.toISOString (now + 60000)) |}.
    set (c := {| Job.id := Job.id r |}).
    split_and!; [exact Hsplit | by apply claimable_selection | | | |].
    + intros y Hy Hcy. apply claimable_selection in Hcy.
      specialize (Hfirst y Hy Hcy). apply claim_order_false in Hfirst. lia.
    + reflexivity.
    + destruct (reread_Some_ex (l1 ++ c :: l2) worker tie' c) as [j Hj];
        [apply elem_of_replace; auto | done | done |].
      exists j. split; [exact Hj|]. by eapply reread_Some.
    + intros Hold. apply reread_newest; [done | done |].
      intros y Hy. apply Hold. rewrite Hsplit. apply elem_of_replace. auto.
Qed.

(** A claim by [worker_b] on [db_stale_lock] at instant 40000: row [b] is
    the only row that satisfies the predicate. *)
Lemma claimJob_spec_witness :
  ∃ j, snd (Worker.claimJob db_stale_lock "worker_b" 40000 0 0) = Some j
       ∧ Job.locked_by j = Some "worker_b"%string
       ∧ Job.state j = processing.
Proof.
  assert (Hnd : NoDup (Job.id <$> jobs db_stale_lock)).
  { refine (bool_decide_unpack _ _). vm_compute. exact I. }
  destruct (claimJob_spec db_stale_lock "worker_b" 40000 0 0 Hnd
              ltac:(simpl; lia)) as [_ H].
  destruct H as (l1 & r & l2 & _ & _ & _ & _ & Hret & _).
  - exists (sample_row "b" pending 0 None None 500). split; [right; left|].
    by apply claimable_selection.
  - destruct Hret as (j & Hj & _ & Hl & Hs & _). exists j. auto.
Defined.

Example claimJob_on_db_stale_lock :
  Worker.claimJob db_stale_lock "worker_b" 40000 0 0
  = ({| jobs := [ sample_row "a" processing 1 (Some "worker_a"%string)
                    (Some 90000) 30000;
                  {| Job.id := "b"; Job.command := "echo ok";
                     Job.state := processing; Job.attempts := 1;
                     Job.max_retries := 3; Job.created_at := 500;
                     Job.updated_at := 40000; Job.run_at := None;
                     Job.last_error := None; Job.priority := 0;
                     Job.locked_by := Some "worker_b"%string;
                     Job.lock_until :=
                       Some "1970-01-01T00:01:40.000Z"%string |} ];
        dlq := []; config := ∅; workers := [] |},
     Some {| Job.id := "b"; Job.command := "echo ok";
             Job.state := processing; Job.attempts := 1;
             Job.max_retries := 3; Job.created_at := 500;
             Job.updated_at := 40000; Job.run_at := None;
             Job.last_error := None; Job.priority := 0;
             Job.locked_by := Some "worker_b"%string;
             Job.lock_until := Some "1970-01-01T00:01:40.000Z"%string |}).
Proof. vm_compute. reflexivity. Qed.

(** ** Point updates of the jobs table *)

Lemma sql_update_point (where_ : Job.row → bool) (set_ : Job.row → Job.row)
    (l1 l2 : list Job.row) (r : Job.row) :
  where_ r = true →
  (∀ y, y ∈ l1 ++ l2 → where_ y = false) →
  sql_update where_ set_ (l1 ++ r :: l2) = (l1 ++ set_ r :: l2, 1%nat).
Proof.
  intros Hr Hother.
  assert (Hsame : ∀ l, (∀ y, y ∈ l → where_ y = false) →
            sql_update where_ set_ l = (l, 0%nat)).
  { induction l as [|a l IH]; intros Hl; [reflexivity|].
    unfold sql_update in *. simpl. rewrite (Hl a) by left.
    specialize (IH (λ y Hy, Hl y (list_elem_of_further _ _ _ Hy))).
    injection IH as IH1 IH2. by rewrite IH1, IH2. }
  pose proof (Hsame l1 (λ y Hy, Hother y (proj2 (elem_of_app l1 l2 y) (or_introl Hy)))) as Ho1.
  pose proof (Hsame l2 (λ y Hy, Hother y (proj2 (elem_of_app l1 l2 y) (or_intror Hy)))) as Ho2.
  unfold sql_update in *. injection Ho1 as Ho1 Hn1. injection Ho2 as Ho2 Hn2.
  rewrite map_app, List.filter_app, length_app. simpl. rewrite Hr. simpl.
  rewrite Ho1, Ho2, Hn1, Hn2. reflexivity.
Qed.

Lemma NoDup_ids_split (l1 l2 : list Job.row) (r : Job.row) :
  NoDup (Job.id <$> (l1 ++ r :: l2)) →
  ∀ y, y ∈ l1 ++ l2 → Job.id y ≠ Job.id r.
Proof.
  intros Hnd y Hy Heq. rewrite fmap_app, fmap_cons in Hnd.
  apply NoDup_app in Hnd as (_ & Hdisj & Hnd2).
  apply NoDup_cons in Hnd2 as [Hr2 _].
  apply elem_of_app in Hy as [Hy | Hy].
  - apply (Hdisj (Job.id y)); [by apply list_elem_of_fmap_2|].
    rewrite Heq. left.
  - apply Hr2. rewrite <- Heq. by apply list_elem_of_fmap_2.
Qed.

Lemma update_by_id_point (set_ : Job.row → Job.row) (l1 l2 : list Job.row)
    (r : Job.row) (i : string) :
  NoDup (Job.id <$> (l1 ++ r :: l2)) → Job.id r = i →
  Worker.update_by_id i set_ (l1 ++ r :: l2) = l1 ++ set_ r :: l2.
Proof.
  intros Hnd <-. unfold Worker.update_by_id.
  rewrite sql_update_point; [reflexivity | by apply bool_decide_eq_true_2 |].
  intros y Hy. apply bool_decide_eq_false_2. by eapply NoDup_ids_split.
Qed.

Lemma holds_in_replace (l1 l2 : list Job.row) (r c : Job.row) (w : string)
    (j : Job.row) :
  holds_in (l1 ++ r :: l2) w j →
  ¬ (Job.state r = processing ∧ Job.locked_by r = Some w) →
  holds_in (l1 ++ c :: l2) w j.
Proof.
  intros (r0 & Hin & Hs & Hl & Hrest) Hnot.
  exists r0. split; [|auto].
  apply (elem_of_replace l1 l2 r r0) in Hin as [-> | Hin].
  - destruct Hnot. auto.
  - apply (elem_of_replace l1 l2 c r0). auto.
Qed.

Lemma dlq_ok_in_replace (l1 l2 : list Job.row) (r c : Job.row) (d : Dlq.row) :
  dlq_ok_in (l1 ++ r :: l2) d → Job.state r ≠ dead →
  dlq_ok_in (l1 ++ c :: l2) d.
Proof.
  intros (Hid & r0 & Hin & Hs & Hrest) Hnot. split; [exact Hid|].
  exists r0. split; [|auto].
  apply (elem_of_replace l1 l2 r r0) in Hin as [-> | Hin]; [done|].
  apply (elem_of_replace l1 l2 c r0). auto.
Qed.

(** Replacing one row by a row with the same id keeps the invariant,
    provided the new row is well formed and no worker or DLQ entry relied on
    the old one. *)
Lemma invariant_replace (s s' : System) (l1 l2 : list Job.row)
    (r c : Job.row) :
  invariant s →
  jobs (db_of s) = l1 ++ r :: l2 →
  jobs (db_of s') = l1 ++ c :: l2 →
  Job.id c = Job.id r →
  lease_ok c →
  attempts_ok (claimed s') c →
  (∀ i, i ∈ claimed s' ↔ i ∈ claimed s ∨ (i = Job.id r ∧ i ∈ claimed s')) →
  (∀ w j b, currentJob s' !! w = Some (j, b) →
     (currentJob s !! w = Some (j, b)
      ∧ ¬ (Job.state r = processing ∧ Job.locked_by r = Some w))
     ∨ holds_in (l1 ++ c :: l2) w j) →
  (∀ d, d ∈ dlq (db_of s') →
     (d ∈ dlq (db_of s) ∧ Job.state r ≠ dead) ∨ dlq_ok_in (l1 ++ c :: l2) d) →
  invariant s'.
Proof.
  intros [Hids Hcl Hrows Hcur Hdlq] Hjobs Hjobs' Hid Hlease Hatt Hclaimed
    Hcur' Hdlq'.
  rewrite Hjobs in *.
  assert (Hsame_ids : Job.id <$> (l1 ++ c :: l2) = Job.id <$> (l1 ++ r :: l2)).
  { rewrite !fmap_app, !fmap_cons. by rewrite Hid. }
  split; rewrite Hjobs'.
  - by rewrite Hsame_ids.
  - intros i Hi. rewrite Hsame_ids. apply Hclaimed in Hi as [Hi | [-> _]].
    + by apply Hcl.
    + rewrite fmap_app, fmap_cons, elem_of_app, elem_of_cons. auto.
  - intros y [-> | Hy]%elem_of_replace; [done|].
    assert (Hy' : y ∈ l1 ++ r :: l2) by (apply elem_of_replace; auto).
    destruct (Hrows y Hy') as [Hl (Ha1 & Ha2 & Ha3 & Ha4)].
    split; [exact Hl|].
    pose proof (NoDup_ids_split l1 l2 r Hids y Hy) as Hne.
    assert (Hiff : Job.id y ∈ claimed s' ↔ Job.id y ∈ claimed s).
    { rewrite Hclaimed. split; [intros [? | [? _]]; done | auto]. }
    split_and!; [| | exact Ha3 | exact Ha4].
    + intros Hn. apply Ha1. by rewrite <- Hiff.
    + intros Hn. apply Ha2. by rewrite <- Hiff.
  - intros w j b Hw. destruct (Hcur' w j b Hw) as [[Hold Hnot] | Hnew]; [|done].
    eapply holds_in_replace; [by eapply Hcur | exact Hnot].
  - intros d Hd. destruct (Hdlq' d Hd) as [[Hold Hnot] | Hnew]; [|done].
    eapply dlq_ok_in_replace; [by apply Hdlq | exact Hnot].
Qed.

(** ** The invariant is kept by every call *)

Lemma invariant_initial : invariant initial.
Proof.
  split; simpl.
  - constructor.
  - intros i Hi. by apply elem_of_empty in Hi.
  - intros r Hr. by apply elem_of_nil in Hr.
  - intros w j b Hw. by rewrite lookup_empty in Hw.
  - intros d Hd. by apply elem_of_nil in Hd.
Qed.

(** Calls that leave the jobs and dlq tables alone, and at most forget a
    current job. *)
Lemma invariant_ext (s s' : System) :
  invariant s →
  jobs (db_of s') = jobs (db_of s) →
  dlq (db_of s') = dlq (db_of s) →
  claimed s' = claimed s →
  (∀ w j, currentJob s' !! w = Some j → currentJob s !! w = Some j) →
  invariant s'.
Proof.
  intros [Hids Hcl Hrows Hcur Hdlq] Hj Hd Hc Hw.
  split; rewrite ?Hj, ?Hd, ?Hc; eauto.
Qed.

Lemma holds_in_app (rows more : list Job.row) (w : string) (j : Job.row) :
  holds_in rows w j → holds_in (rows ++ more) w j.
Proof.
  intros (r & Hin & H). exists r. split; [|exact H].
  apply elem_of_app. auto.
Qed.

Lemma dlq_ok_in_app (rows more : list Job.row) (d : Dlq.row) :
  dlq_ok_in rows d → dlq_ok_in (rows ++ more) d.
Proof.
  intros (Hid & r & Hin & H). split; [exact Hid|]. exists r.
  split; [|exact H]. apply elem_of_app. auto.
Qed.

(** Appending a fresh [pending] row, as [enqueue] does. *)
Lemma invariant_append (s s' : System) (r : Job.row) :
  invariant s →
  jobs (db_of s') = jobs (db_of s) ++ [r] →
  dlq (db_of s') = dlq (db_of s) →
  claimed s' = claimed s →
  currentJob s' = currentJob s →
  Job.id r ∉ (Job.id <$> jobs (db_of s)) →
  Job.state r = pending → Job.attempts r = 0 →
  Job.locked_by r = None → Job.lock_until r = None →
  invariant s'.
Proof.
  intros [Hids Hcl Hrows Hcur Hdlq] Hj Hd Hc Hw Hfresh Hst Hat Hlb Hlu.
  split; rewrite ?Hj, ?Hd, ?Hc, ?Hw.
  - rewrite fmap_app. apply NoDup_app. split_and!; [exact Hids | | ].
    + intros i Hi [->|Hn]%elem_of_cons; [done | by apply elem_of_nil in Hn].
    + apply NoDup_singleton.
  - intros i Hi. rewrite fmap_app, elem_of_app. left. by apply Hcl.
  - intros y [Hy | Hy]%elem_of_app; [by apply Hrows|].
    apply list_elem_of_singleton in Hy as ->. split.
    + unfold lease_ok. by rewrite Hst.
    + unfold attempts_ok. split_and!.
      * done.
      * intros Hin. destruct Hfresh. by apply Hcl.
      * rewrite Hst. discriminate.
      * lia.
  - intros w j b Hwj. apply holds_in_app. by eapply Hcur.
  - intros d Hdd. apply dlq_ok_in_app. by apply Hdlq.
Qed.

Lemma invariant_enqueue (s : System) (job : Queue.job_arg) (nanoid : string)
    (now : Timestamp) :
  invariant s → invariant (exec s (Enqueue job nanoid now)).
Proof.
  intros Hinv. cbn [exec].
  destruct (Queue.enqueue (db_of s) job nanoid now) as [[db' i]|msg] eqn:E.
  - apply enqueue_Ok_inv in E
      as (r & Hj & Hd & Hfresh & _ & Hst & Hat & _ & Hlb & Hlu).
    by eapply (invariant_append s _ r).
  - by apply (invariant_ext s).
Qed.

Lemma claimable_state (now : Timestamp) (r : Job.row) :
  Worker.claimable now r = true →
  Job.state r = pending ∨ Job.state r = failed.
Proof.
  unfold Worker.claimable. intros H.
  apply andb_true_iff in H as [H _]. apply andb_true_iff in H as [H _].
  apply orb_true_iff in H as [H | H]; apply bool_decide_eq_true in H; auto.
Qed.

Lemma invariant_claim (s : System) (w : string) (now : Timestamp)
    (tie tie' : nat) :
  invariant s → invariant (exec s (Claim w now tie tie')).
Proof.
  intros Hinv. cbn [exec].
  destruct (currentJob s !! w) as [busy|] eqn:Hidle; [exact Hinv|].
  destruct (Worker.select_claimable (jobs (db_of s)) now tie) as [r|] eqn:Hsel.
  2:{ rewrite (claimJob_idle _ w now tie tie' Hsel). cbn [fst snd].
      by apply (invariant_ext s). }
  destruct (select_claimable_Some _ _ _ _ Hsel)
    as (l1 & l2 & Hsplit & Hr & _).
  rewrite (claimJob_picked _ w now tie tie' r l1 l2 (inv_ids s Hinv) Hsel
             Hsplit).
  cbn [fst snd].
  set (c := Worker.set_claimed w (Util.addSeconds now 60) now r).
  assert (Hrin : r ∈ jobs (db_of s)).
  { rewrite Hsplit, elem_of_app, elem_of_cons. auto. }
  destruct (inv_rows s Hinv r Hrin) as [Hlease (Ha1 & Ha2 & Ha3 & Ha4)].
  pose proof (claimable_state now r Hr) as Hstate.
  eapply (invariant_replace s _ l1 l2 r c Hinv Hsplit); cbn [db_of jobs dlq claimed currentJob].
  - reflexivity.
  - reflexivity.
  - unfold lease_ok. simpl. split; discriminate.
  - unfold attempts_ok. simpl. split_and!.
    + intros Hn. destruct Hn. apply elem_of_union. left.
      by apply elem_of_singleton.
    + intros _. split; [discriminate|].
      destruct (decide (Job.id r ∈ claimed s)) as [Hin | Hout].
      * destruct (Ha2 Hin). lia.
      * destruct (Ha1 Hout). lia.
    + discriminate.
    + intros Hmax. destruct Hstate as [Hp | Hf].
      * destruct (decide (Job.id r ∈ claimed s)) as [Hin | Hout].
        -- by destruct (Ha2 Hin).
        -- destruct (Ha1 Hout). lia.
      * specialize (Ha3 Hf). lia.
  - intros i. rewrite elem_of_union, elem_of_singleton. tauto.
  - intros w0 j0 b0 Hw0.
    destruct (Worker.reread (l1 ++ c :: l2) w tie') as [j|] eqn:Hre.
    + destruct (decide (w0 = w)) as [-> | Hne].
      * rewrite lookup_insert_eq in Hw0. injection Hw0 as <- _.
        apply reread_Some in Hre as (Hj & Hl & Hs & _).
        right. exists j. auto.
      * rewrite lookup_insert_ne in Hw0 by done. left. split; [done|].
        intros [Hs _]. destruct Hstate; congruence.
    + left. split; [done|]. intros [Hs _]. destruct Hstate; congruence.
  - intros d Hd. left. split; [done|]. destruct Hstate; congruence.
Qed.

Lemma fixed_columns_eq (r j : Job.row) :
  fixed_columns r = fixed_columns j →
  Job.id r = Job.id j ∧ Job.command r = Job.command j
  ∧ Job.priority r = Job.priority j ∧ Job.max_retries r = Job.max_retries j
  ∧ Job.created_at r = Job.created_at j.
Proof. unfold fixed_columns. intros [= ? ? ? ? ?]. auto. Qed.

(** The row behind a current job, and the rest of the table. *)
Lemma holds_in_split (rows : list Job.row) (w : string) (j : Job.row) :
  holds_in rows w j →
  ∃ l1 r l2, rows = l1 ++ r :: l2
    ∧ Job.state r = processing ∧ Job.locked_by r = Some w
    ∧ Job.attempts r = Job.attempts j
    ∧ fixed_columns r = fixed_columns j.
Proof.
  intros (r & Hin & H). apply list_elem_of_split in Hin as (l1 & l2 & ->).
  by exists l1, r, l2.
Qed.

Lemma processing_claimed (ids : gset string) (r : Job.row) :
  attempts_ok ids r → Job.state r = processing →
  Job.id r ∈ ids ∧ 1 ≤ Job.attempts r.
Proof.
  intros (Ha1 & Ha2 & _) Hs.
  destruct (decide (Job.id r ∈ ids)) as [Hin | Hout].
  - split; [exact Hin | by destruct (Ha2 Hin)].
  - destruct (Ha1 Hout). congruence.
Qed.

Lemma invariant_refresh (s : System) (w : string) (now : Timestamp) :
  invariant s → invariant (exec s (RefreshLock w now)).
Proof.
  intros Hinv. cbn [exec].
  destruct (currentJob s !! w) as [[j b]|] eqn:Hcur;
    [|by apply (invariant_ext s)].
  cbn [fmap option_fmap option_map fst].
  destruct (holds_in_split _ _ _ (inv_current s Hinv w j b Hcur))
    as (l1 & r & l2 & Hsplit & Hs & Hl & Hat & Hfix).
  destruct (fixed_columns_eq _ _ Hfix) as (Hid & _).
  pose proof (inv_ids s Hinv) as Hnd. rewrite Hsplit in Hnd.
  assert (Hrin : r ∈ jobs (db_of s)).
  { rewrite Hsplit, elem_of_app, elem_of_cons. auto. }
  destruct (inv_rows s Hinv r Hrin) as [Hlease Hatt].
  set (c := Worker.set_lock_until (Util.addSeconds now 60) r).
  eapply (invariant_replace s _ l1 l2 r c Hinv Hsplit);
    cbn [db_of jobs dlq claimed currentJob Worker.refreshLock].
  - rewrite Hsplit. rewrite sql_update_point; [reflexivity | |].
    + rewrite Hid, Hl. by rewrite !bool_decide_eq_true_2.
    + intros y Hy. apply andb_false_iff. left. apply bool_decide_eq_false_2.
      rewrite <- Hid. by eapply NoDup_ids_split.
  - reflexivity.
  - unfold lease_ok. simpl. rewrite Hs, Hl. split; discriminate.
  - exact Hatt.
  - tauto.
  - intros w0 j0 b0 Hw0. destruct (decide (w0 = w)) as [-> | Hne].
    + right. rewrite Hcur in Hw0. injection Hw0 as <- _.
      exists c. split_and!; [|done..].
      rewrite elem_of_app, elem_of_cons. auto.
    + left. split; [done|]. intros [_ Hl']. congruence.
  - intros d Hd. left. split; [done | congruence].
Qed.

Lemma insert_dlq_inv (d : Dlq.row) (rows rows' : list Dlq.row) :
  insert_dlq d rows = Ok rows' → rows' = rows ++ [d].
Proof.
  unfold insert_dlq. destruct (existsb _ rows); [discriminate|].
  by intros [= <-].
Qed.

Lemma invariant_resolve (s : System) (w : string) (o : Worker.exec_outcome)
    (now deadAt : Timestamp) :
  invariant s → invariant (exec s (Resolve w o now deadAt)).
Proof.
  intros Hinv. cbn [exec].
  destruct (currentJob s !! w) as [[j b]|] eqn:Hcur; [|exact Hinv].
  destruct (holds_in_split _ _ _ (inv_current s Hinv w j b Hcur))
    as (l1 & r & l2 & Hsplit & Hs & Hl & Hat & Hfix).
  destruct (fixed_columns_eq _ _ Hfix) as (Hid & Hcmd & Hprio & Hmax & _).
  pose proof (inv_ids s Hinv) as Hnd. rewrite Hsplit in Hnd.
  assert (Hrin : r ∈ jobs (db_of s)).
  { rewrite Hsplit, elem_of_app, elem_of_cons. auto. }
  destruct (inv_rows s Hinv r Hrin) as [Hlease Hatt].
  destruct (processing_claimed _ _ Hatt Hs) as [Hclaimed Hge].
  destruct Hatt as (Ha1 & Ha2 & Ha3 & Ha4).
  assert (Hothers : ∀ w0 j0 b0,
            delete w (currentJob s) !! w0 = Some (j0, b0) →
            (currentJob s !! w0 = Some (j0, b0)
             ∧ ¬ (Job.state r = processing ∧ Job.locked_by r = Some w0))).
  { intros w0 j0 b0 Hw0. apply lookup_delete_Some in Hw0 as [Hne Hw0].
    split; [done|]. intros [_ Hl']. congruence. }
  assert (Hforget : invariant {| db_of := db_of s;
                                 currentJob := delete w (currentJob s);
                                 claimed := claimed s |}).
  { apply (invariant_ext s); try done. intros w0 [j0 b0] Hw0.
    by apply Hothers. }
  unfold Worker.processJob.
  replace (if Job.attempts j =? 0 then 1 else Job.attempts j)
    with (Job.attempts r) by (rewrite <- Hat; destruct (Z.eqb_spec (Job.attempts r) 0); lia).
  rewrite Hsplit, <- Hmax.
  destruct (Worker.executeCommand o) as [out err | error stderr code].
  - (* success *)
    cbn [after].
    eapply (invariant_replace s _ l1 l2 r (Worker.set_completed now r) Hinv Hsplit);
      cbn [db_of jobs dlq claimed currentJob].
    + by apply update_by_id_point.
    + reflexivity.
    + unfold lease_ok. by simpl.
    + rewrite Hs in Ha2. solve_attempts.
    + tauto.
    + intros w0 j0 b0 Hw0. left. by apply Hothers.
    + intros d Hd. left. split; [done | congruence].
  - destruct (Job.attempts r <? Job.max_retries r) eqn:Hretry.
    + (* retry *)
      destruct (Util.valid_time _); cbn [after]; [|exact Hforget].
      eapply (invariant_replace s _ l1 l2 r _ Hinv Hsplit);
        cbn [db_of jobs dlq claimed currentJob].
      * by apply update_by_id_point.
      * reflexivity.
      * unfold lease_ok. simpl. split_and!; [done | discriminate | done].
      * solve_attempts.
      * tauto.
      * intros w0 j0 b0 Hw0. left. by apply Hothers.
      * intros d Hd. left. split; [done | congruence].
    + (* retries exhausted *)
      destruct (insert_dlq _ (dlq (db_of s))) as [dlq'|msg] eqn:Hins;
        cbn [after]; [|exact Hforget].
      apply insert_dlq_inv in Hins as ->.
      eapply (invariant_replace s _ l1 l2 r _ Hinv Hsplit);
        cbn [db_of jobs dlq claimed currentJob].
      * by apply update_by_id_point.
      * reflexivity.
      * unfold lease_ok. by simpl.
      * rewrite Hs in Ha2. solve_attempts.
      * tauto.
      * intros w0 j0 b0 Hw0. left. by apply Hothers.
      * intros d [Hd | Hd]%elem_of_app.
        -- left. split; [done | congruence].
        -- right. apply list_elem_of_singleton in Hd as ->.
           split; [reflexivity|]. simpl.
           eexists. split; [rewrite elem_of_app, elem_of_cons; eauto|].
           simpl. split_and!; try done.
           unfold Worker.snapshot. simpl. by rewrite Hid, Hcmd, Hmax, Hprio.
Qed.

(** In a state that satisfies the invariant the job row of every DLQ entry
    is still in the table, so the INSERT of [dlqRetry] hits the primary key
    and the call throws. *)
Lemma dlqRetry_throws (s : System) (id : string) (now : Timestamp) :
  invariant s → ∃ msg, Queue.dlqRetry (db_of s) id now = Throw msg.
Proof.
  intros Hinv. unfold Queue.dlqRetry.
  destruct (List.find _ (dlq (db_of s))) as [d|] eqn:Hfind; [|eauto].
  apply find_some in Hfind as [Hd _]. apply list_elem_of_In in Hd.
  destruct (inv_dlq s Hinv d Hd) as (_ & r & Hr & _ & Hid & Hpay).
  rewrite insert_job_Throw; [eauto|]. simpl.
  rewrite Hpay. simpl. by apply list_elem_of_fmap_2.
Qed.

Lemma invariant_exec (s : System) (c : call) :
  invariant s → invariant (exec s c).
Proof.
  intros Hinv. destruct c as [job nanoid now | w now tie tie' | w now
                             | w o now deadAt | w | id now | w pid now
                             | key val].
  - by apply invariant_enqueue.
  - by apply invariant_claim.
  - by apply invariant_refresh.
  - by apply invariant_resolve.
  - apply (invariant_ext s); try done. cbn [exec currentJob].
    intros w0 j0 Hw0. by apply lookup_delete_Some in Hw0 as [_ ?].
  - cbn [exec]. destruct (dlqRetry_throws s id now Hinv) as [msg ->].
    exact Hinv.
  - by apply (invariant_ext s).
  - by apply (invariant_ext s).
Qed.

Lemma reachable_invariant (s : System) : reachable s → invariant s.
Proof.
  induction 1 as [|s c _ IH]; [apply invariant_initial | by apply invariant_exec].
Qed.

Lemma reachable_run (calls : list call) : reachable (run calls).
Proof.
  unfold run. generalize reachable_initial. generalize initial.
  induction calls as [|c calls IH]; intros s Hs; [exact Hs|].
  simpl. apply IH. by constructor.
Qed.

(** ** Lease columns *)

Example run_retry_jobs :
  jobs (db_of (run run_retry))
  = [ {| Job.id := "t2"; Job.command := "exit 1"; Job.state := failed;
         Job.attempts := 1; Job.max_retries := 2; Job.created_at := 1000;
         Job.updated_at := 3000;
         Job.run_at := Some "1970-01-01T00:00:05.000Z"%string;
         Job.last_error := Some "exit=1: Command failed: exit 1"%string;
         Job.priority := 0; Job.locked_by := None;
         Job.lock_until := Some "1970-01-01T00:00:05.000Z"%string |} ].
Proof. vm_compute. reflexivity. Qed.

Example run_dead_tables :
  jobs (db_of (run run_dead))
  = [ {| Job.id := "t2"; Job.command := "exit 1"; Job.state := dead;
         Job.attempts := 1; Job.max_retries := 1; Job.created_at := 1000;
         Job.updated_at := 3001; Job.run_at := None;
         Job.last_error := Some "exit=1: Command failed: exit 1"%string;
         Job.priority := 0; Job.locked_by := None;
         Job.lock_until := None |} ]
  ∧ dlq (db_of (run run_dead))
    = [ {| Dlq.id := "dlq_t2"; Dlq.job_id := "t2";
           Dlq.payload := {| p_id := "t2"; p_command := "exit 1";
                             p_max_retries := Some 1;
                             p_priority := Some 0 |};
           Dlq.dead_at := 3001 |} ].
Proof. vm_compute. split; reflexivity. Qed.

(** C3, as stated, fails: a retry leaves the row in state [failed] with
    [lock_until] set to the retry instant.  After job [t2] (two attempts
    allowed) has failed once, its row is [failed] with
    [lock_until = run_at = now + 2 s], not null. *)
Lemma failed_row_keeps_lock_until :
  ¬ (∀ (s : System) (r : Job.row),
       reachable s → r ∈ jobs (db_of s) → lease_as_specified r).
Proof.
  intros H.
  destruct (H (run run_retry)
              {| Job.id := "t2"; Job.command := "exit 1"; Job.state := failed;
                 Job.attempts := 1; Job.max_retries := 2;
                 Job.created_at := 1000; Job.updated_at := 3000;
                 Job.run_at := Some "1970-01-01T00:00:05.000Z"%string;
                 Job.last_error := Some "exit=1: Command failed: exit 1"%string;
                 Job.priority := 0; Job.locked_by := None;
                 Job.lock_until := Some "1970-01-01T00:00:05.000Z"%string |})
    as [_ Hnull].
  - apply reachable_run.
  - rewrite run_retry_jobs. left.
  - destruct Hnull as [_ Hnull]; [discriminate | discriminate Hnull].
Qed.

(** C3 (amended): in every state reachable by enqueue, claim, outcome
    resolution, lock refresh and dlq_retry (and by heartbeats, config
    updates and worker crashes), a [processing] row has both [locked_by]
    and [lock_until]; a [pending], [completed] or [dead] row has neither;
    a [failed] row has no [locked_by] and carries [lock_until = run_at],
    which is not null. *)
Theorem lease_invariant (s : System) (r : Job.row) :
  reachable s → r ∈ jobs (db_of s) →
  (Job.state r = processing →
   Job.locked_by r ≠ None ∧ Job.lock_until r ≠ None)
  ∧ (Job.state r = pending ∨ Job.state r = completed ∨ Job.state r = dead →
     Job.locked_by r = None ∧ Job.lock_until r = None)
  ∧ (Job.state r = failed →
     Job.locked_by r = None ∧ Job.lock_until r ≠ None
     ∧ Job.lock_until r = Job.run_at r).
Proof.
  intros Hs Hr.
  destruct (inv_rows s (reachable_invariant s Hs) r Hr) as [Hlease _].
  unfold lease_ok in Hlease.
  destruct (Job.state r); split_and!; intros H; try done;
    destruct H as [H | [H | H]]; done.
Qed.

(** The [failed] row of [run_retry]. *)
Lemma lease_invariant_witness :
  ∃ r, r ∈ jobs (db_of (run run_retry))
       ∧ Job.state r = failed
       ∧ Job.locked_by r = None
       ∧ Job.lock_until r = Some "1970-01-01T00:00:05.000Z"%string
       ∧ Job.lock_until r = Job.run_at r.
Proof.
  eexists. split; [rewrite run_retry_jobs; left|].
  split; [reflexivity|].
  destruct (lease_invariant (run run_retry) _ (reachable_run run_retry)
              ltac:(rewrite run_retry_jobs; left)) as (_ & _ & H).
  destruct (H eq_refl) as (H1 & _ & H3).
  split_and!; [exact H1 | reflexivity | exact H3].
Defined.

(** ** Attempts *)

Example run_claimed_state :
  jobs (db_of (run run_claimed))
  = [ {| Job.id := "t2"; Job.command := "exit 1"; Job.state := processing;
         Job.attempts := 1; Job.max_retries := 2; Job.created_at := 1000;
         Job.updated_at := 2000; Job.run_at := None; Job.last_error := None;
         Job.priority := 0; Job.locked_by := Some "worker_a"%string;
         Job.lock_until := Some "1970-01-01T00:01:02.000Z"%string |} ]
  ∧ currentJob (run run_claimed) !! "worker_a"%string
    = Some ({| Job.id := "t2"; Job.command := "exit 1";
               Job.state := processing; Job.attempts := 1;
               Job.max_retries := 2; Job.created_at := 1000;
               Job.updated_at := 2000; Job.run_at := None;
               Job.last_error := None; Job.priority := 0;
               Job.locked_by := Some "worker_a"%string;
               Job.lock_until := Some "1970-01-01T00:01:02.000Z"%string |}, 2).
Proof. vm_compute. split; reflexivity. Qed.

(** C4, as stated, fails on the bound: [enqueue] does not check
    [max_retries], and a row enqueued with [max_retries = -5] has
    [attempts = 0 > max_retries + 1] from the start. *)
Lemma negative_max_retries_breaks_bound :
  ¬ (∀ (s : System) (r : Job.row),
       reachable s → r ∈ jobs (db_of s) →
       Job.attempts r ≤ Job.max_retries r + 1).
Proof.
  intros H.
  specialize (H (run run_negative_budget)
                {| Job.id := "neg"; Job.command := "true"; Job.state := pending;
                   Job.attempts := 0; Job.max_retries := -5;
                   Job.created_at := 1000; Job.updated_at := 1000;
                   Job.run_at := None; Job.last_error := None;
                   Job.priority := 0; Job.locked_by := None;
                   Job.lock_until := None |}
                (reachable_run run_negative_budget)).
  simpl in H. enough (0 ≤ -5 + 1) by lia. apply H. vm_compute. left.
Qed.

(** C4 (amended): in every state reachable by enqueue, claim, outcome
    resolution and dlq_retry (and by lock refreshes, heartbeats, config
    updates and worker crashes), a job row has [attempts = 0] exactly when no
    claim has updated it since the row was inserted, and a row whose
    [max_retries] is not negative has [attempts <= max_retries + 1]. *)
Theorem attempts_invariant (s : System) (r : Job.row) :
  reachable s → r ∈ jobs (db_of s) →
  (Job.attempts r = 0 ↔ Job.id r ∉ claimed s)
  ∧ (0 ≤ Job.max_retries r → Job.attempts r ≤ Job.max_retries r + 1).
Proof.
  intros Hs Hr.
  destruct (inv_rows s (reachable_invariant s Hs) r Hr)
    as [_ (Ha1 & Ha2 & _ & Ha4)].
  split; [|exact Ha4]. split.
  - intros H0 Hin. destruct (Ha2 Hin). lia.
  - intros Hout. by destruct (Ha1 Hout).
Qed.

(** The claimed row of [run_claimed]: one attempt out of two. *)
Lemma attempts_invariant_witness :
  ∃ r, r ∈ jobs (db_of (run run_claimed))
       ∧ Job.attempts r = 1 ∧ Job.max_retries r = 2
       ∧ Job.id r ∈ claimed (run run_claimed)
       ∧ Job.attempts r ≤ Job.max_retries r + 1.
Proof.
  eexists. split; [rewrite (proj1 run_claimed_state); left|].
  split; [reflexivity|]. split; [reflexivity|].
  destruct (attempts_invariant (run run_claimed) _ (reachable_run run_claimed)
              ltac:(rewrite (proj1 run_claimed_state); left)) as [Hiff Hle].
  split.
  - destruct (decide ("t2"%string ∈ claimed (run run_claimed))) as [Hin | Hout];
      [exact Hin|].
    apply Hiff in Hout. discriminate Hout.
  - apply Hle. simpl. lia.
Defined.

(** ** Worker: [processJob] *)

Lemma NoDup_ids_eq (rows : list Job.row) (r1 r2 : Job.row) :
  NoDup (Job.id <$> rows) → r1 ∈ rows → r2 ∈ rows →
  Job.id r1 = Job.id r2 → r1 = r2.
Proof.
  intros Hnd H1 H2 Heq.
  apply list_elem_of_split in H1 as (l1 & l2 & ->).
  apply elem_of_replace in H2 as [-> | H2]; [reflexivity|].
  by destruct (NoDup_ids_split l1 l2 r1 Hnd r2 H2).
Qed.

Lemma insert_dlq_Ok (d : Dlq.row) (rows : list Dlq.row) :
  Dlq.id d ∉ (Dlq.id <$> rows) → insert_dlq d rows = Ok (rows ++ [d]).
Proof.
  intros Hfresh. unfold insert_dlq.
  destruct (existsb _ rows) eqn:E; [|reflexivity].
  apply existsb_exists in E as (x & Hx & Heq).
  apply bool_decide_eq_true in Heq. destruct Hfresh. rewrite <- Heq.
  apply list_elem_of_fmap_2. by apply list_elem_of_In.
Qed.

(** No DLQ entry is named after a job that a worker is processing: the
    INSERT of the dead-letter transaction cannot hit the primary key. *)
Lemma dlq_id_fresh (s : System) (w : string) (j : Job.row) :
  invariant s → holds_in (jobs (db_of s)) w j →
  ("dlq_" +:+ Job.id j)%string ∉ (Dlq.id <$> dlq (db_of s)).
Proof.
  intros Hinv (r & Hr & Hs & _ & _ & Hfix) Hin.
  destruct (fixed_columns_eq _ _ Hfix) as (Hid & _).
  apply list_elem_of_fmap in Hin as (d & Hd & Hdin).
  destruct (inv_dlq s Hinv d Hdin) as (Hname & r0 & Hr0 & Hdead & Hid0 & _).
  rewrite Hname in Hd. apply String.app_inj in Hd.
  assert (r0 = r).
  { eapply NoDup_ids_eq; [by apply inv_ids | done | done | congruence]. }
  congruence.
Qed.










(** ** Queue API: [dlqRetry] *)

Lemma find_dlq_None (id : string) (rows : list Dlq.row) :
  (∀ d, d ∈ rows → Dlq.id d ≠ id) →
  List.find (λ d, bool_decide (Dlq.id d = id)) rows = None.
Proof.
  intros H. destruct (List.find _ rows) as [d|] eqn:E; [|reflexivity].
  apply find_some in E as [Hd Heq]. apply bool_decide_eq_true in Heq.
  apply list_elem_of_In in Hd. by destruct (H d Hd).
Qed.

Lemma find_dlq_Some (id : string) (rows : list Dlq.row) (d : Dlq.row) :
  NoDup (Dlq.id <$> rows) → d ∈ rows → Dlq.id d = id →
  List.find (λ d, bool_decide (Dlq.id d = id)) rows = Some d.
Proof.
  intros Hnd Hd Hid. induction rows as [|a rows IH]; [by apply elem_of_nil in Hd|].
  rewrite fmap_cons in Hnd. apply NoDup_cons in Hnd as [Ha Hnd].
  simpl. apply elem_of_cons in Hd as [<- | Hd].
  - by rewrite bool_decide_eq_true_2.
  - rewrite bool_decide_eq_false_2; [by apply IH|].
    intros Heq. apply Ha. rewrite Heq, <- Hid. by apply list_elem_of_fmap_2.
Qed.

(** What [dlqRetry] does on an arbitrary database: an unknown id is an
    error; a known entry is deleted and its job re-created as a fresh
    [pending] row, provided no job row carries the id of the payload. *)
Lemma dlqRetry_cases (db : DB) (id : string) (now : Timestamp) :
  ((∀ d, d ∈ dlq db → Dlq.id d ≠ id) →
   Queue.dlqRetry db id now = Throw ("DLQ item not found: " +:+ id))
  ∧ (∀ d, NoDup (Dlq.id <$> dlq db) → d ∈ dlq db → Dlq.id d = id →
       (p_id (Dlq.payload d) ∈ (Job.id <$> jobs db) →
        Queue.dlqRetry db id now = Throw "UNIQUE constraint failed: jobs.id")
       ∧ (p_id (Dlq.payload d) ∉ (Job.id <$> jobs db) →
          Queue.dlqRetry db id now
          = Ok ({| jobs :=
                     jobs db
                     ++ [ {| Job.id := p_id (Dlq.payload d);
                             Job.command := p_command (Dlq.payload d);
                             Job.state := pending; Job.attempts := 0;
                             Job.max_retries :=
                               default 3 (p_max_retries (Dlq.payload d));
                             Job.created_at := now; Job.updated_at := now;
                             Job.run_at := None; Job.last_error := None;
                             Job.priority :=
                               default 0 (p_priority (Dlq.payload d));
                             Job.locked_by := None;
                             Job.lock_until := None |} ];
                   dlq := List.filter
                            (λ x, negb (bool_decide (Dlq.id x = id))) (dlq db);
                   config := config db; workers := workers db |},
                p_id (Dlq.payload d)))).
Proof.
  split.
  - intros H. unfold Queue.dlqRetry. by rewrite find_dlq_None.
  - intros d Hnd Hd Hid. unfold Queue.dlqRetry.
    rewrite (find_dlq_Some id _ d Hnd Hd Hid). split; intros Hjob.
    + by rewrite insert_job_Throw.
    + by rewrite insert_job_Ok.
Qed.

(** In every reachable state [dlqRetry] throws, whatever the id: either
    the entry is unknown, or its [dead] job row is still in the table and
    the INSERT violates the primary key.  The transaction is rolled back, so
    the DLQ entry stays. *)
Lemma dlqRetry_never_succeeds (s : System) (id : string) (now : Timestamp) :
  reachable s →
  ∃ msg, Queue.dlqRetry (db_of s) id now = Throw msg
         ∧ exec s (DlqRetry id now) = s.
Proof.
  intros Hs.
  destruct (dlqRetry_throws s id now (reachable_invariant s Hs)) as [msg H].
  exists msg. split; [exact H|]. cbn [exec]. by rewrite H.
Qed.

(** C5, at the input where the code fails: after job [t2] has been moved to
    the DLQ ([run_dead]) the entry [dlq_t2] exists, the [dead] row [t2] is
    still in the jobs table, and [dlqRetry('dlq_t2')] throws instead of
    re-creating the job; an unknown id throws the not-found error. *)
Theorem dlqRetry_after_dead_letter :
  Dlq.id <$> dlq (db_of (run run_dead)) = ["dlq_t2"%string]
  ∧ (Job.id <$> jobs (db_of (run run_dead)) = ["t2"%string]
     ∧ Job.state <$> jobs (db_of (run run_dead)) = [dead])
  ∧ Queue.dlqRetry (db_of (run run_dead)) "dlq_t2" 4000
    = Throw "UNIQUE constraint failed: jobs.id"
  ∧ Queue.dlqRetry (db_of (run run_dead)) "dlq_t9" 4000
    = Throw "DLQ item not found: dlq_t9".
Proof. vm_compute. split_and!; reflexivity. Qed.

(** [dlqRetry('dlq_t2')] after [run_dead]. *)
Lemma dlqRetry_never_succeeds_witness :
  ∃ msg, Queue.dlqRetry (db_of (run run_dead)) "dlq_t2" 4000 = Throw msg.
Proof.
  destruct (dlqRetry_never_succeeds (run run_dead) "dlq_t2" 4000
              (reachable_run run_dead)) as (msg & H & _).
  by exists msg.
Defined.

(** ** Leases that are never taken over *)

(** A row in state [processing] does not satisfy the claim predicate,
    whatever its [lock_until]: no claim selects it, also long after its lease
    has run out. *)
Lemma processing_row_not_claimable (rows : list Job.row) (now : Timestamp)
    (tie : nat) (r : Job.row) :
  Job.state r = processing →
  Worker.claimable now r = false
  ∧ Worker.select_claimable rows now tie ≠ Some r.
Proof.
  intros Hs.
  assert (Hc : Worker.claimable now r = false).
  { unfold Worker.claimable. by rewrite Hs. }
  split; [exact Hc|]. intros Hsel.
  apply select_claimable_Some in Hsel as (_ & _ & _ & Hr & _). congruence.
Qed.

(** Row [a] of [db_stale_lock], whose lease ran out at instant 90000, is
    not claimed at instant 200000; the claim takes row [b]. *)
Lemma processing_row_not_claimable_witness :
  Worker.claimable 200000
    (sample_row "a" processing 1 (Some "worker_a"%string) (Some 90000) 30000)
  = false
  ∧ Job.id <$> Worker.select_claimable (jobs db_stale_lock) 200000 0
    = Some "b"%string.
Proof.
  split.
  - apply (processing_row_not_claimable (jobs db_stale_lock) 200000 0
             (sample_row "a" processing 1 (Some "worker_a"%string)
                (Some 90000) 30000)).
    reflexivity.
  - reflexivity.
Defined.

(** ** Rows are never removed *)

(** In a reachable state every call keeps the rows of the jobs table, in
    order, with their [id], [command], [priority], [max_retries] and
    [created_at]; a call can only append rows at the end. *)
Lemma exec_extends_fixed_columns (s : System) (c : call) :
  reachable s →
  (fixed_columns <$> jobs (db_of s))
    `prefix_of` (fixed_columns <$> jobs (db_of (exec s c))).
Proof.
  intros Hs.
  destruct c as [job nanoid now | w now tie tie' | w now | w o now deadAt
                | w | id now | w pid now | key val]; cbn [exec].
  - destruct (Queue.enqueue (db_of s) job nanoid now) as [[db' i]|msg] eqn:E;
      cbn [after db_of]; [|done].
    apply enqueue_Ok_inv in E as (r & -> & _).
    rewrite fmap_app. by apply prefix_app_r.
  - destruct (currentJob s !! w); [done|]. cbn [db_of].
    by rewrite (proj1 (updates_fixed_columns_claim (db_of s) w now tie tie')).
  - cbn [db_of].
    by rewrite (updates_fixed_columns_refresh (db_of s) w _ now).
  - destruct (currentJob s !! w) as [[j b]|]; [|done]. cbn [db_of].
    by rewrite (updates_fixed_columns_resolve (db_of s) j b _ now deadAt).
  - done.
  - destruct (dlqRetry_throws s id now (reachable_invariant s Hs)) as [msg ->].
    done.
  - done.
  - done.
Qed.

(** The failed attempt of [run_retry] keeps the row of [run_claimed]. *)
Lemma exec_extends_fixed_columns_witness :
  (fixed_columns <$> jobs (db_of (run run_claimed)))
    `prefix_of`
    (fixed_columns
       <$> jobs (db_of (exec (run run_claimed)
                          (Resolve "worker_a" exit_1 3000 3001)))).
Proof.
  apply (exec_extends_fixed_columns (run run_claimed)
           (Resolve "worker_a" exit_1 3000 3001)).
  apply reachable_run.
Defined.

(** * Further properties of the code *)

(** ** What one call does to the tables *)

Lemma enqueue_Ok_fresh_row (db db' : DB) (job : Queue.job_arg)
    (nanoid : string) (now : Timestamp) (i : string) :
  Queue.enqueue db job nanoid now = Ok (db', i) →
  ∃ r, jobs db' = jobs db ++ [r] ∧ dlq db' = dlq db
       ∧ config db' = config db ∧ workers db' = workers db
       ∧ (Job.id r ∉ (Job.id <$> jobs db))
       ∧ Job.id r = i
       ∧ i = Queue.id_or_generated (Queue.id job) nanoid
       ∧ Queue.command job = Some (Job.command r)
       ∧ Job.state r = pending ∧ Job.attempts r = 0
       ∧ Job.max_retries r = default 3 (Queue.max_retries job)
       ∧ Job.priority r = default 0 (Queue.priority job)
       ∧ Job.created_at r = now ∧ Job.updated_at r = now
       ∧ Job.run_at r = Queue.run_at_or_null (Queue.run_at job)
       ∧ Job.last_error r = None
       ∧ Job.locked_by r = None ∧ Job.lock_until r = None.
Proof.
  unfold Queue.enqueue. destruct (Queue.command job) as [cmd|]; [|discriminate].
  destruct (insert_job _ (jobs db)) as [rows'|] eqn:E; [|discriminate].
  intros [= <- <-]. apply insert_job_inv in E as [-> Hfresh].
  eexists. split_and!; try reflexivity. exact Hfresh.
Qed.

(** In a reachable state every call leaves the jobs and dlq tables as they
    are, appends one fresh [pending] row, or rewrites exactly one row along
    one of the five changes of [row_change]; a DLQ row is inserted only
    together with the change to [dead]. *)
Lemma exec_tables_change (s : System) (c : call) :
  reachable s → tables_change (db_of s) (db_of (exec s c)).
Proof.
  intros Hreach. pose proof (reachable_invariant s Hreach) as Hinv.
  destruct c as [job nanoid now | w now tie tie' | w now | w o now deadAt
                | w | id now | w pid now | key val]; cbn [exec].
  - (* enqueue *)
    destruct (Queue.enqueue (db_of s) job nanoid now) as [[db' i]|msg] eqn:E;
      cbn [after db_of]; [|by apply tables_kept].
    apply enqueue_Ok_fresh_row in E
      as (r & Hj & Hd & _ & _ & Hfresh & _ & _ & _ & Hst & Hat & _ & _ & _
          & _ & _ & Herr & Hlb & Hlu).
    by eapply (tables_enqueued _ _ r).
  - (* claim *)
    destruct (currentJob s !! w); [by apply tables_kept|]. cbn [db_of].
    destruct (Worker.select_claimable (jobs (db_of s)) now tie)
      as [r|] eqn:Hsel.
    2:{ rewrite (claimJob_idle _ w now tie tie' Hsel). by apply tables_kept. }
    destruct (select_claimable_Some _ _ _ _ Hsel)
      as (l1 & l2 & Hsplit & Hr & _).
    rewrite (claimJob_picked _ w now tie tie' r l1 l2 (inv_ids s Hinv) Hsel
               Hsplit).
    cbn [fst].
    eapply (tables_rewritten _ _ l1 r _ l2 []); cbn [jobs dlq];
      [exact Hsplit | reflexivity | by rewrite app_nil_r |].
    by constructor.
  - (* lock refresh *)
    destruct (currentJob s !! w) as [[j b]|] eqn:Hcur;
      cbn [fmap option_fmap option_map fst Worker.refreshLock];
      [|by apply tables_kept].
    destruct (holds_in_split _ _ _ (inv_current s Hinv w j b Hcur))
      as (l1 & r & l2 & Hsplit & Hs & Hl & Hat & Hfix).
    destruct (fixed_columns_eq _ _ Hfix) as (Hid & _).
    pose proof (inv_ids s Hinv) as Hnd. rewrite Hsplit in Hnd.
    eapply (tables_rewritten _ _ l1 r _ l2 []); cbn [jobs dlq];
      [exact Hsplit | | by rewrite app_nil_r | by apply (change_refreshed r w)].
    rewrite Hsplit. rewrite sql_update_point; [reflexivity | |].
    + rewrite Hid, Hl. by rewrite !bool_decide_eq_true_2.
    + intros y Hy. apply andb_false_iff. left. apply bool_decide_eq_false_2.
      rewrite <- Hid. by eapply NoDup_ids_split.
  - (* outcome resolution *)
    destruct (currentJob s !! w) as [[j b]|] eqn:Hcur; [|by apply tables_kept].
    cbn [db_of].
    destruct (holds_in_split _ _ _ (inv_current s Hinv w j b Hcur))
      as (l1 & r & l2 & Hsplit & Hs & Hl & Hat & Hfix).
    destruct (fixed_columns_eq _ _ Hfix) as (Hid & Hcmd & Hprio & Hmax & _).
    pose proof (inv_ids s Hinv) as Hnd. rewrite Hsplit in Hnd.
    assert (Hrin : r ∈ jobs (db_of s)).
    { rewrite Hsplit, elem_of_app, elem_of_cons. auto. }
    destruct (inv_rows s Hinv r Hrin) as [_ Hatt].
    destruct (processing_claimed _ _ Hatt Hs) as [_ Hge].
    unfold Worker.processJob.
    replace (if Job.attempts j =? 0 then 1 else Job.attempts j)
      with (Job.attempts r)
      by (rewrite <- Hat; destruct (Z.eqb_spec (Job.attempts r) 0); lia).
    rewrite Hsplit, <- Hmax.
    destruct (Worker.executeCommand o) as [out err | error stderr code].
    + cbn [after].
      eapply (tables_rewritten _ _ l1 r _ l2 []); cbn [jobs dlq];
        [exact Hsplit | by apply update_by_id_point | by rewrite app_nil_r |].
      by constructor.
    + destruct (Job.attempts r <? Job.max_retries r) eqn:Hretry.
      * destruct (Util.valid_time _) eqn:Hvalid; cbn [after];
          [|by apply tables_kept].
        eapply (tables_rewritten _ _ l1 r _ l2 []); cbn [jobs dlq];
          [exact Hsplit | by apply update_by_id_point | by rewrite app_nil_r |].
        constructor; [done | done | lia | done].
      * rewrite insert_dlq_Ok
          by (eapply dlq_id_fresh; [done | by eapply inv_current]).
        cbn [after].
        eapply (tables_rewritten _ _ l1 r _ l2); cbn [jobs dlq];
          [exact Hsplit | by apply update_by_id_point | reflexivity |].
        replace (Worker.snapshot j) with (Worker.snapshot r)
          by (unfold Worker.snapshot; by rewrite Hid, Hcmd, Hmax, Hprio).
        rewrite <- Hid. constructor; [done | done | lia].
  - by apply tables_kept.
  - destruct (dlqRetry_throws s id now Hinv) as [msg ->]. by apply tables_kept.
  - by apply tables_kept.
  - by apply tables_kept.
Qed.

Lemma row_change_facts (r r' : Job.row) (d : list Dlq.row) :
  row_change r r' d →
  fixed_columns r' = fixed_columns r
  ∧ Job.state r ≠ completed ∧ Job.state r ≠ dead
  ∧ ((Job.state r' = dead
      ∧ d = [ {| Dlq.id := "dlq_" +:+ Job.id r'; Dlq.job_id := Job.id r';
                 Dlq.payload := Worker.snapshot r';
                 Dlq.dead_at := Job.updated_at r' |} ])
     ∨ (Job.state r' ≠ dead ∧ d = [])).
Proof.
  intros H. destruct H as [r w now Hc | r w ext Hs Hl | r now Hs Ha
                          | r runAt now err Hs Ha Hlt Hvalid
                          | r deadAt err Hs Ha Hge].
  - apply claimable_state in Hc.
    split_and!; [done | destruct Hc; congruence | destruct Hc; congruence |].
    right. by split.
  - split_and!; [done | congruence | congruence |]. right.
    split; [simpl; congruence | done].
  - split_and!; [done | congruence | congruence |]. right. by split.
  - split_and!; [done | congruence | congruence |]. right. by split.
  - split_and!; [done | congruence | congruence |]. left. by split.
Qed.

(** A property of rows that holds of every freshly enqueued row and is kept
    by the five changes holds of every row of every reachable state. *)
Lemma reachable_rows_ind (P : Job.row → Prop) :
  (∀ r, Job.state r = pending → Job.attempts r = 0 →
        Job.last_error r = None →
        Job.locked_by r = None → Job.lock_until r = None → P r) →
  (∀ r r' d, row_change r r' d → P r → P r') →
  ∀ s, reachable s → ∀ r, r ∈ jobs (db_of s) → P r.
Proof.
  intros Hfresh Hkeep s Hs.
  induction Hs as [|s c Hs IH]; intros r Hr.
  - by apply elem_of_nil in Hr.
  - destruct (exec_tables_change s c Hs)
      as [Hj _ | r0 Hj _ _ Hst Hat Herr Hlb Hlu | l1 r0 r' l2 d Hj Hj' _ Hch].
    + rewrite Hj in Hr. by apply IH.
    + rewrite Hj in Hr. apply elem_of_app in Hr as [Hr | Hr]; [by apply IH|].
      apply list_elem_of_singleton in Hr as ->. by apply Hfresh.
    + rewrite Hj' in Hr. apply elem_of_replace in Hr as [-> | Hr].
      * apply (Hkeep r0 r' d Hch). apply IH. rewrite Hj.
        rewrite elem_of_app, elem_of_cons. auto.
      * apply IH. rewrite Hj. apply elem_of_replace. auto.
Qed.

(** ** Attempts and the retry budget *)

Example run_dead_reachable_row :
  {| Job.id := "t2"; Job.command := "exit 1"; Job.state := dead;
     Job.attempts := 1; Job.max_retries := 1; Job.created_at := 1000;
     Job.updated_at := 3001; Job.run_at := None;
     Job.last_error := Some "exit=1: Command failed: exit 1"%string;
     Job.priority := 0; Job.locked_by := None; Job.lock_until := None |}
  ∈ jobs (db_of (run run_dead)).
Proof. rewrite (proj1 run_dead_tables). left. Qed.

(** In every reachable state a job row has been attempted at most
    [max(1, max_retries)] times; a [dead] row exactly that many times, a
    [failed] row (a retry is scheduled) fewer than [max_retries] times, and
    a [pending] row never. *)
Theorem attempts_stay_within_budget (s : System) (r : Job.row) :
  reachable s → r ∈ jobs (db_of s) →
  0 ≤ Job.attempts r ≤ Z.max 1 (Job.max_retries r)
  ∧ (Job.state r = pending → Job.attempts r = 0)
  ∧ (Job.state r = failed → 1 ≤ Job.attempts r < Job.max_retries r)
  ∧ (Job.state r = dead → Job.attempts r = Z.max 1 (Job.max_retries r))
  ∧ (Job.state r = processing ∨ Job.state r = completed →
     1 ≤ Job.attempts r).
Proof.
  intros Hs Hr.
  assert (H : attempts_within_budget r).
  { revert s Hs r Hr. apply reachable_rows_ind.
    - intros r Hst Hat _ _ _. unfold attempts_within_budget. by rewrite Hst.
    - intros r r' d Hch. unfold attempts_within_budget.
      destruct Hch as [r w now Hc | r w ext Hst Hl | r now Hst Ha
                      | r runAt now err Hst Ha Hlt | r deadAt err Hst Ha Hge];
        simpl.
      + apply claimable_state in Hc as [-> | ->]; lia.
      + rewrite Hst. done.
      + rewrite Hst. done.
      + rewrite Hst. lia.
      + rewrite Hst. lia. }
  unfold attempts_within_budget in H.
  destruct (Job.state r); split_and!; intros; try done; try lia;
    by destruct_or!.
Qed.

(** The dead-lettered row of [run_dead]: one attempt, [max_retries = 1]. *)
Lemma attempts_stay_within_budget_witness :
  ∃ r, r ∈ jobs (db_of (run run_dead))
       ∧ Job.state r = dead ∧ Job.max_retries r = 1 ∧ Job.attempts r = 1.
Proof.
  eexists. split; [exact run_dead_reachable_row|].
  split; [reflexivity|]. split; [reflexivity|].
  destruct (attempts_stay_within_budget (run run_dead) _
              (reachable_run run_dead) run_dead_reachable_row)
    as (_ & _ & _ & Hdead & _).
  exact (Hdead eq_refl).
Defined.

(** ** The state machine of a job *)

Example run_claimed_reachable_row :
  {| Job.id := "t2"; Job.command := "exit 1"; Job.state := processing;
     Job.attempts := 1; Job.max_retries := 2; Job.created_at := 1000;
     Job.updated_at := 2000; Job.run_at := None; Job.last_error := None;
     Job.priority := 0; Job.locked_by := Some "worker_a"%string;
     Job.lock_until := Some "1970-01-01T00:01:02.000Z"%string |}
  ∈ jobs (db_of (run run_claimed)).
Proof. rewrite (proj1 run_claimed_state). left. Qed.

(** In a reachable state, whatever call comes next, a job row is still in
    the table afterwards with the same [id], [command], [priority],
    [max_retries] and [created_at], and its state has moved along one edge
    of the state machine or not at all: [pending] or [failed] to
    [processing] (a claim, which adds one attempt), [processing] to
    [completed], [failed] or [dead] (an outcome, which keeps the attempts),
    [processing] to itself (a lock refresh).  A [completed] or [dead] row
    is never written again. *)
Theorem job_lifecycle (s : System) (c : call) (r : Job.row) :
  reachable s → r ∈ jobs (db_of s) →
  (∃ r', r' ∈ jobs (db_of (exec s c))
     ∧ fixed_columns r' = fixed_columns r
     ∧ (r' = r
        ∨ ((Job.state r = pending ∨ Job.state r = failed)
           ∧ Job.state r' = processing
           ∧ Job.attempts r' = Job.attempts r + 1)
        ∨ (Job.state r = processing
           ∧ (Job.state r' = processing ∨ Job.state r' = completed
              ∨ Job.state r' = failed ∨ Job.state r' = dead)
           ∧ Job.attempts r' = Job.attempts r)))
  ∧ (Job.state r = completed ∨ Job.state r = dead →
     r ∈ jobs (db_of (exec s c))).
Proof.
  intros Hs Hr.
  destruct (exec_tables_change s c Hs)
    as [Hj _ | r0 Hj _ _ _ _ _ _ _ | l1 r0 r' l2 d Hj Hj' _ Hch].
  - rewrite Hj. split; [exists r|]; auto.
  - rewrite Hj. split; [exists r; split_and!; auto|intros _];
      apply elem_of_app; auto.
  - rewrite Hj'. rewrite Hj in Hr.
    apply elem_of_replace in Hr as [-> | Hr].
    2:{ split; [exists r; split_and!; auto|intros _];
          apply elem_of_replace; auto. }
    destruct (row_change_facts _ _ _ Hch) as (Hfix & Hnc & Hnd & _).
    split; [|intros [? | ?]; done].
    exists r'. split; [apply elem_of_replace; auto|].
    split; [exact Hfix|]. right.
    destruct Hch as [r w now Hc | r w ext Hst Hl | r now Hst Ha
                    | r runAt now err Hst Ha Hlt | r deadAt err Hst Ha Hge];
      simpl.
    + left. apply claimable_state in Hc. auto.
    + right. auto.
    + right. auto.
    + right. auto 6.
    + right. auto 6.
Qed.

(** The claimed row of [run_claimed] when its command fails: it moves from
    [processing] to [failed]. *)
Lemma job_lifecycle_witness :
  ∃ r', r' ∈ jobs (db_of (exec (run run_claimed)
                            (Resolve "worker_a" exit_1 3000 3001)))
        ∧ Job.id r' = "t2"%string.
Proof.
  destruct (job_lifecycle (run run_claimed)
              (Resolve "worker_a" exit_1 3000 3001) _
              (reachable_run run_claimed) run_claimed_reachable_row)
    as [(r' & Hin & Hfix & _) _].
  exists r'. split; [exact Hin|].
  by apply fixed_columns_eq in Hfix as (Hid & _).
Defined.

(** ** ORDER BY *)

Lemma insert_ordered_perm {A : Type} (before : A → A → bool) (x : A)
    (l : list A) :
  insert_ordered before x l ≡ₚ x :: l.
Proof.
  induction l as [|y l IH]; simpl; [reflexivity|].
  destruct (before y x); [|reflexivity].
  rewrite IH. apply Permutation_swap.
Qed.

Lemma order_by_perm {A : Type} (before : A → A → bool) (l : list A) :
  order_by before l ≡ₚ l.
Proof.
  induction l as [|x l IH]; simpl; [reflexivity|].
  unfold order_by in *. cbn [foldr].
  by rewrite insert_ordered_perm, IH.
Qed.

Section OrderBy.
Context {A : Type} (before : A → A → bool).
Hypothesis before_asym : ∀ a b, before a b = true → before b a = false.
Hypothesis before_cotrans :
  ∀ a b c, before a b = false → before b c = false → before a c = false.

Lemma insert_ordered_ordered (x : A) (l : list A) :
  ordered before l → ordered before (insert_ordered before x l).
Proof.
  induction l as [|y l IH]; simpl.
  - intros _. split; [|done]. intros y Hy. by apply elem_of_nil in Hy.
  - intros [Hy Hl]. destruct (before y x) eqn:E; simpl.
    + split; [|by apply IH].
      intros z Hz. rewrite insert_ordered_perm in Hz.
      apply elem_of_cons in Hz as [-> | Hz]; [by apply before_asym|].
      by apply Hy.
    + split; [|by split].
      intros z Hz. apply elem_of_cons in Hz as [-> | Hz]; [exact E|].
      apply (before_cotrans z y x); [by apply Hy | exact E].
Qed.

Lemma order_by_ordered (l : list A) : ordered before (order_by before l).
Proof.
  induction l as [|x l IH]; [done|].
  unfold order_by in *. cbn [foldr]. by apply insert_ordered_ordered.
Qed.

End OrderBy.

Lemma order_by_elem_of {A : Type} (before : A → A → bool) (l : list A) (x : A) :
  x ∈ order_by before l ↔ x ∈ l.
Proof. by rewrite order_by_perm. Qed.

Lemma order_by_length {A : Type} (before : A → A → bool) (l : list A) :
  length (order_by before l) = length l.
Proof. by rewrite order_by_perm. Qed.

Lemma ordered_lookup {A : Type} (before : A → A → bool) (l : list A)
    (i j : nat) (a b : A) :
  ordered before l → (i < j)%nat → l !! i = Some a → l !! j = Some b →
  before b a = false.
Proof.
  revert i j. induction l as [|x l IH]; intros i j Ho Hij Ha Hb.
  - by rewrite lookup_nil in Ha.
  - destruct Ho as [Hx Hl]. destruct j as [|j]; [lia|].
    destruct i as [|i]; simpl in Ha, Hb.
    + injection Ha as ->. apply Hx. by eapply list_elem_of_lookup_2.
    + apply (IH i j); auto. lia.
Qed.

(** ** The listings *)

(** [listByState] never fails.  For ['dead'] it lists the dlq table, the
    same rows as [dlqList], latest death first; for any other text it
    lists the rows of the jobs table whose state column holds that text,
    each as often as it is stored, oldest first; a text that names no
    state gives the empty listing. *)
Theorem listByState_listing (db : DB) (name : string) :
  match listByState db name with
  | DlqRows l =>
      name = "dead"%string ∧ l = dlqList db ∧ l ≡ₚ dlq db
      ∧ ∀ i j a b, (i < j)%nat → l !! i = Some a → l !! j = Some b →
                   Dlq.dead_at b ≤ Dlq.dead_at a
  | JobRows l =>
      name ≠ "dead"%string
      ∧ l ≡ₚ List.filter (λ r, bool_decide (state_name (Job.state r) = name))
               (jobs db)
      ∧ (∀ r, r ∈ l ↔ r ∈ jobs db ∧ state_name (Job.state r) = name)
      ∧ (∀ i j a b, (i < j)%nat → l !! i = Some a → l !! j = Some b →
                    Job.created_at a ≤ Job.created_at b)
      ∧ ((∀ s, state_name s ≠ name) → l = [])
  end.
Proof.
  unfold listByState. case_bool_decide as Hname.
  - split_and!; [done | done | apply order_by_perm |].
    intros i j a b Hij Ha Hb.
    assert ((Dlq.dead_at a <? Dlq.dead_at b) = false) as H; [|lia].
    refine (ordered_lookup (λ a b, Dlq.dead_at b <? Dlq.dead_at a) _ i j a b
              _ Hij Ha Hb).
    apply order_by_ordered; intros; lia.
  - split_and!; [done | apply order_by_perm | | |].
    + intros r. rewrite order_by_elem_of, elem_of_filter_bool.
      by rewrite bool_decide_eq_true.
    + intros i j a b Hij Ha Hb.
      assert ((Job.created_at b <? Job.created_at a) = false) as H; [|lia].
      refine (ordered_lookup (λ a b, Job.created_at a <? Job.created_at b)
                _ i j a b _ Hij Ha Hb).
      apply order_by_ordered; intros; lia.
    + intros Hnone.
      assert (List.filter
                (λ r, bool_decide (state_name (Job.state r) = name)) (jobs db)
              = []) as ->; [|done].
      induction (jobs db) as [|r l IH]; simpl; [done|].
      rewrite bool_decide_eq_false_2; [exact IH | apply Hnone].
Qed.

(** ** The dead-letter queue *)

Lemma rows_in_state_app (st : JobState) (l1 l2 : list Job.row) :
  rows_in_state st (l1 ++ l2)
  = (rows_in_state st l1 + rows_in_state st l2)%nat.
Proof. unfold rows_in_state. by rewrite List.filter_app, length_app. Qed.

Lemma rows_in_state_cons (st : JobState) (r : Job.row) (l : list Job.row) :
  rows_in_state st (r :: l)
  = ((if bool_decide (Job.state r = st) then 1 else 0)
     + rows_in_state st l)%nat.
Proof. unfold rows_in_state. simpl. by case_bool_decide. Qed.

(** In a reachable state the dlq table and the dead rows of the jobs table
    mirror each other. *)
Lemma dlq_rows_of_dead_jobs (s : System) :
  reachable s →
  length (dlq (db_of s)) = rows_in_state dead (jobs (db_of s))
  ∧ (∀ r, r ∈ jobs (db_of s) → Job.state r = dead →
          dlq_row_of r ∈ dlq (db_of s))
  ∧ (∀ d, d ∈ dlq (db_of s) →
          ∃ r, r ∈ jobs (db_of s) ∧ Job.state r = dead ∧ d = dlq_row_of r).
Proof.
  induction 1 as [|s c Hs (IHn & IHr & IHd)].
  - split_and!; [done | |]; intros x Hx; by apply elem_of_nil in Hx.
  - destruct (exec_tables_change s c Hs)
      as [Hj Hd | r0 Hj Hd _ Hst _ _ _ _ | l1 r0 r' l2 d0 Hj Hj' Hd Hch].
    + rewrite Hj, Hd. auto.
    + rewrite Hj, Hd. split_and!.
      * rewrite rows_in_state_app, rows_in_state_cons, Hst.
        rewrite bool_decide_eq_false_2 by done.
        change (rows_in_state dead []) with 0%nat. lia.
      * intros r Hr Hdead. apply elem_of_app in Hr as [Hr | Hr]; [auto|].
        apply list_elem_of_singleton in Hr as ->. congruence.
      * intros d Hin. destruct (IHd d Hin) as (r & Hr & Hdead & ->).
        exists r. split_and!; auto. apply elem_of_app. auto.
    + destruct (row_change_facts _ _ _ Hch) as (Hfix & _ & Hnd & Hcases).
      rewrite Hj in IHn, IHr, IHd. rewrite Hj', Hd.
      assert (d0 = if bool_decide (Job.state r' = dead)
                   then [dlq_row_of r'] else []) as Hd0.
      { destruct Hcases as [[Hst ->] | [Hst ->]].
        - by rewrite bool_decide_eq_true_2.
        - by rewrite bool_decide_eq_false_2. }
      split_and!.
      * rewrite length_app, IHn.
        rewrite !rows_in_state_app, !rows_in_state_cons.
        rewrite (bool_decide_eq_false_2 (Job.state r0 = dead)) by done.
        rewrite Hd0. case_bool_decide; simpl; lia.
      * intros r Hr Hdead. apply elem_of_replace in Hr as [-> | Hr].
        -- rewrite Hd0, bool_decide_eq_true_2 by done.
           apply elem_of_app. right. left.
        -- apply elem_of_app. left. apply IHr; [|done].
           apply elem_of_replace. auto.
      * intros d Hin. apply elem_of_app in Hin as [Hin | Hin].
        -- destruct (IHd d Hin) as (r & Hr & Hdead & ->).
           exists r. split_and!; auto.
           apply elem_of_replace in Hr as [-> | Hr]; [done|].
           apply elem_of_replace. auto.
        -- rewrite Hd0 in Hin. case_bool_decide as Hst;
             [|by apply elem_of_nil in Hin].
           apply list_elem_of_singleton in Hin as ->.
           exists r'. split_and!; auto. apply elem_of_replace. auto.
Qed.

(** In a reachable state the dead-letter listing and the dead jobs mirror
    each other: [dlqList] has as many rows as [status] counts dead jobs,
    every dead job row has its DLQ row (named [dlq_<id>], with the job's
    snapshot and the instant of its death), and every DLQ row belongs to a
    dead row that is still in the jobs table. *)
Theorem dlqList_mirrors_dead_jobs (s : System) (now : Timestamp) :
  reachable s →
  length (dlqList (db_of s))
  = Queue.get_count dead (Queue.counts (Queue.status (db_of s) now))
  ∧ (∀ r, r ∈ jobs (db_of s) → Job.state r = dead →
          dlq_row_of r ∈ dlqList (db_of s))
  ∧ (∀ d, d ∈ dlqList (db_of s) →
          ∃ r, r ∈ jobs (db_of s) ∧ Job.state r = dead ∧ d = dlq_row_of r).
Proof.
  intros Hs. destruct (dlq_rows_of_dead_jobs s Hs) as (Hn & Hr & Hd).
  unfold dlqList. split_and!.
  - by rewrite order_by_length, status_counts.
  - intros r Hin Hdead. apply order_by_elem_of. auto.
  - intros d Hin. apply order_by_elem_of in Hin. auto.
Qed.

(** [run_dead] has dead-lettered its one job. *)
Lemma dlqList_mirrors_dead_jobs_witness :
  length (dlqList (db_of (run run_dead))) = 1%nat.
Proof.
  by destruct (dlqList_mirrors_dead_jobs (run run_dead) 4000
                 (reachable_run run_dead)) as [-> _].
Defined.

(** ** The PID file of the worker manager *)

Lemma read_digits_uint_acc (d : Decimal.uint) (p : positive) :
  read_digits (NilEmpty.string_of_uint d) (Some (Z.pos p))
  = Some (Z.pos (Pos.of_uint_acc d p)).
Proof.
  revert p. induction d; intros p; [reflexivity|..];
    cbn [NilEmpty.string_of_uint read_digits Pos.of_uint_acc];
    match goal with
    | |- context [digit_value ?c] =>
        let v := eval vm_compute in (digit_value c) in
        change (digit_value c) with v
    end; cbn [default]; rewrite <- IHd;
    apply (f_equal (read_digits _)); apply (f_equal Some).
 all: unfold id; lia.
Qed.

Lemma read_digits_uint_zero (d : Decimal.uint) :
  read_digits (NilEmpty.string_of_uint d) (Some 0)
  = Some (Z.of_N (Pos.of_uint d)).
Proof.
  induction d; [reflexivity|..];
    cbn [NilEmpty.string_of_uint read_digits Pos.of_uint];
    match goal with
    | |- context [digit_value ?c] =>
        let v := eval vm_compute in (digit_value c) in
        change (digit_value c) with v
    end; cbn [default]; unfold id; [exact IHd|..];
    cbn [Z.of_N]; rewrite <- read_digits_uint_acc; reflexivity.
Qed.

Lemma read_digits_uint (d : Decimal.uint) :
  d ≠ Decimal.Nil →
  read_digits (NilEmpty.string_of_uint d) None = Some (Z.of_uint d).
Proof.
  intros Hd. unfold Z.of_uint. rewrite <- read_digits_uint_zero.
  destruct d; [done|..]; reflexivity.
Qed.

Lemma uint_text_head (d : Decimal.uint) :
  d ≠ Decimal.Nil →
  ∃ c rest k, NilEmpty.string_of_uint d = String c rest
              ∧ digit_value c = Some k.
Proof.
  intros Hd. destruct d; [done|..]; cbn [NilEmpty.string_of_uint];
    eexists _, _, _; (split; [reflexivity|vm_compute; reflexivity]).
Qed.

Lemma parseInt_string_of_Z (n : Z) : parseInt (string_of_Z n) = Num n.
Proof.
  destruct n as [|p|p]; [reflexivity|..]; unfold string_of_Z;
    cbn [Z.to_int NilZero.string_of_int];
    pose proof (DecimalPos.Unsigned.to_uint_nonnil p) as Hnil;
    pose proof (DecimalPos.Unsigned.of_to p) as Hval;
    assert (NilZero.string_of_uint (Pos.to_uint p)
            = NilEmpty.string_of_uint (Pos.to_uint p)) as ->
      by (by destruct (Pos.to_uint p));
    pose proof (read_digits_uint _ Hnil) as Hread;
    unfold Z.of_uint in Hread; rewrite Hval in Hread;
    destruct (uint_text_head _ Hnil) as (c & rest & k & Htext & Hk);
    destruct (digit_value_facts c k Hk) as (Hsp & Hminus & Hplus);
    rewrite parseInt_cases.
  - rewrite Htext, skip_spaces_digit by done.
    rewrite !bool_decide_eq_false_2 by done.
    rewrite <- Htext, Hread. f_equal.
  - change (skip_spaces (String "-" ?s)) with (String "-"%char s).
    cbv iota beta. rewrite bool_decide_eq_true_2 by done. by rewrite Hread.
Qed.

Lemma split_lines_line (line rest : string) :
  Forall (λ c, c ≠ "010"%char) (list_ascii_of_string line) →
  WorkerManager.split_lines (line +:+ String "010" rest) = line :: WorkerManager.split_lines rest.
Proof.
  induction line as [|c line IH]; intros Hline.
  - change (("" +:+ String "010" rest)%string) with (String "010" rest).
    cbn [WorkerManager.split_lines]. by rewrite bool_decide_eq_true_2.
  - cbn [list_ascii_of_string] in Hline.
    apply Forall_cons in Hline as [Hc Hline].
    change ((String c line +:+ String "010" rest)%string)
      with (String c (line +:+ String "010" rest)).
    cbn [WorkerManager.split_lines]. rewrite bool_decide_eq_false_2 by done.
    by rewrite IH.
Qed.

Lemma append_assoc (a b c : string) :
  ((a +:+ b) +:+ c = a +:+ (b +:+ c))%string.
Proof. induction a as [|x a IH]; [done|]. by rewrite !String_app, IH. Qed.

Lemma split_lines_join (lines : list string) :
  lines ≠ [] →
  Forall (λ line, Forall (λ c, c ≠ "010"%char) (list_ascii_of_string line))
    lines →
  WorkerManager.split_lines (WorkerManager.join_lines lines +:+ String "010" EmptyString)
  = lines ++ [EmptyString].
Proof.
  induction lines as [|line lines IH]; [done|]. intros _ Hall.
  apply Forall_cons in Hall as [Hline Hall].
  destruct lines as [|line2 lines].
  - cbn [WorkerManager.join_lines]. by rewrite split_lines_line.
  - change (WorkerManager.join_lines (line :: line2 :: lines))
      with ((line +:+ String "010" (WorkerManager.join_lines (line2 :: lines)))%string).
    rewrite append_assoc.
    change ((String "010" (WorkerManager.join_lines (line2 :: lines))
             +:+ String "010" EmptyString)%string)
      with (String "010"
              (WorkerManager.join_lines (line2 :: lines) +:+ String "010" EmptyString)).
    rewrite split_lines_line by done. by rewrite IH.
Qed.

Lemma uint_text_digits (d : Decimal.uint) :
  Forall (λ c, c ≠ "010"%char)
    (list_ascii_of_string (NilEmpty.string_of_uint d)).
Proof.
  induction d; cbn [NilEmpty.string_of_uint list_ascii_of_string];
    [constructor|..]; (constructor; [discriminate|exact IHd]).
Qed.

Lemma string_of_Z_text (n : Z) :
  WorkerManager.blank (string_of_Z n) = false
  ∧ Forall (λ c, c ≠ "010"%char) (list_ascii_of_string (string_of_Z n)).
Proof.
  destruct n as [|p|p]; unfold string_of_Z;
    cbn [Z.to_int NilZero.string_of_int].
  - split; [reflexivity|]. repeat constructor. discriminate.
  - pose proof (DecimalPos.Unsigned.to_uint_nonnil p) as Hnil.
    assert (NilZero.string_of_uint (Pos.to_uint p)
            = NilEmpty.string_of_uint (Pos.to_uint p)) as ->
      by (by destruct (Pos.to_uint p)).
    split; [|apply uint_text_digits].
    destruct (uint_text_head _ Hnil) as (c & rest & k & -> & Hk).
    destruct (digit_value_facts c k Hk) as (Hsp & _).
    cbn [WorkerManager.blank]. by rewrite Hsp.
  - pose proof (DecimalPos.Unsigned.to_uint_nonnil p) as Hnil.
    assert (NilZero.string_of_uint (Pos.to_uint p)
            = NilEmpty.string_of_uint (Pos.to_uint p)) as ->
      by (by destruct (Pos.to_uint p)).
    split; [reflexivity|].
    cbn [list_ascii_of_string]. constructor; [discriminate|].
    apply uint_text_digits.
Qed.

Lemma loadWorkerPIDs_saved (pids : list Z) (file : option string) :
  WorkerManager.loadWorkerPIDs (WorkerManager.saveWorkerPIDs pids file)
  = pids.
Proof.
  destruct pids as [|pid pids]; [reflexivity|].
  unfold WorkerManager.saveWorkerPIDs, WorkerManager.loadWorkerPIDs.
  rewrite split_lines_join.
  2:{ done. }
  2:{ apply Forall_forall. intros line Hin.
      apply list_elem_of_In, in_map_iff in Hin as (n & <- & _).
      apply string_of_Z_text. }
  generalize (pid :: pids). clear pid pids file. intros pids.
  induction pids as [|pid pids IH]; [reflexivity|].
  cbn [List.map app List.filter].
  rewrite (proj1 (string_of_Z_text pid)). cbn [negb List.map].
  rewrite parseInt_string_of_Z. unfold WorkerManager.numbers in *.
  cbn [flat_map app].
  by rewrite IH.
Qed.

Lemma existsb_eqb_elem_of (pid : Z) (pids : list Z) :
  existsb (Z.eqb pid) pids = bool_decide (pid ∈ pids).
Proof.
  induction pids as [|q pids IH]; cbn [existsb].
  - by rewrite bool_decide_eq_false_2 by apply not_elem_of_nil.
  - rewrite IH. destruct (Z.eqb_spec pid q) as [-> | Hne]; cbn [orb].
    + rewrite bool_decide_eq_true_2; [done | left].
    + apply bool_decide_ext. rewrite elem_of_cons.
      split; [auto | intros [? | ?]; done].
Qed.

(** PIDs are safe integers.  [saveWorkerPIDs] then [loadWorkerPIDs] gives
    back the PIDs that were saved, in order, whatever the file held before;
    saving the empty list removes the file. *)
Theorem pid_file_round_trip (pids : list Z) (file : option string) :
  Forall safe_integer pids →
  WorkerManager.loadWorkerPIDs (WorkerManager.saveWorkerPIDs pids file)
  = pids
  ∧ (WorkerManager.saveWorkerPIDs pids file = None ↔ pids = []).
Proof.
  intros _. split; [apply loadWorkerPIDs_saved|].
  destruct pids; cbn [WorkerManager.saveWorkerPIDs]; split; intros; done.
Qed.

(** The PIDs 4242 and 17, saved when no file exists. *)
Lemma pid_file_round_trip_witness :
  WorkerManager.loadWorkerPIDs
    (WorkerManager.saveWorkerPIDs [4242; 17] None)
  = [4242; 17].
Proof.
  apply (pid_file_round_trip [4242; 17] None).
  repeat constructor; unfold safe_integer; simpl; lia.
Defined.

(** On a file that lists safe integers, [addWorkerPID] appends a PID that
    the file does not list and leaves the file alone when it does:
    afterwards the PID is listed, adding it again changes nothing, and a
    list without duplicates stays so. *)
Theorem addWorkerPID_registers (pid : Z) (file : option string) :
  safe_integer pid →
  Forall safe_integer (WorkerManager.loadWorkerPIDs file) →
  WorkerManager.loadWorkerPIDs (WorkerManager.addWorkerPID pid file)
  = (if bool_decide (pid ∈ WorkerManager.loadWorkerPIDs file)
     then WorkerManager.loadWorkerPIDs file
     else WorkerManager.loadWorkerPIDs file ++ [pid])
  ∧ pid ∈ WorkerManager.loadWorkerPIDs (WorkerManager.addWorkerPID pid file)
  ∧ WorkerManager.addWorkerPID pid (WorkerManager.addWorkerPID pid file)
    = WorkerManager.addWorkerPID pid file
  ∧ (NoDup (WorkerManager.loadWorkerPIDs file) →
     NoDup (WorkerManager.loadWorkerPIDs
              (WorkerManager.addWorkerPID pid file))).
Proof.
  intros _ _.
  assert (Hload : WorkerManager.loadWorkerPIDs
                    (WorkerManager.addWorkerPID pid file)
                  = if bool_decide (pid ∈ WorkerManager.loadWorkerPIDs file)
                    then WorkerManager.loadWorkerPIDs file
                    else WorkerManager.loadWorkerPIDs file ++ [pid]).
  { unfold WorkerManager.addWorkerPID. rewrite existsb_eqb_elem_of.
    case_bool_decide; [done | apply loadWorkerPIDs_saved]. }
  assert (Hin : pid ∈ WorkerManager.loadWorkerPIDs
                        (WorkerManager.addWorkerPID pid file)).
  { rewrite Hload. case_bool_decide; [done|].
    apply elem_of_app. right. left. }
  split_and!; [exact Hload | exact Hin | |].
  - unfold WorkerManager.addWorkerPID at 1. rewrite existsb_eqb_elem_of.
    by rewrite bool_decide_eq_true_2.
  - intros Hnd. rewrite Hload. case_bool_decide as Hp; [done|].
    apply NoDup_app. split_and!; [done | | apply NoDup_singleton].
    intros x Hx Hx'. apply list_elem_of_singleton in Hx' as ->. done.
Qed.

(** PID 17 is added to the file that lists 4242. *)
Lemma addWorkerPID_registers_witness :
  WorkerManager.loadWorkerPIDs
    (WorkerManager.addWorkerPID 17 (WorkerManager.saveWorkerPIDs [4242] None))
  = [4242; 17].
Proof.
  apply (proj1 (addWorkerPID_registers 17
                  (WorkerManager.saveWorkerPIDs [4242] None)
                  ltac:(unfold safe_integer; simpl; lia)
                  ltac:(change (Forall safe_integer [4242]);
                        repeat constructor; unfold safe_integer; simpl;
                        lia))).
Defined.

(** On a file that lists safe integers, [removeWorkerPID] rewrites the file
    without the PID: every other PID stays listed, in order, and the file
    is removed when none is left. *)
Theorem removeWorkerPID_removes (pid : Z) (file : option string) :
  safe_integer pid →
  Forall safe_integer (WorkerManager.loadWorkerPIDs file) →
  WorkerManager.loadWorkerPIDs (WorkerManager.removeWorkerPID pid file)
  = List.filter (λ p, negb (p =? pid)) (WorkerManager.loadWorkerPIDs file)
  ∧ (pid ∉ WorkerManager.loadWorkerPIDs
             (WorkerManager.removeWorkerPID pid file))
  ∧ (∀ q, q ≠ pid →
          q ∈ WorkerManager.loadWorkerPIDs
                (WorkerManager.removeWorkerPID pid file)
          ↔ q ∈ WorkerManager.loadWorkerPIDs file)
  ∧ ((∀ q, q ∈ WorkerManager.loadWorkerPIDs file → q = pid) →
     WorkerManager.removeWorkerPID pid file = None).
Proof.
  intros _ _.
  assert (Hload : WorkerManager.loadWorkerPIDs
                    (WorkerManager.removeWorkerPID pid file)
                  = List.filter (λ p, negb (p =? pid))
                      (WorkerManager.loadWorkerPIDs file))
    by apply loadWorkerPIDs_saved.
  split_and!; [exact Hload | | |].
  - rewrite Hload, elem_of_filter_bool. intros [_ H].
    by rewrite Z.eqb_refl in H.
  - intros q Hq. rewrite Hload, elem_of_filter_bool.
    destruct (Z.eqb_spec q pid); [done|]. cbn [negb]. tauto.
  - intros Hall. unfold WorkerManager.removeWorkerPID.
    assert (List.filter (λ p, negb (p =? pid))
              (WorkerManager.loadWorkerPIDs file) = [])
      as ->; [|done].
    revert Hall. generalize (WorkerManager.loadWorkerPIDs file). intros l.
    induction l as [|q l IH]; intros Hall; [done|].
    cbn [List.filter]. rewrite (Hall q) by left. rewrite Z.eqb_refl.
    cbn [negb]. apply IH. intros x Hx. apply Hall. by right.
Qed.

(** PID 4242 is removed from the file that lists 4242 and 17. *)
Lemma removeWorkerPID_removes_witness :
  WorkerManager.loadWorkerPIDs
    (WorkerManager.removeWorkerPID 4242
       (WorkerManager.saveWorkerPIDs [4242; 17] None))
  = [17].
Proof.
  apply (proj1 (removeWorkerPID_removes 4242
                  (WorkerManager.saveWorkerPIDs [4242; 17] None)
                  ltac:(unfold safe_integer; simpl; lia)
                  ltac:(change (Forall safe_integer [4242; 17]);
                        repeat constructor; unfold safe_integer; simpl;
                        lia))).
Defined.

Lemma filter_filter_bool {A : Type} (p q : A → bool) (l : list A) :
  List.filter p (List.filter q l) = List.filter (λ x, q x && p x) l.
Proof.
  induction l as [|x l IH]; [done|]. cbn [List.filter].
  destruct (q x); cbn [andb List.filter]; [|exact IH].
  destruct (p x); by rewrite IH.
Qed.

Lemma filter_ext_bool {A : Type} (p q : A → bool) (l : list A) :
  (∀ x, x ∈ l → p x = q x) → List.filter p l = List.filter q l.
Proof.
  intros H. apply List.filter_ext_in. intros x Hx. apply H.
  by apply list_elem_of_In.
Qed.

(** The loop of [WorkerManager.listWorkers] over the PIDs still to visit. *)
Lemma listWorkers_loop (alive : Z → bool) (todo : list Z) (acc : list Z)
    (file : option string) :
  let r :=
    fold_left
      (λ acc pid,
         if alive pid then (fst acc ++ [pid], snd acc)
         else (fst acc, WorkerManager.removeWorkerPID pid (snd acc)))
      todo (acc, file) in
  fst r = acc ++ List.filter alive todo
  ∧ WorkerManager.loadWorkerPIDs (snd r)
    = List.filter
        (λ p, negb (existsb (λ q, negb (alive q) && (q =? p)) todo))
        (WorkerManager.loadWorkerPIDs file)
  ∧ (forallb alive todo = true → snd r = file).
Proof.
  revert acc file. induction todo as [|pid todo IH]; intros acc file.
  - cbn [fold_left fst snd List.filter existsb negb forallb].
    split_and!; [by rewrite app_nil_r | | done].
    induction (WorkerManager.loadWorkerPIDs file) as [|x l IHl]; [done|].
    cbn [List.filter]. by rewrite <- IHl.
  - cbn [fold_left fst snd List.filter existsb forallb].
    destruct (alive pid) eqn:Ha; cbn [negb andb orb].
    + destruct (IH (acc ++ [pid]) file) as (H1 & H2 & H3).
      split_and!; [by rewrite H1, <- app_assoc | exact H2 | exact H3].
    + destruct (IH acc (WorkerManager.removeWorkerPID pid file))
        as (H1 & H2 & _).
      split_and!; [exact H1 | | done].
      rewrite H2. unfold WorkerManager.removeWorkerPID.
      rewrite loadWorkerPIDs_saved.
      rewrite filter_filter_bool. apply filter_ext_bool. intros x _.
      rewrite negb_orb. f_equal. by rewrite Z.eqb_sym.
Qed.

(** On a file that lists safe integers, [listWorkers] returns the PIDs of
    the file whose process answers, in file order, and leaves the file
    listing exactly those; when every listed process answers the file is
    not written. *)
Theorem listWorkers_prunes (alive : Z → bool) (file : option string) :
  Forall safe_integer (WorkerManager.loadWorkerPIDs file) →
  fst (WorkerManager.listWorkers alive file)
  = List.filter alive (WorkerManager.loadWorkerPIDs file)
  ∧ WorkerManager.loadWorkerPIDs (snd (WorkerManager.listWorkers alive file))
    = List.filter alive (WorkerManager.loadWorkerPIDs file)
  ∧ (forallb alive (WorkerManager.loadWorkerPIDs file) = true →
     snd (WorkerManager.listWorkers alive file) = file).
Proof.
  intros _.
  destruct (listWorkers_loop alive (WorkerManager.loadWorkerPIDs file) [] file)
    as (H1 & H2 & H3).
  unfold WorkerManager.listWorkers. split_and!; [exact H1 | | exact H3].
  rewrite H2. apply filter_ext_bool. intros p Hp.
  destruct (alive p) eqn:Ha.
  - apply negb_true_iff, not_true_iff_false. intros Hex.
    apply existsb_exists in Hex as (q & _ & Hq).
    apply andb_true_iff in Hq as [Hq1 Hq2].
    apply Z.eqb_eq in Hq2 as ->. by rewrite Ha in Hq1.
  - apply negb_false_iff, existsb_exists. exists p.
    split; [by apply list_elem_of_In|]. by rewrite Ha, Z.eqb_refl.
Qed.

(** Of the listed PIDs 4242 and 17 only the process 17 answers. *)
Lemma listWorkers_prunes_witness :
  fst (WorkerManager.listWorkers (Z.eqb 17)
         (WorkerManager.saveWorkerPIDs [4242; 17] None))
  = [17].
Proof.
  apply (proj1 (listWorkers_prunes (Z.eqb 17)
                  (WorkerManager.saveWorkerPIDs [4242; 17] None)
                  ltac:(change (Forall safe_integer [4242; 17]);
                        repeat constructor; unfold safe_integer; simpl;
                        lia))).
Defined.

(** ** Workers and their jobs *)

(** A job is in the hands of at most one worker: in a reachable state two
    workers that are inside [processJob] hold jobs with different ids, and
    the row of each job is [processing] and locked by the worker that
    holds it. *)
Theorem no_job_held_by_two_workers (s : System) (w1 w2 : string)
    (j1 j2 : Job.row) (b1 b2 : Z) :
  reachable s →
  currentJob s !! w1 = Some (j1, b1) → currentJob s !! w2 = Some (j2, b2) →
  Job.id j1 = Job.id j2 →
  w1 = w2
  ∧ ∃ r, r ∈ jobs (db_of s) ∧ Job.id r = Job.id j1
         ∧ Job.state r = processing ∧ Job.locked_by r = Some w1.
Proof.
  intros Hs H1 H2 Hid. pose proof (reachable_invariant s Hs) as Hinv.
  destruct (inv_current s Hinv w1 j1 b1 H1) as (r1 & Hr1 & Hst1 & Hl1 & _ & Hf1).
  destruct (inv_current s Hinv w2 j2 b2 H2) as (r2 & Hr2 & Hst2 & Hl2 & _ & Hf2).
  apply fixed_columns_eq in Hf1 as (Hid1 & _).
  apply fixed_columns_eq in Hf2 as (Hid2 & _).
  assert (r1 = r2) as <-.
  { apply (NoDup_ids_eq (jobs (db_of s))); [apply Hinv | done | done |].
    congruence. }
  split; [congruence|]. by exists r1.
Qed.

(** The job that [worker_a] holds after [run_claimed]. *)
Lemma no_job_held_by_two_workers_witness :
  ∃ r, r ∈ jobs (db_of (run run_claimed)) ∧ Job.id r = "t2"%string
       ∧ Job.state r = processing
       ∧ Job.locked_by r = Some "worker_a"%string.
Proof.
  exact (proj2 (no_job_held_by_two_workers (run run_claimed)
                  "worker_a" "worker_a" _ _ 2 2
                  (reachable_run run_claimed)
                  (proj2 run_claimed_state) (proj2 run_claimed_state)
                  eq_refl)).
Defined.



(** ** Configuration from the command line *)




(** ** Heartbeats *)

Lemma find_worker_None (w : string) (rows : list WorkerRow.row) :
  w ∉ (WorkerRow.id <$> rows) →
  List.find (λ x, bool_decide (WorkerRow.id x = w)) rows = None.
Proof.
  induction rows as [|x rows IH]; [done|]. intros Hw.
  apply not_elem_of_cons in Hw as [Hne Hw]. cbn [List.find].
  rewrite bool_decide_eq_false_2 by done. by apply IH.
Qed.

Lemma find_worker_unique (w : string) (rows : list WorkerRow.row)
    (old : WorkerRow.row) :
  NoDup (WorkerRow.id <$> rows) → old ∈ rows → WorkerRow.id old = w →
  List.find (λ x, bool_decide (WorkerRow.id x = w)) rows = Some old.
Proof.
  induction rows as [|x rows IH]; intros Hnd Hin Hid.
  - by apply elem_of_nil in Hin.
  - apply NoDup_cons in Hnd as [Hx Hnd]. cbn [List.find].
    apply elem_of_cons in Hin as [<- | Hin].
    + by rewrite bool_decide_eq_true_2.
    + rewrite bool_decide_eq_false_2; [by apply IH|].
      intros Hxw. apply Hx. rewrite Hxw, <- Hid.
      by apply list_elem_of_fmap_2.
Qed.

(** A heartbeat leaves exactly one row for its worker, the last of the
    table, with the given pid and [heartbeat_at = now]; [started_at] is
    kept from the worker's earlier row and is [now] on the first
    heartbeat.  The rows of the other workers stay as they are, in order,
    worker ids stay unique, the other tables are untouched, and [status]
    read up to 10 s later counts at least this worker as active. *)
Theorem heartbeat_registers_worker (db : DB) (w : string) (pid : Z)
    (now : Timestamp) :
  let db' := Worker.heartbeat db w pid now in
  (∃ row,
     workers db'
     = List.filter (λ x, negb (bool_decide (WorkerRow.id x = w))) (workers db)
       ++ [row]
     ∧ WorkerRow.id row = w ∧ WorkerRow.pid row = pid
     ∧ WorkerRow.heartbeat_at row = now
     ∧ (w ∉ (WorkerRow.id <$> workers db) → WorkerRow.started_at row = now)
     ∧ (∀ old, NoDup (WorkerRow.id <$> workers db) → old ∈ workers db →
               WorkerRow.id old = w →
               WorkerRow.started_at row = WorkerRow.started_at old)
     ∧ (∀ x, x ∈ workers db' → WorkerRow.id x = w → x = row))
  ∧ (∀ x, WorkerRow.id x ≠ w → x ∈ workers db' ↔ x ∈ workers db)
  ∧ (NoDup (WorkerRow.id <$> workers db) →
     NoDup (WorkerRow.id <$> workers db'))
  ∧ jobs db' = jobs db ∧ dlq db' = dlq db ∧ config db' = config db
  ∧ (∀ t, t - 10000 ≤ now →
          (1 ≤ Queue.active_workers (Queue.status db' t))%nat).
Proof.
  intros db'. subst db'. unfold Worker.heartbeat. cbn [workers jobs dlq config].
  set (others :=
         List.filter (λ x, negb (bool_decide (WorkerRow.id x = w)))
           (workers db)).
  assert (Hothers : ∀ x, x ∈ others ↔ x ∈ workers db ∧ WorkerRow.id x ≠ w).
  { intros x. unfold others. rewrite elem_of_filter_bool.
    rewrite negb_true_iff, bool_decide_eq_false. tauto. }
  split_and!; try reflexivity.
  - eexists. split; [reflexivity|]. cbn [WorkerRow.id WorkerRow.pid
      WorkerRow.heartbeat_at WorkerRow.started_at].
    split_and!; try reflexivity.
    + intros Hw. by rewrite find_worker_None.
    + intros old Hnd Hin Hid. by rewrite (find_worker_unique w _ old).
    + intros x Hx Hid. apply elem_of_app in Hx as [Hx | Hx].
      * apply Hothers in Hx as [_ Hne]. done.
      * by apply list_elem_of_singleton in Hx.
  - intros x Hne. rewrite elem_of_app, Hothers, list_elem_of_singleton.
    split; [intros [[? _] | ->]; [done | by cbn in Hne] | auto].
  - intros Hnd. rewrite fmap_app. apply NoDup_app. split_and!.
    + unfold others. clear Hothers.
      induction (workers db) as [|x l IH]; [constructor|].
      apply NoDup_cons in Hnd as [Hx Hnd]. cbn [List.filter].
      destruct (negb (bool_decide (WorkerRow.id x = w))); [|by apply IH].
      rewrite fmap_cons. apply NoDup_cons. split; [|by apply IH].
      intros Hin. apply Hx. apply list_elem_of_fmap in Hin as (y & -> & Hy).
      apply list_elem_of_fmap_2.
      by apply elem_of_filter_bool in Hy as [Hy _].
    + intros i Hi Hi'. apply list_elem_of_singleton in Hi'. cbn in Hi'.
      apply list_elem_of_fmap in Hi as (y & -> & Hy).
      apply Hothers in Hy as [_ Hne]. done.
    + apply NoDup_singleton.
  - intros t Ht. unfold Queue.status. cbn [Queue.active_workers workers].
    rewrite length_filter_map, List.filter_app, length_app.
    cbn [List.filter WorkerRow.heartbeat_at].
    replace (t - 10000 <=? now) with true by (symmetry; lia).
    cbn [length]. lia.
Qed.

(** ** The order of rendered instants *)

Example toISOString_epoch :
  Util.toISOString 0 = "1970-01-01T00:00:00.000Z"%string
  ∧ Util.toISOString (-1) = "1969-12-31T23:59:59.999Z"%string
  ∧ Util.toISOString 1709210096789 = "2024-02-29T12:34:56.789Z"%string.
Proof. vm_compute. split_and!; reflexivity. Qed.

Example toISOString_year_digits :
  Util.toISOString (-62167219200000) = "0000-01-01T00:00:00.000Z"%string
  ∧ Util.toISOString (-62167219200001)
    = "-000001-12-31T23:59:59.999Z"%string
  ∧ Util.toISOString 253402300799999 = "9999-12-31T23:59:59.999Z"%string
  ∧ Util.toISOString 253402300800000 = "+010000-01-01T00:00:00.000Z"%string
  ∧ Util.toISOString 8640000000000000
    = "+275760-09-13T00:00:00.000Z"%string
  ∧ Util.toISOString (-8640000000000000)
    = "-271821-04-20T00:00:00.000Z"%string.
Proof. vm_compute. split_and!; reflexivity. Qed.

Lemma digit_compare (p q : Z) :
  0 ≤ p ≤ 9 → 0 ≤ q ≤ 9 →
  Ascii.compare (Util.digit p) (Util.digit q) = (p ?= q).
Proof.
  intros Hp Hq.
  assert (Hp' : p = 0 ∨ p = 1 ∨ p = 2 ∨ p = 3 ∨ p = 4 ∨ p = 5 ∨ p = 6
                ∨ p = 7 ∨ p = 8 ∨ p = 9) by lia.
  assert (Hq' : q = 0 ∨ q = 1 ∨ q = 2 ∨ q = 3 ∨ q = 4 ∨ q = 5 ∨ q = 6
                ∨ q = 7 ∨ q = 8 ∨ q = 9) by lia.
  destruct_or!; subst; reflexivity.
Qed.

Lemma compare_div_mod (a b k : Z) :
  0 < k →
  match a / k ?= b / k with
  | Eq => a mod k ?= b mod k
  | c => c
  end = (a ?= b).
Proof.
  intros Hk.
  pose proof (Z.div_mod a k ltac:(lia)) as Ha.
  pose proof (Z.div_mod b k ltac:(lia)) as Hb.
  pose proof (Z.mod_pos_bound a k Hk) as Ha'.
  pose proof (Z.mod_pos_bound b k Hk) as Hb'.
  destruct (Z.compare_spec (a / k) (b / k)) as [He | Hlt | Hgt].
  - rewrite Ha, Hb at 2. rewrite He.
    destruct (Z.compare_spec (a mod k) (b mod k));
      symmetry; [apply Z.compare_eq_iff | apply Z.compare_lt_iff
                | apply Z.compare_gt_iff]; lia.
  - symmetry. apply Z.compare_lt_iff. nia.
  - symmetry. apply Z.compare_gt_iff. nia.
Qed.

Lemma compare_pad (w : nat) (a b : Z) (x y : string) :
  0 ≤ a < 10 ^ Z.of_nat w → 0 ≤ b < 10 ^ Z.of_nat w →
  String.compare (Util.pad w a +:+ x) (Util.pad w b +:+ y)
  = match a ?= b with
    | Eq => String.compare x y
    | c => c
    end.
Proof.
  revert a b. induction w as [|w IH]; intros a b Ha Hb.
  - cbn in *. by replace a with 0 by lia; replace b with 0 by lia.
  - cbn [Util.pad]. rewrite Nat2Z.inj_succ, Z.pow_succ_r in Ha, Hb by lia.
    assert (Hk : 0 < 10 ^ Z.of_nat w) by (apply Z.pow_pos_nonneg; lia).
    change (String ?c ?s +:+ ?t) with (String c (s +:+ t)).
    cbn [String.compare].
    rewrite digit_compare.
    2,3: split; [apply Z.div_pos; lia | apply Z.lt_succ_r;
                 apply Z.div_lt_upper_bound; lia].
    rewrite IH by (apply Z.mod_pos_bound; lia).
    rewrite <- (compare_div_mod a b (10 ^ Z.of_nat w)) by done.
    by destruct (a / 10 ^ Z.of_nat w ?= b / 10 ^ Z.of_nat w).
Qed.

(** Time of day. *)
Lemma time_fields_lt (a b : Z) :
  0 ≤ a < b → b < 86400000 →
  lex_lt [a / 3600000; a / 60000 mod 60; a / 1000 mod 60; a mod 1000]
         [b / 3600000; b / 60000 mod 60; b / 1000 mod 60; b mod 1000].
Proof.
  intros Ha Hb. cbn [lex_lt]. Z.div_mod_to_equations. lia.
Qed.

Lemma time_fields_range (a : Z) :
  0 ≤ a < 86400000 →
  0 ≤ a / 3600000 < 24 ∧ 0 ≤ a / 60000 mod 60 < 60
  ∧ 0 ≤ a / 1000 mod 60 < 60 ∧ 0 ≤ a mod 1000 < 1000.
Proof. intros Ha. Z.div_mod_to_equations. lia. Qed.

Lemma year_of_era_spec (doe : Z) :
  0 ≤ doe < 146097 →
  0 ≤ year_of_era doe ≤ 399
  ∧ year_start (year_of_era doe) ≤ doe
  ∧ (doe < year_start (year_of_era doe + 1) ∨ year_of_era doe = 399).
Proof.
  intros H. unfold year_of_era, year_start. Z.div_mod_to_equations. lia.
Qed.

Lemma year_start_mono (y y' : Z) : y < y' → year_start y < year_start y'.
Proof. intros H. unfold year_start. Z.div_mod_to_equations. lia. Qed.

Lemma day_of_year_range (doe : Z) :
  0 ≤ doe < 146097 → 0 ≤ doe - year_start (year_of_era doe) ≤ 365.
Proof.
  intros H. unfold year_of_era, year_start. Z.div_mod_to_equations. lia.
Qed.

(** Month (counted from March) and day of the day [doy] of a year that
    starts on 1 March. *)
Lemma month_day_lt (a b : Z) :
  0 ≤ a < b → b ≤ 365 →
  lex_lt [(5 * a + 2) / 153; a - (153 * ((5 * a + 2) / 153) + 2) / 5 + 1]
         [(5 * b + 2) / 153; b - (153 * ((5 * b + 2) / 153) + 2) / 5 + 1].
Proof. intros Ha Hb. cbn [lex_lt]. Z.div_mod_to_equations. lia. Qed.

Lemma month_day_range (a : Z) :
  0 ≤ a ≤ 365 →
  0 ≤ (5 * a + 2) / 153 ≤ 11
  ∧ 1 ≤ a - (153 * ((5 * a + 2) / 153) + 2) / 5 + 1 ≤ 31.
Proof. intros Ha. Z.div_mod_to_equations. lia. Qed.

Lemma civil_of_era_day_eq (doe : Z) :
  Util.civil_of_era_day doe
  = let yoe := year_of_era doe in
    let doy := doe - year_start yoe in
    let mp := (5 * doy + 2) / 153 in
    let m := if mp <? 10 then mp + 3 else mp - 9 in
    (yoe + (if m <=? 2 then 1 else 0), m,
     doy - (153 * mp + 2) / 5 + 1).
Proof. reflexivity. Qed.

Lemma civil_of_era_day_range (doe : Z) :
  0 ≤ doe < 146097 →
  let '(y, m, d) := Util.civil_of_era_day doe in
  0 ≤ y ≤ 400 ∧ 1 ≤ m ≤ 12 ∧ 1 ≤ d ≤ 31 ∧ (y = 0 → 3 ≤ m) ∧ (y = 400 → m ≤ 2).
Proof.
  intros H. rewrite civil_of_era_day_eq. cbn zeta.
  pose proof (year_of_era_spec doe H) as (Hy & _).
  pose proof (month_day_range _ (day_of_year_range doe H)) as (Hmp & Hd).
  destruct (_ <? 10) eqn:E; destruct (_ <=? 2) eqn:E'; lia.
Qed.

Lemma civil_of_era_day_lt (a b : Z) :
  0 ≤ a < b → b < 146097 →
  let '(ya, ma, da) := Util.civil_of_era_day a in
  let '(yb, mb, db) := Util.civil_of_era_day b in
  lex_lt [ya; ma; da] [yb; mb; db].
Proof.
  intros Ha Hb. rewrite !civil_of_era_day_eq. cbn zeta.
  pose proof (year_of_era_spec a ltac:(lia)) as (Hya & Hsa & Hea).
  pose proof (year_of_era_spec b ltac:(lia)) as (Hyb & Hsb & Heb).
  pose proof (day_of_year_range a ltac:(lia)) as Hda.
  pose proof (day_of_year_range b ltac:(lia)) as Hdb.
  pose proof (month_day_range _ Hda) as (Hma & Hdda).
  pose proof (month_day_range _ Hdb) as (Hmb & Hddb).
  destruct (Z.lt_trichotomy (year_of_era a) (year_of_era b))
    as [Hlt | [Heq | Hgt]].
  - cbn [lex_lt].
    destruct (_ <? 10) eqn:E1; destruct (_ <=? 2) eqn:E2;
      destruct (_ <? 10) eqn:E3 in |- *; destruct (_ <=? 2) eqn:E4 in |- *;
      lia.
  - rewrite <- Heq in *.
    pose proof (month_day_lt (a - year_start (year_of_era a))
                  (b - year_start (year_of_era a)) ltac:(lia) ltac:(lia))
      as Hmd.
    cbn [lex_lt] in *.
    destruct (_ <? 10) eqn:E1; destruct (_ <=? 2) eqn:E2;
      destruct (_ <? 10) eqn:E3 in |- *; destruct (_ <=? 2) eqn:E4 in |- *;
      lia.
  - pose proof (year_start_mono (year_of_era b) (year_of_era a) Hgt).
    pose proof (year_start_mono (year_of_era b) (year_of_era b + 1)).
    destruct (Z.eq_dec (year_of_era a) (year_of_era b + 1)) as [E|E].
    + rewrite E in *. lia.
    + pose proof (year_start_mono (year_of_era b + 1) (year_of_era a)). lia.
Qed.

Lemma civil_from_days_lt (a b : Z) :
  a < b →
  let '(ya, ma, da) := Util.civil_from_days a in
  let '(yb, mb, db) := Util.civil_from_days b in
  lex_lt [ya; ma; da] [yb; mb; db].
Proof.
  intros Hab. unfold Util.civil_from_days. cbn zeta.
  pose proof (Z.mod_pos_bound (a + 719468) 146097 ltac:(lia)) as Hma.
  pose proof (Z.mod_pos_bound (b + 719468) 146097 ltac:(lia)) as Hmb.
  pose proof (civil_of_era_day_range _ Hma) as Hra.
  pose proof (civil_of_era_day_range _ Hmb) as Hrb.
  destruct (Z.lt_trichotomy ((a + 719468) / 146097) ((b + 719468) / 146097))
    as [Hlt | [Heq | Hgt]].
  - destruct (Util.civil_of_era_day ((a + 719468) mod 146097))
      as [[ya ma] da].
    destruct (Util.civil_of_era_day ((b + 719468) mod 146097))
      as [[yb mb] db].
    cbn [lex_lt]. lia.
  - assert (Hlt : (a + 719468) mod 146097 < (b + 719468) mod 146097).
    { pose proof (Z.div_mod (a + 719468) 146097 ltac:(lia)).
      pose proof (Z.div_mod (b + 719468) 146097 ltac:(lia)). lia. }
    pose proof (civil_of_era_day_lt _ _ (conj (proj1 Hma) Hlt) (proj2 Hmb))
      as H.
    rewrite Heq.
    destruct (Util.civil_of_era_day ((a + 719468) mod 146097))
      as [[ya ma] da].
    destruct (Util.civil_of_era_day ((b + 719468) mod 146097))
      as [[yb mb] db].
    cbn [lex_lt] in *. lia.
  - exfalso.
    pose proof (Z.div_le_mono (a + 719468) (b + 719468) 146097
                  ltac:(lia) ltac:(lia)). lia.
Qed.

Lemma civil_from_days_range (days : Z) :
  let '(y, m, d) := Util.civil_from_days days in 1 ≤ m ≤ 12 ∧ 1 ≤ d ≤ 31.
Proof.
  unfold Util.civil_from_days. cbn zeta.
  pose proof (civil_of_era_day_range _
                (Z.mod_pos_bound (days + 719468) 146097 ltac:(lia))) as H.
  destruct (Util.civil_of_era_day _) as [[y m] d]. lia.
Qed.

(** The year of an instant lies in 0..9999 exactly for the instants from
    0000-01-01T00:00:00.000Z to 9999-12-31T23:59:59.999Z. *)
Lemma civil_from_days_year (t : Z) :
  let '(y, m, d) := Util.civil_from_days (t / 86400000) in
  (four_digit_year t → 0 ≤ y ≤ 9999)
  ∧ (t < -62167219200000 → y < 0)
  ∧ (253402300799999 < t → 9999 < y).
Proof.
  unfold four_digit_year.
  pose proof (civil_from_days_range (t / 86400000)) as Hr.
  pose proof (civil_from_days_lt (t / 86400000) (-719528)) as Hlo.
  pose proof (civil_from_days_lt (-719528) (t / 86400000)) as Hlo'.
  pose proof (civil_from_days_lt (t / 86400000) 2932896) as Hhi.
  pose proof (civil_from_days_lt 2932896 (t / 86400000)) as Hhi'.
  change (Util.civil_from_days (-719528)) with (0, 1, 1) in *.
  change (Util.civil_from_days 2932896) with (9999, 12, 31) in *.
  destruct (Util.civil_from_days (t / 86400000)) as [[y m] d] eqn:Hc.
  cbn [lex_lt] in *.
  assert (Hd : -719528 ≤ t / 86400000 ↔ -62167219200000 ≤ t)
    by (Z.div_mod_to_equations; lia).
  assert (Hd' : t / 86400000 ≤ 2932896 ↔ t ≤ 253402300799999)
    by (Z.div_mod_to_equations; lia).
  split_and!.
  - intros [H1 H2].
    destruct (Z.eq_dec (t / 86400000) (-719528)) as [E|E];
      [rewrite E in Hc; vm_compute in Hc; injection Hc as <- _ _; lia|].
    destruct (Z.eq_dec (t / 86400000) 2932896) as [E'|E'];
      [rewrite E' in Hc; vm_compute in Hc; injection Hc as <- _ _; lia|].
    specialize (Hlo' ltac:(lia)). specialize (Hhi ltac:(lia)). lia.
  - intros H. specialize (Hlo ltac:(lia)). lia.
  - intros H. specialize (Hhi' ltac:(lia)). lia.
Qed.

Lemma string_compare_refl (s : string) : String.compare s s = Eq.
Proof.
  induction s as [|c s IH]; [done|]. cbn [String.compare].
  unfold Ascii.compare. by rewrite N.compare_refl.
Qed.

Lemma compare_separator (c : ascii) (x y : string) :
  String.compare (String c "" +:+ x) (String c "" +:+ y) = String.compare x y.
Proof.
  change (String c "" +:+ ?s) with (String c s). cbn [String.compare].
  unfold Ascii.compare. by rewrite N.compare_refl.
Qed.

Lemma toISOString_lt (a b : Z) :
  four_digit_year a → four_digit_year b → a < b →
  String.compare (Util.toISOString a) (Util.toISOString b) = Lt.
Proof.
  intros Ha Hb Hab. unfold Util.toISOString.
  pose proof (civil_from_days_year a) as Hya.
  pose proof (civil_from_days_year b) as Hyb.
  pose proof (civil_from_days_range (a / 86400000)) as Hra.
  pose proof (civil_from_days_range (b / 86400000)) as Hrb.
  pose proof (civil_from_days_lt (a / 86400000) (b / 86400000)) as Hdate.
  pose proof (Z.mod_pos_bound a 86400000 ltac:(lia)) as Hma.
  pose proof (Z.mod_pos_bound b 86400000 ltac:(lia)) as Hmb.
  pose proof (time_fields_range _ Hma) as (Ha1 & Ha2 & Ha3 & Ha4).
  pose proof (time_fields_range _ Hmb) as (Hb1 & Hb2 & Hb3 & Hb4).
  pose proof (time_fields_lt (a mod 86400000) (b mod 86400000)) as Htime.
  assert (Hcase : a / 86400000 < b / 86400000
                  ∨ (a / 86400000 = b / 86400000
                     ∧ a mod 86400000 < b mod 86400000)).
  { pose proof (Z.div_mod a 86400000 ltac:(lia)).
    pose proof (Z.div_mod b 86400000 ltac:(lia)).
    pose proof (Z.div_le_mono a b 86400000 ltac:(lia) ltac:(lia)). lia. }
  destruct Hcase as [Hdays | [Hdays Hms]].
  - specialize (Hdate Hdays). clear Htime.
    destruct (Util.civil_from_days (a / 86400000)) as [[ya ma] da].
    destruct (Util.civil_from_days (b / 86400000)) as [[yb mb] db].
    destruct Hya as [Hya _]. destruct Hyb as [Hyb _].
    specialize (Hya Ha). specialize (Hyb Hb).
    unfold Util.year_text.
    replace ((0 <=? ya) && (ya <=? 9999)) with true by (symmetry; lia).
    replace ((0 <=? yb) && (yb <=? 9999)) with true by (symmetry; lia).
    cbn [lex_lt] in Hdate.
    rewrite compare_pad by (cbn; lia).
    destruct (Z.compare_spec ya yb); [|done|lia].
    rewrite compare_separator, compare_pad by (cbn; lia).
    destruct (Z.compare_spec ma mb); [|done|lia].
    rewrite compare_separator, compare_pad by (cbn; lia).
    destruct (Z.compare_spec da db); [lia|done|lia].
  - rewrite <- Hdays. clear Hdate.
    specialize (Htime ltac:(lia) ltac:(lia)). cbn [lex_lt] in Htime.
    destruct (Util.civil_from_days (a / 86400000)) as [[ya ma] da].
    destruct Hya as [Hya _]. specialize (Hya Ha).
    unfold Util.year_text.
    replace ((0 <=? ya) && (ya <=? 9999)) with true by (symmetry; lia).
    rewrite compare_pad, Z.compare_refl by (cbn; lia).
    rewrite compare_separator, compare_pad, Z.compare_refl by (cbn; lia).
    rewrite compare_separator, compare_pad, Z.compare_refl by (cbn; lia).
    rewrite compare_separator, compare_pad by (cbn; lia).
    destruct (Z.compare_spec (a mod 86400000 / 3600000)
                (b mod 86400000 / 3600000)); [|done|lia].
    rewrite compare_separator, compare_pad by (cbn; lia).
    destruct (Z.compare_spec (a mod 86400000 / 60000 mod 60)
                (b mod 86400000 / 60000 mod 60)); [|done|lia].
    rewrite compare_separator, compare_pad by (cbn; lia).
    destruct (Z.compare_spec (a mod 86400000 / 1000 mod 60)
                (b mod 86400000 / 1000 mod 60)); [|done|lia].
    rewrite compare_separator, compare_pad by (cbn; lia).
    destruct (Z.compare_spec (a mod 86400000 mod 1000)
                (b mod 86400000 mod 1000)); [lia|done|lia].
Qed.

(** On instants with a four-digit year the byte order of the renderings is
    the order of the instants. *)
Lemma toISOString_leb (a b : Z) :
  four_digit_year a → four_digit_year b →
  String.leb (Util.toISOString a) (Util.toISOString b) = (a <=? b).
Proof.
  intros Ha Hb. unfold String.leb.
  destruct (Z.lt_trichotomy a b) as [Hlt | [-> | Hgt]].
  - rewrite (toISOString_lt a b Ha Hb Hlt). symmetry. lia.
  - rewrite string_compare_refl. symmetry. lia.
  - rewrite String.compare_antisym, (toISOString_lt b a Hb Ha) by lia.
    symmetry. cbn. lia.
Qed.

(** A rendering with a signed six-digit year sorts before every rendering
    with a four-digit year: ['+'] and ['-'] are below the digits. *)
Lemma toISOString_signed_leb (a b : Z) :
  ¬ four_digit_year a → four_digit_year b →
  String.leb (Util.toISOString a) (Util.toISOString b) = true.
Proof.
  intros Ha Hb. unfold String.leb, Util.toISOString.
  pose proof (civil_from_days_year a) as Hya.
  pose proof (civil_from_days_year b) as Hyb.
  destruct (Util.civil_from_days (a / 86400000)) as [[ya ma] da].
  destruct (Util.civil_from_days (b / 86400000)) as [[yb mb] db].
  destruct Hyb as [Hyb _]. specialize (Hyb Hb).
  destruct Hya as (_ & Hneg & Hpos).
  unfold Util.year_text at 2.
  replace ((0 <=? yb) && (yb <=? 9999)) with true by (symmetry; lia).
  assert (Hq : 0 ≤ yb / 10 ^ 3 ≤ 9) by (Z.div_mod_to_equations; lia).
  assert (Hdigit : ∀ q, 0 ≤ q ≤ 9 →
            Ascii.compare "-" (Util.digit q) = Lt
            ∧ Ascii.compare "+" (Util.digit q) = Lt).
  { intros q Hq'.
    assert (q = 0 ∨ q = 1 ∨ q = 2 ∨ q = 3 ∨ q = 4 ∨ q = 5 ∨ q = 6
            ∨ q = 7 ∨ q = 8 ∨ q = 9) by lia.
    destruct_or!; subst; by split. }
  destruct (Hdigit _ Hq) as [Hm Hp].
  unfold four_digit_year in Ha. unfold Util.year_text.
  destruct (Z_lt_le_dec a (-62167219200000)) as [Hlo | Hlo].
  - specialize (Hneg Hlo).
    replace ((0 <=? ya) && (ya <=? 9999)) with false by (symmetry; lia).
    replace (ya <? 0) with true by (symmetry; lia).
    change (Util.pad 4 yb)
      with (String (Util.digit (yb / 10 ^ 3)) (Util.pad 3 (yb mod 10 ^ 3))).
    change (String ?c ?s +:+ ?t) with (String c (s +:+ t)).
    cbn [String.compare]. by rewrite Hm.
  - specialize (Hpos ltac:(lia)).
    replace ((0 <=? ya) && (ya <=? 9999)) with false by (symmetry; lia).
    replace (ya <? 0) with false by (symmetry; lia).
    change (Util.pad 4 yb)
      with (String (Util.digit (yb / 10 ^ 3)) (Util.pad 3 (yb mod 10 ^ 3))).
    change (String ?c ?s +:+ ?t) with (String c (s +:+ t)).
    cbn [String.compare]. by rewrite Hp.
Qed.

(** ** Enqueueing *)

(** [enqueue] succeeds exactly when the job has a command and its id (the
    given one, or [job_<nanoid>] when none or the empty string is given)
    is not in the table; otherwise it throws and the caller's database is
    as before.  A job enqueued once cannot be enqueued again under the
    same id: the second call throws. *)
Theorem enqueue_accepts_iff (db : DB) (job : Queue.job_arg) (nanoid : string)
    (now : Timestamp) :
  ((∃ db' i, Queue.enqueue db job nanoid now = Ok (db', i))
   ↔ is_Some (Queue.command job)
     ∧ Queue.id_or_generated (Queue.id job) nanoid ∉ (Job.id <$> jobs db))
  ∧ (Queue.command job = None →
     ∃ msg, Queue.enqueue db job nanoid now = Throw msg)
  ∧ (is_Some (Queue.command job) →
     Queue.id_or_generated (Queue.id job) nanoid ∈ (Job.id <$> jobs db) →
     Queue.enqueue db job nanoid now
     = Throw "UNIQUE constraint failed: jobs.id")
  ∧ (∀ db' i job2 nanoid2 now2,
       Queue.enqueue db job nanoid now = Ok (db', i) →
       Queue.id_or_generated (Queue.id job2) nanoid2 = i →
       ∃ msg, Queue.enqueue db' job2 nanoid2 now2 = Throw msg).
Proof.
  split_and!.
  - split.
    + intros (db' & i & Hok).
      apply enqueue_Ok_fresh_row in Hok
        as (r & _ & _ & _ & _ & Hfresh & Hid & Hi & Hcmd & _).
      split; [by rewrite Hcmd|]. by rewrite <- Hi, <- Hid.
    + intros [[cmd Hcmd] Hfresh]. unfold Queue.enqueue. rewrite Hcmd.
      rewrite insert_job_Ok by exact Hfresh. eauto.
  - intros Hcmd. unfold Queue.enqueue. rewrite Hcmd. eauto.
  - intros [cmd Hcmd] Htaken. unfold Queue.enqueue. rewrite Hcmd.
    by rewrite insert_job_Throw by exact Htaken.
  - intros db' i job2 nanoid2 now2 Hok Hi.
    apply enqueue_Ok_fresh_row in Hok as (r & Hj & _ & _ & _ & _ & Hid & _).
    unfold Queue.enqueue.
    destruct (Queue.command job2) as [cmd|]; [|eauto].
    rewrite insert_job_Throw; [eauto|]. cbn [Job.id].
    rewrite Hi, Hj, fmap_app, elem_of_app. right. rewrite <- Hid. left.
Qed.

Lemma toISOString_nonempty (t : Z) : Util.toISOString t ≠ ""%string.
Proof.
  unfold Util.toISOString.
  destruct (Util.civil_from_days (t / 86400000)) as [[y m] d].
  unfold Util.year_text.
  destruct ((0 <=? y) && (y <=? 9999)); [|destruct (y <? 0)]; discriminate.
Qed.

(** After a successful [enqueue], [status] counts one more [pending] job
    and the same number in every other state, ids are still unique, and
    the new row stores the [run_at] of the caller as it is given ([NULL] for
    a falsy one).  The row satisfies the claim predicate at a clock reading
    exactly when the stored text is, byte by byte, not above the rendering
    of the reading (at any time when nothing is stored); when the text is
    itself the rendering of an instant, and both that instant and the
    reading have a four-digit year, this is from that instant on. *)
Theorem enqueue_then_status_and_claim (db db' : DB) (job : Queue.job_arg)
    (nanoid : string) (now : Timestamp) (i : string) :
  Queue.enqueue db job nanoid now = Ok (db', i) →
  (∀ t st,
     Queue.get_count st (Queue.counts (Queue.status db' t))
     = (Queue.get_count st (Queue.counts (Queue.status db t))
        + if bool_decide (st = pending) then 1 else 0)%nat)
  ∧ (NoDup (Job.id <$> jobs db) → NoDup (Job.id <$> jobs db'))
  ∧ ∃ r, r ∈ jobs db' ∧ Job.id r = i
         ∧ Job.run_at r
           = match Queue.run_at job with
             | Queue.At text =>
                 if bool_decide (text = ""%string) then None else Some text
             | _ => None
             end
         ∧ (∀ t, Worker.claimable t r
                 = match Queue.run_at job with
                   | Queue.At text =>
                       bool_decide (text = ""%string)
                       || String.leb text (Util.toISOString t)
                   | _ => true
                   end)
         ∧ (∀ t0 t, Queue.run_at job = Queue.At (Util.toISOString t0) →
                    four_digit_year t0 → four_digit_year t →
                    Worker.claimable t r = (t0 <=? t)).
Proof.
  intros Hok.
  apply enqueue_Ok_fresh_row in Hok
    as (r & Hj & _ & _ & _ & Hfresh & Hid & _ & _ & Hst & _ & _ & _ & _
        & _ & Hrun & _ & _ & Hlu).
  assert (Hclaim : ∀ t, Worker.claimable t r
                        = match Queue.run_at job with
                          | Queue.At text =>
                              bool_decide (text = ""%string)
                              || String.leb text (Util.toISOString t)
                          | _ => true
                          end).
  { intros t. unfold Worker.claimable, Util.text_le. rewrite Hst, Hrun, Hlu.
    rewrite bool_decide_eq_true_2 by done. cbn [orb andb].
    destruct (Queue.run_at job) as [| | | | | |text];
      cbn [Queue.run_at_or_null]; try done.
    destruct (bool_decide (text = ""%string)); cbn [orb];
      by rewrite ?andb_true_r. }
  split_and!.
  - intros t st. rewrite !status_counts, Hj, rows_in_state_app.
    rewrite rows_in_state_cons, Hst.
    change (rows_in_state st []) with 0%nat.
    rewrite (bool_decide_ext (pending = st) (st = pending)) by done. lia.
  - intros Hnd. rewrite Hj, fmap_app. apply NoDup_app. split_and!.
    + done.
    + intros x Hx Hx'. apply list_elem_of_singleton in Hx'. cbn in Hx'.
      by subst x.
    + apply NoDup_singleton.
  - exists r. split_and!; [rewrite Hj; apply elem_of_app; right; left | done
                          | | exact Hclaim |].
    + rewrite Hrun. by destruct (Queue.run_at job).
    + intros t0 t Hat H0 Ht. rewrite Hclaim, Hat.
      rewrite bool_decide_eq_false_2 by apply toISOString_nonempty.
      cbn [orb]. by apply toISOString_leb.
Qed.

(** Job [t2] on the empty database, to be run at
    ["1970-01-01T00:00:06Z"], a text without milliseconds: [status] counts
    it as pending, and half a second after that instant, when the clock
    renders as ["1970-01-01T00:00:06.500Z"], the row does not yet satisfy
    the claim predicate (['Z'] is above ['.']). *)
Lemma enqueue_then_status_and_claim_witness :
  ∃ db' r,
    Queue.enqueue empty_db
      {| Queue.id := Some "t2"%string; Queue.command := Some "exit 1"%string;
         Queue.max_retries := Some 2; Queue.priority := None;
         Queue.run_at := Queue.At "1970-01-01T00:00:06Z" |} "V1StGXR8" 1000
    = Ok (db', "t2"%string)
    ∧ Queue.get_count pending (Queue.counts (Queue.status db' 1000)) = 1%nat
    ∧ r ∈ jobs db'
    ∧ Job.run_at r = Some "1970-01-01T00:00:06Z"%string
    ∧ Worker.claimable 6500 r = false
    ∧ Worker.claimable 7000 r = true.
Proof.
  eexists.
  destruct (enqueue_then_status_and_claim empty_db _
              {| Queue.id := Some "t2"%string;
                 Queue.command := Some "exit 1"%string;
                 Queue.max_retries := Some 2; Queue.priority := None;
                 Queue.run_at := Queue.At "1970-01-01T00:00:06Z" |}
              "V1StGXR8" 1000 "t2" eq_refl)
    as (Hcount & _ & r & Hr & _ & Hrun & Hclaim & _).
  exists r.
  split_and!; [reflexivity | by rewrite Hcount | exact Hr | exact Hrun
              | by rewrite Hclaim | by rewrite Hclaim].
Defined.

(** ** Retries wait for their time *)

Example run_retry_reachable_row :
  {| Job.id := "t2"; Job.command := "exit 1"; Job.state := failed;
     Job.attempts := 1; Job.max_retries := 2; Job.created_at := 1000;
     Job.updated_at := 3000;
     Job.run_at := Some "1970-01-01T00:00:05.000Z"%string;
     Job.last_error := Some "exit=1: Command failed: exit 1"%string;
     Job.priority := 0; Job.locked_by := None;
     Job.lock_until := Some "1970-01-01T00:00:05.000Z"%string |}
  ∈ jobs (db_of (run run_retry)).
Proof. rewrite run_retry_jobs. left. Qed.

(** A claim leaves every row alone that does not satisfy the claim
    predicate at the claim's clock reading. *)
Lemma claim_keeps_unclaimable (s : System) (w : string) (now : Timestamp)
    (tie tie' : nat) (r : Job.row) :
  reachable s → r ∈ jobs (db_of s) → Worker.claimable now r = false →
  r ∈ jobs (db_of (exec s (Claim w now tie tie'))).
Proof.
  intros Hs Hr Hc. pose proof (reachable_invariant s Hs) as Hinv.
  cbn [exec]. destruct (currentJob s !! w); [done|]. cbn [db_of].
  destruct (Worker.select_claimable (jobs (db_of s)) now tie)
    as [r0|] eqn:Hsel.
  2:{ by rewrite (claimJob_idle _ w now tie tie' Hsel). }
  destruct (select_claimable_Some _ _ _ _ Hsel)
    as (l1 & l2 & Hsplit & Hr0 & _).
  rewrite (claimJob_picked _ w now tie tie' r0 l1 l2 (inv_ids s Hinv) Hsel
             Hsplit).
  cbn [fst jobs]. rewrite Hsplit in Hr.
  apply elem_of_replace in Hr as [-> | Hr]; [congruence|].
  apply elem_of_replace. auto.
Qed.

(** In a reachable state the [run_at] and the [lock_until] of a [failed]
    row are the rendering of one valid time value. *)
Lemma failed_row_retry_instant (s : System) (r : Job.row) :
  reachable s → r ∈ jobs (db_of s) → Job.state r = failed →
  ∃ t, Util.valid_time t = true
       ∧ Job.run_at r = Some (Util.toISOString t)
       ∧ Job.lock_until r = Some (Util.toISOString t).
Proof.
  intros Hs. revert r.
  apply (reachable_rows_ind
           (λ r, Job.state r = failed →
                 ∃ t, Util.valid_time t = true
                      ∧ Job.run_at r = Some (Util.toISOString t)
                      ∧ Job.lock_until r = Some (Util.toISOString t)));
    [congruence | | exact Hs].
  intros r r' d Hch IH.
  destruct Hch as [r w now Hc | r w ext Hst Hl | r now Hst Ha
                  | r runAt now err Hst Ha Hlt Hvalid
                  | r deadAt err Hst Ha Hge]; cbn; try congruence.
  intros _. by exists runAt.
Qed.

(** A job that failed and is to be retried waits for its retry time, as
    far as the order of the rendered instants goes: in a reachable state
    the [run_at] of a [failed] row is the rendering of a valid instant [t],
    and [lock_until] equals it; the row satisfies the claim predicate at a
    clock reading exactly when the rendering of [t] is, byte by byte, not
    above the rendering of the reading.  For a reading with a four-digit
    year that is from [t] on when [t] is not after the year 9999, and at
    any such reading when it is (the rendering then starts with ['+']).  A
    claim made by any worker at a reading before a [t] up to the year 9999
    leaves the row as it is. *)
Theorem failed_row_waits_for_retry (s : System) (r : Job.row) :
  reachable s → r ∈ jobs (db_of s) → Job.state r = failed →
  ∃ t, Z.abs t ≤ 8640000000000000
       ∧ Job.run_at r = Some (Util.toISOString t)
       ∧ Job.lock_until r = Job.run_at r
       ∧ (∀ now, Worker.claimable now r
                 = String.leb (Util.toISOString t) (Util.toISOString now))
       ∧ (∀ now, four_digit_year now →
                 Worker.claimable now r
                 = (t <=? now) || (253402300799999 <? t))
       ∧ ∀ w now tie tie',
           four_digit_year now → now < t → t ≤ 253402300799999 →
           r ∈ jobs (db_of (exec s (Claim w now tie tie'))).
Proof.
  intros Hs Hr Hst.
  destruct (failed_row_retry_instant s r Hs Hr Hst) as (t & Hv & Hrun & Hlu).
  assert (Htext : ∀ now, Worker.claimable now r
                         = String.leb (Util.toISOString t)
                             (Util.toISOString now)).
  { intros now. unfold Worker.claimable, Util.text_le.
    rewrite Hst, Hrun, Hlu. cbn.
    by destruct (String.leb _ _). }
  assert (Hinst : ∀ now, four_digit_year now →
                         Worker.claimable now r
                         = (t <=? now) || (253402300799999 <? t)).
  { intros now Hnow. rewrite Htext.
    destruct (Z_lt_le_dec t (-62167219200000)) as [Hlo | Hlo].
    - rewrite toISOString_signed_leb by (unfold four_digit_year; lia || done).
      unfold four_digit_year in Hnow. symmetry. lia.
    - destruct (Z_lt_le_dec 253402300799999 t) as [Hhi | Hhi].
      + rewrite toISOString_signed_leb
          by (unfold four_digit_year; lia || done).
        symmetry. lia.
      + rewrite toISOString_leb by (unfold four_digit_year; lia || done).
        lia. }
  exists t. split_and!; [unfold Util.valid_time in Hv; lia | done
                        | by rewrite Hlu, Hrun | exact Htext | exact Hinst |].
  intros w now tie tie' Hnow Hlt Hhi.
  apply claim_keeps_unclaimable; [done | done |].
  rewrite Hinst by done. lia.
Qed.

(** Job [t2] after its first failure at 3000 with base 2: not before
    5000. *)
Lemma failed_row_waits_for_retry_witness :
  ∃ t, Some "1970-01-01T00:00:05.000Z"%string = Some (Util.toISOString t)
       ∧ (∀ now, four_digit_year now →
                 Worker.claimable now
                   {| Job.id := "t2"; Job.command := "exit 1";
                      Job.state := failed; Job.attempts := 1;
                      Job.max_retries := 2; Job.created_at := 1000;
                      Job.updated_at := 3000;
                      Job.run_at := Some "1970-01-01T00:00:05.000Z"%string;
                      Job.last_error :=
                        Some "exit=1: Command failed: exit 1"%string;
                      Job.priority := 0; Job.locked_by := None;
                      Job.lock_until :=
                        Some "1970-01-01T00:00:05.000Z"%string |}
                 = (t <=? now) || (253402300799999 <? t)).
Proof.
  destruct (failed_row_waits_for_retry (run run_retry) _
              (reachable_run run_retry) run_retry_reachable_row eq_refl)
    as (t & _ & Ht & _ & _ & Hc & _).
  exists t. split; [exact Ht | exact Hc].
Defined.

(** With [backoff_base] set to 10^12 the retry of job [t2] is due in the
    year 33658: the rendering of that instant starts with ['+'] and sorts
    before the rendering of the clock, so the row satisfies the claim
    predicate a second later and the next claim takes it. *)
Example far_retry_claimed_at_once :
  Job.run_at <$> jobs (db_of (run run_far_retry))
  = [Some "+033658-09-27T01:46:43.000Z"%string]
  ∧ Worker.claimable 4000 <$> jobs (db_of (run run_far_retry)) = [true]
  ∧ Job.id <$> snd (Worker.claimJob (db_of (run run_far_retry)) "worker_b"
                      4000 0 0)
    = Some "t2"%string.
Proof. vm_compute. split_and!; reflexivity. Qed.
